(** * Superjoin-synced: Sheets <-> MySQL synchronisation engine

    A shallow embedding of the pure and state-passing parts of the backend
    (identifier sanitising, type inference and coercion, row hashing, the
    last-write-wins arbiter, the schema registry, the registration of
    sheets and the columns of their tables, the queue configuration, the
    webhook and its queue, the DB->Sheet job processor and worker, the
    configuration of the logger and the cleanup event of the database),
    followed by the properties proved about them.

    Strings are sequences of code units; the embedding works over the
    code units 0..255 (the Latin-1 part of UTF-16), which is where every
    character class used by the source lives.  Numbers carry their exact
    value.  What the engine, the database and the collaborators decide
    is a parameter: the date parser and the hash, the collation with
    which the database compares text, and for each statement or call
    that can fail, whether it does. *)

From Stdlib Require Import ZArith NArith QArith Lia Bool List Ascii String.
From Stdlib Require Import Decimal DecimalString DecimalPos DecimalZ.
From stdpp Require Import base option list sorting gmap strings.

Local Open Scope string_scope.
Local Open Scope Z_scope.

(* ===================================================================== *)
(** * Character classes and string primitives of the host language       *)
(* ===================================================================== *)

Module Js.

Definition code (c : ascii) : N := N_of_ascii c.

Definition in_range (lo hi : N) (c : ascii) : bool :=
  ((lo <=? code c) && (code c <=? hi))%N.

(** [0-9] (also the class \d of the regular expressions) *)
Definition is_digit : ascii -> bool := in_range 48 57.
(** [a-z] *)
Definition is_lower : ascii -> bool := in_range 97 122.
(** [A-Z] *)
Definition is_upper : ascii -> bool := in_range 65 90.

Definition is_char (x c : ascii) : bool := (code x =? code c)%N.

(** White space and line terminators stripped by [String.prototype.trim]
    (tab, LF, VT, FF, CR, space, no-break space). *)
Definition is_space (c : ascii) : bool :=
  in_range 9 13 c || (code c =? 32)%N || (code c =? 160)%N.

(** [String.prototype.toLowerCase] on one code unit: A-Z, and the
    Latin-1 capitals (all but the multiplication sign), move up by 32.
    On these code units the result has the length of the input; of the
    code units that are not represented, the capital I with a dot above
    becomes two code units. *)
Definition lower_char (c : ascii) : ascii :=
  if is_upper c || (in_range 192 222 c && negb (code c =? 215)%N)
  then ascii_of_N (code c + 32) else c.

Fixpoint toLowerCase (s : string) : string :=
  match s with
  | EmptyString => EmptyString
  | String c s' => String (lower_char c) (toLowerCase s')
  end.

Fixpoint drop_while (p : ascii -> bool) (s : string) : string :=
  match s with
  | EmptyString => EmptyString
  | String c s' => if p c then drop_while p s' else s
  end.

(** Removes the longest suffix whose characters all satisfy [p]. *)
Fixpoint drop_while_end (p : ascii -> bool) (s : string) : string :=
  match s with
  | EmptyString => EmptyString
  | String c s' =>
      match drop_while_end p s' with
      | EmptyString => if p c then EmptyString else String c EmptyString
      | r => String c r
      end
  end.

Definition trim (s : string) : string :=
  drop_while_end is_space (drop_while is_space s).

(** [s.replace(/[cls]+/g, rep)]: every maximal run of characters of the
    class is replaced by one copy of [rep]; [in_run] tells that the
    previous character already belonged to the run being replaced. *)
Fixpoint replace_runs_from (cls : ascii -> bool) (rep : string)
    (in_run : bool) (s : string) : string :=
  match s with
  | EmptyString => EmptyString
  | String c s' =>
      if cls c then
        if in_run then replace_runs_from cls rep true s'
        else rep ++ replace_runs_from cls rep true s'
      else String c (replace_runs_from cls rep false s')
  end.

Definition replace_runs (cls : ascii -> bool) (rep : string) (s : string) : string :=
  replace_runs_from cls rep false s.

Fixpoint take_while (p : ascii -> bool) (s : string) : string :=
  match s with
  | EmptyString => EmptyString
  | String c s' => if p c then String c (take_while p s') else EmptyString
  end.

Fixpoint filter_chars (keep : ascii -> bool) (s : string) : string :=
  match s with
  | EmptyString => EmptyString
  | String c s' =>
      if keep c then String c (filter_chars keep s') else filter_chars keep s'
  end.

Fixpoint all_chars (p : ascii -> bool) (s : string) : bool :=
  match s with
  | EmptyString => true
  | String c s' => p c && all_chars p s'
  end.

(** [list.includes(s)] on a list of strings. *)
Definition includes (l : list string) (s : string) : bool :=
  existsb (String.eqb s) l.

(** ** Exceptions

    A computation of the host language either returns or throws. *)
Inductive Res (A : Type) : Type :=
| Ok (a : A)
| Throw (msg : string).
Arguments Ok {A} a.
Arguments Throw {A} msg.

Definition bind {A B} (m : Res A) (k : A -> Res B) : Res B :=
  match m with
  | Ok a => k a
  | Throw e => Throw e
  end.

(** [try { body } catch { return handler }] *)
Definition try_catch {A} (body : Res A) (handler : A) : Res A :=
  match body with
  | Ok a => Ok a
  | Throw _ => Ok handler
  end.

(** ** Values

    Numbers carry their exact mathematical value; rounding to a double
    is not represented. *)
Inductive JsNumber : Type :=
| NaN
| Infinity (negative : bool)
| Finite (q : Q).

Definition isNaN (n : JsNumber) : bool :=
  match n with NaN => true | _ => false end.

(** The values that reach the engine: JSON data of a webhook payload and
    the data of a database row.  A [VDate] is a [Date] object with its
    time value in milliseconds ([None] for an invalid date); a [VObj] is
    a plain object, its own properties in insertion order. *)
#[local] Unset Elimination Schemes.
Inductive JsValue : Type :=
| VUndefined
| VNull
| VBool (b : bool)
| VNum (n : JsNumber)
| VStr (s : string)
| VDate (t : option Z)
| VArr (items : list JsValue)
| VObj (fields : list (string * JsValue)).
#[local] Set Elimination Schemes.

(** [obj[key]] on the own properties of a plain object. *)
Fixpoint get_field {A} (key : string) (fields : list (string * A)) : option A :=
  match fields with
  | [] => None
  | (k, v) :: rest => if String.eqb k key then Some v else get_field key rest
  end.

Definition is_Some_b {A} (o : option A) : bool :=
  match o with Some _ => true | None => false end.

Definition has_field {A} (key : string) (fields : list (string * A)) : bool :=
  match get_field key fields with Some _ => true | None => false end.

(** ** Number and date primitives provided by the runtime

    What only the JavaScript engine and the crypto library determine is
    taken as a parameter of the development. *)
Class Runtime : Type := {
  (** [new Date(s).getTime()]; [None] is NaN (an invalid date) *)
  dateParse : string -> option Z;
  (** [Date.prototype.toString] of a valid date (local time zone) *)
  dateToString : Z -> string;
  (** [Date.prototype.toISOString] of a valid date *)
  dateToISOString : Z -> string;
  (** [Number.prototype.toString] of a finite number that does not print
      as a plain integer: a number that is not an integer, or one of
      absolute value 10^21 or more (exponent notation) *)
  fractionToString : Q -> string;
  (** SHA-256 of a string, in hexadecimal *)
  sha256hex : string -> string
}.

Definition string_of_Z (z : Z) : string :=
  DecimalString.NilZero.string_of_int (Z.to_int z).

Definition is_integer (q : Q) : bool :=
  (Z.rem (Qnum q) (Zpos (Qden q)) =? 0)%Z.

(** [String(n)] for a number; an integer of absolute value below 10^21
    prints in decimal notation, every other finite number as the engine
    prints it. *)
Definition numberToString `{Runtime} (n : JsNumber) : string :=
  match n with
  | NaN => "NaN"
  | Infinity false => "Infinity"
  | Infinity true => "-Infinity"
  | Finite q =>
      if is_integer q && (Z.abs (Z.quot (Qnum q) (Zpos (Qden q))) <? 10 ^ 21)%Z
      then string_of_Z (Z.quot (Qnum q) (Zpos (Qden q)))
      else fractionToString q
  end.

Fixpoint join (sep : string) (l : list string) : string :=
  match l with
  | [] => ""
  | [x] => x
  | x :: rest => x ++ sep ++ join sep rest
  end.

(** [String(value)].  A plain object prints as [object Object]; when it
    has an own property named toString, that property (data, hence not
    callable) shadows the inherited method, the fallback valueOf yields
    the object itself, and the conversion throws a TypeError.  An array
    prints its elements separated by commas, null and undefined as the
    empty string. *)
Fixpoint toString `{Runtime} (v : JsValue) : Res string :=
  match v with
  | VUndefined => Ok "undefined"
  | VNull => Ok "null"
  | VBool true => Ok "true"
  | VBool false => Ok "false"
  | VNum n => Ok (numberToString n)
  | VStr s => Ok s
  | VDate None => Ok "Invalid Date"
  | VDate (Some t) => Ok (dateToString t)
  | VArr items =>
      bind ((fix elems (l : list JsValue) : Res (list string) :=
               match l with
               | [] => Ok []
               | x :: rest =>
                   bind (match x with
                         | VUndefined | VNull => Ok ""
                         | _ => toString x
                         end)
                        (fun sx => bind (elems rest) (fun srest => Ok (sx :: srest)))
               end) items)
           (fun l => Ok (join "," l))
  | VObj fields =>
      if has_field "toString" fields
      then Throw "TypeError: Cannot convert object to primitive value"
      else Ok "[object Object]"
  end.

(** ** parseFloat

    The longest prefix that is a decimal literal, after leading white
    space: an optional sign, then Infinity, or digits with an optional
    fraction and an optional exponent.  No such prefix gives NaN.  The
    result is the exact value of the literal: the rounding to a double,
    and with it the overflow of a literal above 1.8e308 to Infinity, is
    not represented, so that what is proved of the result is proved of
    its being a number or NaN, not of its being finite. *)
Definition digit_value (c : ascii) : Z := Z.of_N (code c) - 48.

(** Reads a run of digits: the value accumulated, the number of digits
    read, and the rest of the string. *)
Fixpoint read_digits (acc : Z) (count : nat) (s : string) : Z * nat * string :=
  match s with
  | String c s' =>
      if is_digit c then read_digits (10 * acc + digit_value c) (S count) s'
      else (acc, count, s)
  | EmptyString => (acc, count, s)
  end.

Definition read_sign (s : string) : bool * string :=
  match s with
  | String c s' =>
      if is_char "-" c then (true, s')
      else if is_char "+" c then (false, s')
      else (false, s)
  | EmptyString => (false, s)
  end.

(** The exponent part [e], [e+] or [e-] followed by at least one digit;
    0 when there is none. *)
Definition read_exponent (s : string) : Z :=
  match s with
  | String c s' =>
      if is_char "e" c || is_char "E" c then
        let '(neg, s1) := read_sign s' in
        let '(v, n, _) := read_digits 0 0 s1 in
        if (n =? 0)%nat then 0 else if neg then - v else v
      else 0
  | EmptyString => 0
  end.

Definition scale (mant : Z) (e : Z) : Q :=
  if (0 <=? e)%Z then Qred (inject_Z (mant * 10 ^ e))
  else Qred (Qmake mant (Z.to_pos (10 ^ (- e)))).

Definition parseFloat (input : string) : JsNumber :=
  let '(neg, s1) := read_sign (drop_while is_space input) in
  if String.prefix "Infinity" s1 then Infinity neg
  else
    let '(ip, ni, s2) := read_digits 0 0 s1 in
    let '(m, nf, s3) :=
      match s2 with
      | String c s2' => if is_char "." c then read_digits ip 0 s2' else (ip, 0%nat, s2)
      | EmptyString => (ip, 0%nat, s2)
      end in
    if ((ni =? 0) && (nf =? 0))%nat then NaN
    else
      let e := read_exponent s3 - Z.of_nat nf in
      Finite (scale (if neg then - m else m) e).

(** ** The regular expressions of typeCoercion.ts *)

(** [/^-?[0-9]+(\.[0-9]+)?$/.test(s)] *)
Definition matches_numeric (s : string) : bool :=
  let s1 := match s with
            | String c s' => if is_char "-" c then s' else s
            | EmptyString => s
            end in
  match s1 with
  | String c _ =>
      is_digit c &&
      match drop_while is_digit s1 with
      | EmptyString => true
      | String dot frac =>
          is_char "." dot && negb (String.length frac =? 0)%nat && all_chars is_digit frac
      end
  | EmptyString => false
  end.

(** What the pattern says: an optional minus sign, one digit or more, and
    optionally a point followed by one digit or more. *)
Definition numeric_shape (s : string) : Prop :=
  exists (negative : bool) (int frac : string),
    int <> EmptyString /\ all_chars is_digit int = true /\
    all_chars is_digit frac = true /\
    s = (if negative then "-" else "") ++ int ++
        (match frac with EmptyString => "" | _ => "." ++ frac end).

(** The pattern \d{4}-\d{2}-\d{2} matched at the start of [s]. *)
Definition date_pattern_at (s : string) : bool :=
  match s with
  | String y1 (String y2 (String y3 (String y4 (String h1
      (String m1 (String m2 (String h2 (String d1 (String d2 _))))))))) =>
      is_digit y1 && is_digit y2 && is_digit y3 && is_digit y4 &&
      is_char "-" h1 && is_digit m1 && is_digit m2 &&
      is_char "-" h2 && is_digit d1 && is_digit d2
  | _ => false
  end.

(** [/\d{4}-\d{2}-\d{2}/.test(s)]: the pattern is not anchored, it is
    searched at every position. *)
Fixpoint contains_date_pattern (s : string) : bool :=
  date_pattern_at s ||
  match s with
  | EmptyString => false
  | String _ s' => contains_date_pattern s'
  end.

End Js.

(* ===================================================================== *)
(** * utils/columnUtils.ts                                               *)
(* ===================================================================== *)

Module ColumnUtils.
Import Js.

(** The class [a-z0-9_] and its complement [^a-z0-9_]. *)
Definition is_ident_char (c : ascii) : bool :=
  is_lower c || is_digit c || is_char "_" c.

Definition starts_with (p : ascii -> bool) (s : string) : bool :=
  match s with
  | EmptyString => false
  | String c _ => p c
  end.

Definition sanitizeIdentifier (input : string) : string :=
  let trimmed := toLowerCase (trim input) in
  let replaced :=
    replace_runs (is_char "_") "_"
      (replace_runs (fun c => negb (is_ident_char c)) "_" trimmed) in
  let noEdgeUnderscores :=
    drop_while_end (is_char "_") (drop_while (is_char "_") replaced) in
  let safe :=
    if (String.length noEdgeUnderscores =? 0)%nat then "col" else noEdgeUnderscores in
  let prefixed := if starts_with is_digit safe then "col_" ++ safe else safe in
  substring 0 64 prefixed.

(** ** The shape of a sanitised identifier *)

Fixpoint ends_with (p : ascii -> bool) (s : string) : bool :=
  match s with
  | EmptyString => false
  | String c EmptyString => p c
  | String _ s' => ends_with p s'
  end.

(** No two characters of the class follow each other. *)
Fixpoint no_double (p : ascii -> bool) (s : string) : bool :=
  match s with
  | EmptyString => true
  | String c s' => negb (p c && starts_with p s') && no_double p s'
  end.

(** The shape of an identifier the sanitiser leaves alone, before the
    length is looked at. *)
Definition canonical (s : string) : Prop :=
  all_chars is_ident_char s = true /\
  no_double (is_char "_") s = true /\
  starts_with (is_char "_") s = false /\
  ends_with (is_char "_") s = false /\
  s <> EmptyString /\
  starts_with is_digit s = false.

(** Everything [sanitizeIdentifier] does before it truncates. *)
Definition prefixed_form (input : string) : string :=
  let replaced :=
    replace_runs (is_char "_") "_"
      (replace_runs (fun c => negb (is_ident_char c)) "_" (toLowerCase (trim input))) in
  let noEdgeUnderscores :=
    drop_while_end (is_char "_") (drop_while (is_char "_") replaced) in
  let safe :=
    if (String.length noEdgeUnderscores =? 0)%nat then "col" else noEdgeUnderscores in
  if starts_with is_digit safe then "col_" ++ safe else safe.

Definition sanitizeTableName (sheetId sheetName : string) : string :=
  let idPart := substring 0 24 (sanitizeIdentifier sheetId) in
  let namePart := substring 0 24 (sanitizeIdentifier sheetName) in
  let base := "sheet_" ++ idPart ++ "_" ++ namePart in
  substring 0 64 base.

End ColumnUtils.


(* ===================================================================== *)
(** * utils/typeCoercion.ts                                              *)
(* ===================================================================== *)

Module TypeCoercion.
Import Js.

Inductive ColumnDataType : Type := TEXT | NUMBER | DATE | BOOLEAN.

(** [value === null || value === undefined || value === ''] *)
Definition is_empty (value : JsValue) : bool :=
  match value with
  | VNull | VUndefined | VStr EmptyString => true
  | _ => false
  end.

(** [[^0-9.-]] is removed. *)
Definition numeric_char (c : ascii) : bool :=
  is_digit c || is_char "." c || is_char "-" c.

Section WithRuntime.
Context `{Runtime}.

Definition inferColumnType (value : JsValue) : Res ColumnDataType :=
  if is_empty value then Ok TEXT
  else match value with
  | VNum _ => Ok NUMBER
  | _ =>
    bind (toString value) (fun str =>
      let asString := trim str in
      if (String.length asString =? 0)%nat then Ok TEXT
      else
        let lower := toLowerCase asString in
        if includes ["true"; "false"; "yes"; "no"; "1"; "0"] lower then Ok BOOLEAN
        else
          let numeric := parseFloat (filter_chars numeric_char asString) in
          if negb (isNaN numeric) &&
             matches_numeric (filter_chars (fun c => negb (is_char "," c)) asString)
          then Ok NUMBER
          else
            let date := dateParse asString in
            if is_Some_b date && contains_date_pattern asString then Ok DATE
            else Ok TEXT)
  end.

Definition coerceValue (value : JsValue) (targetType : ColumnDataType) : Res JsValue :=
  if is_empty value then Ok VNull
  else
    try_catch
      (match targetType with
       | NUMBER =>
           bind (match value with
                 | VNum n => Ok n
                 | _ => bind (toString value) (fun str =>
                          Ok (parseFloat (filter_chars numeric_char str)))
                 end)
                (fun num => Ok (VNum (if isNaN num then Finite 0 else num)))
       | DATE =>
           bind (match value with
                 | VDate t => Ok t
                 | _ => bind (toString value) (fun str => Ok (dateParse str))
                 end)
                (fun date =>
                   match date with
                   | None => Ok VNull
                   | Some t => Ok (VDate (Some t))
                   end)
       | BOOLEAN =>
           bind (toString value) (fun str =>
             let lower := toLowerCase (trim str) in
             Ok (VNum (Finite (if includes ["true"; "1"; "yes"] lower then 1 else 0))))
       | TEXT =>
           bind (toString value) (fun str => Ok (VStr (trim str)))
       end)
      VNull.


End WithRuntime.

Definition mysqlColumnType (columnType : ColumnDataType) : string :=
  match columnType with
  | NUMBER => "DECIMAL(20,6) NULL"
  | DATE => "DATETIME NULL"
  | BOOLEAN => "TINYINT(1) NULL"
  | TEXT => "TEXT NULL"
  end.

End TypeCoercion.

(* ===================================================================== *)
(** * utils/hash.ts                                                      *)
(* ===================================================================== *)

Module Hash.
Import Js.

Definition hex_digit (n : N) : ascii :=
  if (n <? 10)%N then ascii_of_N (48 + n) else ascii_of_N (87 + n).

Definition dquote : ascii := ascii_of_N 34.
Definition backslash : ascii := ascii_of_N 92.

(** One code unit inside a JSON string literal. *)
Definition escape_char (c : ascii) : string :=
  if is_char dquote c then String backslash (String dquote "")
  else if is_char backslash c then String backslash (String backslash "")
  else if (code c =? 8)%N then String backslash "b"
  else if (code c =? 9)%N then String backslash "t"
  else if (code c =? 10)%N then String backslash "n"
  else if (code c =? 12)%N then String backslash "f"
  else if (code c =? 13)%N then String backslash "r"
  else if (code c <? 32)%N then
    String backslash
      ("u00" ++ String (hex_digit (code c / 16)) (String (hex_digit (code c mod 16)) ""))
  else String c "".

Fixpoint escape (s : string) : string :=
  match s with
  | EmptyString => EmptyString
  | String c s' => escape_char c ++ escape s'
  end.

(** The text of [join sep] before and after one of the elements. *)
Fixpoint before (sep : string) (l : list string) : string :=
  match l with
  | [] => ""
  | e :: rest => e ++ sep ++ before sep rest
  end.

Fixpoint after (sep : string) (l : list string) : string :=
  match l with
  | [] => ""
  | e :: rest => sep ++ e ++ after sep rest
  end.

(** QuoteJSONString *)
Definition quote (s : string) : string :=
  String dquote (escape s ++ String dquote "").

Section WithRuntime.
Context `{Runtime}.

(** The members of an object: for each name of the property list, in
    that order, the member text when the object has the property and
    its value serialises. *)
Fixpoint members (K : list string) (serialised : list (string * option string))
    : list string :=
  match K with
  | [] => []
  | P :: rest =>
      match get_field P serialised with
      | Some (Some str) => (quote P ++ ":" ++ str) :: members rest serialised
      | _ => members rest serialised
      end
  end.

Definition or_null (o : option string) : string :=
  match o with
  | Some str => str
  | None => "null"
  end.

(** SerializeJSONProperty with a property list [K] (the array passed
    as replacer) and no indentation; [None] is undefined, a value that
    is left out.  The property list applies to every object, also to
    the nested ones.  The values of all own properties are serialised
    first and the property list then selects among them, which gives
    the text the engine builds by reading only the listed ones; a listed
    name that is no own property finds an inherited method at most, which
    serialises to nothing. *)
Fixpoint serialize (K : list string) (v : JsValue) : option string :=
  match v with
  | VUndefined => None
  | VNull => Some "null"
  | VBool true => Some "true"
  | VBool false => Some "false"
  | VNum (Finite q) => Some (numberToString (Finite q))
  | VNum _ => Some "null"
  | VStr s => Some (quote s)
  | VDate None => Some "null"
  | VDate (Some t) => Some (quote (dateToISOString t))
  | VArr items =>
      Some ("[" ++ join "," (map (fun x => or_null (serialize K x)) items) ++ "]")
  | VObj fields =>
      Some ("{" ++
            join "," (members K (map (fun kx : string * JsValue =>
                                        let (k, x) := kx in (k, serialize K x)) fields))
            ++ "}")
  end.

(** [JSON.stringify(obj, K)] for a plain object *)
Definition stringify (fields : list (string * JsValue)) (K : list string) : string :=
  match serialize K (VObj fields) with
  | Some str => str
  | None => "undefined"
  end.

(** [Array.prototype.sort] with no comparator: strings in the order of
    their code units. *)
Definition sort_keys (keys : list string) : list string :=
  merge_sort String.le keys.

(** [Object.keys(obj)] *)
Definition object_keys (fields : list (string * JsValue)) : list string :=
  map fst fields.

Definition computeHash (input : string) : string := sha256hex input.

(** The own properties of an object with their values serialised. *)
Definition serialised (K : list string) (fields : list (string * JsValue))
    : list (string * option string) :=
  map (fun kx : string * JsValue => let (k, x) := kx in (k, serialize K x)) fields.

Definition normalized (rowData : list (string * JsValue)) : string :=
  stringify rowData (sort_keys (object_keys rowData)).

Definition computeRowHash (rowData : list (string * JsValue)) : string :=
  computeHash (normalized rowData).

End WithRuntime.

End Hash.

(* ===================================================================== *)
(** * ARCHITECTURE.md, section 4: last-write-wins arbiter                *)
(* ===================================================================== *)

Module ConflictResolver.
Import Js.

(** [ModifiedBy] of types/index.ts *)
Inductive ModifiedBy : Type := SHEET | DATABASE | SYSTEM.

#[global] Instance ModifiedBy_eq_dec : EqDecision ModifiedBy.
Proof. solve_decision. Defined.

(** The row metadata read by the arbiter; [_last_modified_at] is the time
    value of the stored [Date] ([None] for an invalid date). *)
Record SyncRecord : Type := {
  _sheet_row_number : Z;
  _last_modified_at : option Z;
  _last_modified_by : ModifiedBy
}.

Record SyncPayload : Type := {
  source : ModifiedBy;
  timestamp : string
}.

Inductive Verdict : Type := APPLY | SKIP | CONFLICT.

(** Comparisons of time values: every comparison with NaN is false. *)
Definition lt (a b : option Z) : bool :=
  match a, b with
  | Some x, Some y => (x <? y)%Z
  | _, _ => false
  end.

Definition gt (a b : option Z) : bool := lt b a.

(** [Math.abs(a - b)] *)
Definition abs_diff (a b : option Z) : option Z :=
  match a, b with
  | Some x, Some y => Some (Z.abs (x - y))
  | _, _ => None
  end.

(** Steps on an object of type [SyncRecord]: the result, and the object
    after the step. *)
Definition Step (A : Type) : Type := SyncRecord -> A * SyncRecord.

Definition ret {A} (a : A) : Step A := fun object => (a, object).

Definition read {A} (property : SyncRecord -> A) : Step A :=
  fun object => (property object, object).

Definition and_then {A B} (m : Step A) (k : A -> Step B) : Step B :=
  fun object => let (a, object') := m object in k a object'.

Section WithRuntime.
Context `{Runtime}.
Variable SYNC_COOLDOWN_MS : Z.

Definition resolveConflict (incoming : SyncPayload) (existing : SyncRecord) : Verdict :=
  let incomingTs := dateParse (timestamp incoming) in
  let existingTs := _last_modified_at existing in
  if bool_decide (source incoming = _last_modified_by existing)
     && lt (abs_diff incomingTs existingTs) (Some SYNC_COOLDOWN_MS)
  then SKIP
  else if gt incomingTs existingTs then APPLY
  else if lt incomingTs existingTs
          && negb (bool_decide (source incoming = _last_modified_by existing))
  then CONFLICT
  else SKIP.

(** The difference incoming.timestamp - row.lastModifiedAt of the
    specification; it is undefined when a time value is NaN. *)
Definition delta (incoming : SyncPayload) (existing : SyncRecord) : option Z :=
  match dateParse (timestamp incoming), _last_modified_at existing with
  | Some a, Some b => Some (a - b)
  | _, _ => None
  end.

(** The echo guard of the source: same origin, and the two time values
    less than the cooldown apart. *)
Definition inside_cooldown (incoming : SyncPayload) (existing : SyncRecord) : Prop :=
  source incoming = _last_modified_by existing /\
  exists d, delta incoming existing = Some d /\ Z.abs d < SYNC_COOLDOWN_MS.

(** The call as a step on the row object it is given: a step returns
    its result and the object as it leaves it.  The body of
    [resolveConflict] reads the properties _last_modified_at and
    _last_modified_by of the row, the second once more in its last test,
    and assigns none. *)
Definition resolveConflict_call (incoming : SyncPayload) : Step Verdict :=
  let incomingTs := dateParse (timestamp incoming) in
  and_then (read _last_modified_at) (fun existingTs =>
  and_then (read _last_modified_by) (fun modifiedBy =>
    if bool_decide (source incoming = modifiedBy)
       && lt (abs_diff incomingTs existingTs) (Some SYNC_COOLDOWN_MS)
    then ret SKIP
    else if gt incomingTs existingTs then ret APPLY
    else if lt incomingTs existingTs
    then and_then (read _last_modified_by) (fun modifiedBy' =>
           if negb (bool_decide (source incoming = modifiedBy'))
           then ret CONFLICT else ret SKIP)
    else ret SKIP)).

(** The decision as the specification words it, for comparison with
    [resolveConflict].  The echo guard looks at the time [now] at which
    the change arrives: incoming.origin = row.lastModifiedBy and now -
    row.lastModifiedAt < cooldownWindow give SKIP.  Otherwise the arbiter
    compares the two time values: APPLY when the difference is positive,
    CONFLICT when it is negative and the origins differ, SKIP in the
    other cases (also when a time value is not a number, which the
    specification leaves open). *)
Definition decision_spec (now : Z) (incoming : SyncPayload) (existing : SyncRecord)
    : Verdict :=
  if bool_decide (source incoming = _last_modified_by existing)
     && match _last_modified_at existing with
        | Some t => (now - t <? SYNC_COOLDOWN_MS)%Z
        | None => false
        end
  then SKIP
  else
    match delta incoming existing with
    | Some d =>
        if (0 <? d)%Z then APPLY
        else if (d <? 0)%Z && negb (bool_decide (source incoming = _last_modified_by existing))
        then CONFLICT
        else SKIP
    | None => SKIP
    end.

End WithRuntime.

End ConflictResolver.

(* ===================================================================== *)
(** * sql/init/001_init_schema.sql: the comparison of text               *)
(* ===================================================================== *)

Module Sql.

(** The tables of the schema are declared COLLATE=utf8mb4_unicode_ci: in
    a WHERE clause and in a unique key the database compares the values
    of their character columns with that collation, which does not tell
    apart the two cases of a letter, a letter and its accented forms, or
    a text and the same text followed by spaces.  The comparison is a
    parameter of the development: an equivalence on strings. *)
Class Collation : Type := {
  same_text : string -> string -> bool;
  same_text_refl : forall a, same_text a a = true;
  same_text_sym : forall a b, same_text a b = true -> same_text b a = true;
  same_text_trans : forall a b c,
    same_text a b = true -> same_text b c = true -> same_text a c = true
}.

End Sql.

(* ===================================================================== *)
(** * services/SchemaManager.ts                                          *)
(* ===================================================================== *)

Module SchemaManager.
Import Js TypeCoercion Sql.

(** [`col_${columnIndex}`].  The column index is an integer, the position
    of a column in the sheet, printed in decimal notation as the engine
    prints the integers it represents exactly (below 2^53); the registry
    stores it in a column of type INT. *)
Definition defaultColumnHeader (columnIndex : Z) : string :=
  "col_" ++ string_of_Z columnIndex.

Definition defaultMysqlColumnName (columnIndex : Z) : string :=
  substring 0 64 ("col_" ++ string_of_Z columnIndex).

#[global] Instance ColumnDataType_eq_dec : EqDecision ColumnDataType.
Proof. solve_decision. Defined.

(** A row of the table sync_schema_registry, without its primary key. *)
Record RegistryRow : Type := {
  sheet_id : string;
  sheet_name : string;
  column_index : Z;
  column_header : string;
  mysql_column_name : string;
  data_type : ColumnDataType;
  is_deprecated : bool;
  created_at : Z;
  updated_at : Z
}.

(** The table: rows by primary key [id], and the AUTO_INCREMENT counter. *)
Record Registry : Type := {
  rows : gmap Z RegistryRow;
  auto_increment : Z
}.

(** [SchemaColumn] of types/index.ts: what the SELECT returns. *)
Record SchemaColumn : Type := {
  id : Z;
  sheetId : string;
  sheetName : string;
  columnIndex : Z;
  columnHeader : string;
  mysqlColumnName : string;
  dataType : ColumnDataType;
  createdAt : Z;
  updatedAt : Z;
  isDeprecated : bool
}.

Definition as_column (k : Z) (r : RegistryRow) : SchemaColumn :=
  {| id := k; sheetId := sheet_id r; sheetName := sheet_name r;
     columnIndex := column_index r; columnHeader := column_header r;
     mysqlColumnName := mysql_column_name r; dataType := data_type r;
     createdAt := created_at r; updatedAt := updated_at r;
     isDeprecated := is_deprecated r |}.

Section WithCollation.
Context {collation : Collation}.

(** The WHERE clause of the two SELECTs, which is also the test of the
    unique key idx_sheet_column: sheet_id and sheet_name are compared by
    the collation of the table, column_index as a number. *)
Definition key_matches (sid sname : string) (cidx : Z) (kr : Z * RegistryRow) : bool :=
  same_text (sheet_id kr.2) sid && same_text (sheet_name kr.2) sname
  && (column_index kr.2 =? cidx)%Z.

(** SELECT ... WHERE sheet_id = :sheetId AND sheet_name = :sheetName AND
    column_index = :columnIndex LIMIT 1 *)
Definition select_mapping (sid sname : string) (cidx : Z) (reg : Registry)
    : list SchemaColumn :=
  match List.find (key_matches sid sname cidx) (map_to_list (rows reg)) with
  | Some (k, r) => [as_column k r]
  | None => []
  end.

(** The row [r] after a change of its type at time [now]: updated_at is
    declared ON UPDATE CURRENT_TIMESTAMP. *)
Definition with_type (now : Z) (t : ColumnDataType) (r : RegistryRow) : RegistryRow :=
  {| sheet_id := sheet_id r; sheet_name := sheet_name r;
     column_index := column_index r; column_header := column_header r;
     mysql_column_name := mysql_column_name r; data_type := t;
     is_deprecated := is_deprecated r; created_at := created_at r;
     updated_at := now |}.

(** UPDATE sync_schema_registry SET data_type = :dataType WHERE id = :id;
    a row that already has the value is not touched. *)
Definition update_data_type (now : Z) (k : Z) (t : ColumnDataType) (reg : Registry)
    : Registry :=
  {| rows := alter (fun r => if decide (data_type r = t) then r else with_type now t r)
                   k (rows reg);
     auto_increment := auto_increment reg |}.

(** INSERT INTO sync_schema_registry (...), when the database executes
    it on values that fit the columns (an integer index in the range of
    INT, texts of at most 255 characters): the row gets the next
    AUTO_INCREMENT id; a row that repeats the unique key (sheet_id,
    sheet_name, column_index) or the primary key is refused. *)
Definition insert_mapping (now : Z) (sid sname : string) (cidx : Z)
    (header name : string) (t : ColumnDataType) (reg : Registry) : Res unit * Registry :=
  if (match List.find (key_matches sid sname cidx) (map_to_list (rows reg)) with
      | Some _ => true | None => false end)
     || is_Some_b (rows reg !! auto_increment reg)
  then (Throw "ER_DUP_ENTRY", reg)
  else (Ok tt,
        {| rows := <[auto_increment reg :=
                     {| sheet_id := sid; sheet_name := sname; column_index := cidx;
                        column_header := header; mysql_column_name := name;
                        data_type := t; is_deprecated := false;
                        created_at := now; updated_at := now |}]> (rows reg);
           auto_increment := auto_increment reg + 1 |}).

Definition ensureColumnMapping (now : Z) (sheetId sheetName : string) (columnIndex : Z)
    (dataType : ColumnDataType) (reg : Registry) : Res SchemaColumn * Registry :=
  match select_mapping sheetId sheetName columnIndex reg with
  | row :: _ =>
      if negb (bool_decide (SchemaManager.dataType row = dataType))
         && bool_decide (SchemaManager.dataType row = TEXT)
      then
        (Ok {| id := id row; sheetId := SchemaManager.sheetId row;
               sheetName := SchemaManager.sheetName row;
               columnIndex := SchemaManager.columnIndex row;
               columnHeader := columnHeader row;
               mysqlColumnName := mysqlColumnName row; dataType := dataType;
               createdAt := createdAt row; updatedAt := updatedAt row;
               isDeprecated := isDeprecated row |},
         update_data_type now (id row) dataType reg)
      else (Ok row, reg)
  | [] =>
      let columnHeader := defaultColumnHeader columnIndex in
      let mysqlColumnName :=
        ColumnUtils.sanitizeIdentifier (defaultMysqlColumnName columnIndex) in
      match insert_mapping now sheetId sheetName columnIndex columnHeader
              mysqlColumnName dataType reg with
      | (Throw e, reg') => (Throw e, reg')
      | (Ok _, reg') =>
          match select_mapping sheetId sheetName columnIndex reg' with
          | inserted :: _ => (Ok inserted, reg')
          | [] => (Throw "Failed to read inserted schema registry row", reg')
          end
      end
  end.

(** A call of [ensureColumnMapping] and a run of calls, one after the
    other, on the registry. *)
Record Call : Type := {
  call_now : Z;
  call_sheetId : string;
  call_sheetName : string;
  call_columnIndex : Z;
  call_dataType : ColumnDataType
}.

Definition run_call (c : Call) (reg : Registry) : Registry :=
  (ensureColumnMapping (call_now c) (call_sheetId c) (call_sheetName c)
     (call_columnIndex c) (call_dataType c) reg).2.

Definition run_calls (cs : list Call) (reg : Registry) : Registry :=
  fold_left (fun g c => run_call c g) cs reg.

End WithCollation.

(** The rule of the specification for the canonical names of the headers
    of a table, for comparison with the names [ensureColumnMapping]
    generates: the sanitised header, and when that name is already used
    in the table, the name followed by _1, _2, ..., the first that is
    free.  [used] are the names in use in the table. *)
Definition numbered (base : string) (n : Z) : string :=
  base ++ "_" ++ string_of_Z n.

Fixpoint first_free (used : list string) (base : string) (n : Z) (fuel : nat) : string :=
  match fuel with
  | O => numbered base n
  | S fuel' =>
      if includes used (numbered base n) then first_free used base (n + 1) fuel'
      else numbered base n
  end.

Definition canonical_name_spec (used : list string) (header : string) : string :=
  let base := ColumnUtils.sanitizeIdentifier header in
  if includes used base then first_free used base 1 (length used) else base.

Fixpoint canonical_names_spec (used : list string) (headers : list string) : list string :=
  match headers with
  | [] => []
  | header :: rest =>
      let name := canonical_name_spec used header in
      name :: canonical_names_spec (name :: used) rest
  end.

End SchemaManager.

(* ===================================================================== *)
(** * queues/sheetToDbQueue.ts, queues/dbToSheetQueue.ts and the worker
      options of queues/workers/dbToSheetWorker.ts                       *)
(* ===================================================================== *)

Module Queues.

Inductive BackoffType : Type := fixed | exponential.

Record BackoffOptions : Type := {
  type : BackoffType;
  delay : Z
}.

(** [removeOnComplete] / [removeOnFail]: how many finished jobs are kept
    (a bare number is a count) and for how long (seconds). *)
Record KeepJobs : Type := {
  count : option Z;
  age : option Z
}.

Record DefaultJobOptions : Type := {
  attempts : Z;
  backoff : BackoffOptions;
  removeOnComplete : KeepJobs;
  removeOnFail : KeepJobs
}.

Record QueueOptions : Type := {
  name : string;
  defaultJobOptions : DefaultJobOptions
}.

(** [getSheetToDbQueue] *)
Definition sheetToDbQueue : QueueOptions :=
  {| name := "sheet-to-db";
     defaultJobOptions :=
       {| attempts := 3;
          backoff := {| type := exponential; delay := 2000 |};
          removeOnComplete := {| count := Some 1000; age := None |};
          removeOnFail := {| count := Some 2000; age := None |} |} |}.

(** [getDbToSheetQueue] *)
Definition dbToSheetQueue : QueueOptions :=
  {| name := "db-to-sheet";
     defaultJobOptions :=
       {| attempts := 3;
          backoff := {| type := exponential; delay := 2000 |};
          removeOnComplete := {| count := Some 1000; age := Some (24 * 60 * 60) |};
          removeOnFail := {| count := Some 500; age := None |} |} |}.

Record RateLimiterOptions : Type := {
  max : Z;
  duration : Z
}.

Record WorkerOptions : Type := {
  queueName : string;
  concurrency : Z;
  limiter : RateLimiterOptions
}.

(** [startDbToSheetWorker] *)
Definition dbToSheetWorker : WorkerOptions :=
  {| queueName := "db-to-sheet";
     concurrency := 5;
     limiter := {| max := 50; duration := 60000 |} |}.

(** ** The queue library

    BullMQ is a dependency, not part of the repository.  What follows is
    its documented behaviour for the options above: [attempts] is the
    total number of tries of a job, the built-in exponential backoff waits
    [2 ^ (attemptsMade - 1) * delay] milliseconds after the attempt number
    [attemptsMade] has failed, a job that has used all its attempts moves
    to the failed set, and [removeOnFail] with a count keeps only that
    many of the most recent failed jobs. *)
Definition backoff_delay (b : BackoffOptions) (attemptsMade : Z) : Z :=
  match type b with
  | fixed => delay b
  | exponential => 2 ^ (attemptsMade - 1) * delay b
  end.

Inductive JobState : Type :=
| Completed
| Failed.

(** One job run to its end.  [succeeds k] tells whether attempt number
    [k] succeeds; [fuel] is the number of attempts left.  The result is
    the final state, the number of attempts made and the waits between
    them. *)
Fixpoint run_attempts (opts : DefaultJobOptions) (succeeds : Z -> bool)
    (fuel : nat) (attemptsMade : Z) (waits : list Z) : JobState * Z * list Z :=
  match fuel with
  | O => (Failed, attemptsMade, waits)
  | S fuel' =>
      let k := attemptsMade + 1 in
      if succeeds k then (Completed, k, waits)
      else if (k <? attempts opts)%Z
      then run_attempts opts succeeds fuel' k (waits ++ [backoff_delay (backoff opts) k])
      else (Failed, k, waits)
  end.

Definition run_job (opts : DefaultJobOptions) (succeeds : Z -> bool)
    : JobState * Z * list Z :=
  run_attempts opts succeeds (Z.to_nat (attempts opts)) 0 [].

(** The waits a job goes through when every attempt fails. *)
Definition retry_schedule (opts : DefaultJobOptions) : list Z :=
  (run_job opts (fun _ => false)).2.

(** The failed set, most recent first, after one more job has failed. *)
Definition move_to_failed {J : Type} (opts : DefaultJobOptions) (job : J)
    (failed : list J) : list J :=
  match count (removeOnFail opts) with
  | Some c => take (Z.to_nat c) (job :: failed)
  | None => job :: failed
  end.

(** The consumer of a worker: jobs wait in order; the worker takes the
    next one while fewer than [concurrency] are being processed; a job
    being processed may finish at any time. *)
Record Pool (J : Type) : Type := {
  waiting : list J;
  active : list J
}.
Arguments waiting {J} _.
Arguments active {J} _.

Inductive pool_step {J : Type} (w : WorkerOptions) : Pool J -> Pool J -> Prop :=
| step_add (p : Pool J) (j : J) :
    pool_step w p {| waiting := waiting p ++ [j]; active := active p |}
| step_start (j : J) (rest act : list J) :
    (Z.of_nat (length act) < concurrency w)%Z ->
    pool_step w {| waiting := j :: rest; active := act |}
                {| waiting := rest; active := act ++ [j] |}
| step_finish (wt before after : list J) (j : J) :
    pool_step w {| waiting := wt; active := before ++ j :: after |}
                {| waiting := wt; active := before ++ after |}.

Inductive pool_reachable {J : Type} (w : WorkerOptions) : Pool J -> Prop :=
| reach_init : pool_reachable w {| waiting := []; active := [] |}
| reach_step (p q : Pool J) :
    pool_reachable w p -> pool_step w p q -> pool_reachable w q.

(** The failed set after the jobs of a list have failed for good, one
    after the other. *)
Definition fail_all {J : Type} (opts : DefaultJobOptions) (jobs : list J) : list J :=
  fold_left (fun failed j => move_to_failed opts j failed) jobs [].

(** The waits the architecture notes give for the retries (5 s, 10 s,
    20 s), in milliseconds. *)
Definition documented_waits : list Z := [5000; 10000; 20000].

End Queues.

(* ===================================================================== *)
(** * queues/workers/dbToSheetWorker.ts: processJob                      *)
(* ===================================================================== *)

Module DbToSheetWorker.
Import Js ConflictResolver.

(** [SyncStatus] of types/index.ts *)
Inductive SyncStatus : Type := SYNCED | PENDING | CONFLICT | ERROR.

(** [DbToSheetJobData] of queues/dbToSheetQueue.ts; [rowId] is the decimal
    text of the primary key, kept here as the key itself. *)
Record DbToSheetJobData : Type := {
  tableName : string;
  sheetId : string;
  sheetName : string;
  rowId : Z;
  row : Z;
  values : list (string * JsValue);
  columnMapping : list (string * string);
  timestamp : string
}.

(** The metadata columns of a synced table (ensureBaseTable). *)
Record SyncedRow : Type := {
  _sheet_row_number : Z;
  _row_hash : option string;
  _last_modified_at : Z;
  _last_modified_by : ModifiedBy;
  _sync_status : SyncStatus;
  _synced_at : option Z
}.

Record AuditEntry : Type := {
  operation_type : string;
  details : string;
  created_at : Z
}.

(** A write delivered to the spreadsheet. *)
Record SheetUpdate : Type := {
  spreadsheetId : string;
  upd_sheetName : string;
  upd_row : Z;
  upd_values : list (string * JsValue);
  upd_columnMapping : list (string * string)
}.

(** The database (the synced tables by name, rows by _sync_row_id, and
    the audit log) and the spreadsheet side. *)
Record World : Type := {
  tables : gmap string (gmap Z SyncedRow);
  sync_audit_log : list AuditEntry;
  sheet_writes : list SheetUpdate
}.

(** What the collaborators answer during one run of the job: whether the
    Sheets API accepts the write, and whether the audit INSERT goes
    through. *)
Record Answers : Type := {
  updateSheetRow_error : option string;
  audit_insert_error : option string
}.

(** [googleSheetsService.updateSheetRow]: the write is delivered, or the
    call throws. *)
Definition updateSheetRow (ans : Answers) (u : SheetUpdate) (w : World) : Res unit * World :=
  match updateSheetRow_error ans with
  | Some e => (Throw e, w)
  | None => (Ok tt, {| tables := tables w; sync_audit_log := sync_audit_log w;
                       sheet_writes := sheet_writes w ++ [u] |})
  end.

(** UPDATE `tableName` SET ... WHERE _sync_row_id = ?, when the database
    executes it: an unknown table is an error, an unknown row changes
    nothing.  [execute_update] below adds the case of a statement that
    the database rejects. *)
Definition update_row (tbl : string) (k : Z) (f : SyncedRow -> SyncedRow) (w : World)
    : Res unit * World :=
  match tables w !! tbl with
  | None => (Throw "ER_NO_SUCH_TABLE", w)
  | Some t => (Ok tt, {| tables := <[tbl := alter f k t]> (tables w);
                         sync_audit_log := sync_audit_log w;
                         sheet_writes := sheet_writes w |})
  end.

Definition mark_synced (now : Z) (r : SyncedRow) : SyncedRow :=
  {| _sheet_row_number := _sheet_row_number r; _row_hash := _row_hash r;
     _last_modified_at := _last_modified_at r; _last_modified_by := _last_modified_by r;
     _sync_status := SYNCED; _synced_at := Some now |}.

Definition mark_error (r : SyncedRow) : SyncedRow :=
  {| _sheet_row_number := _sheet_row_number r; _row_hash := _row_hash r;
     _last_modified_at := _last_modified_at r; _last_modified_by := _last_modified_by r;
     _sync_status := ERROR; _synced_at := _synced_at r |}.

(** INSERT INTO sync_audit_log (operation_type, details, created_at) *)
Definition insert_audit (ans : Answers) (now : Z) (text : string) (w : World)
    : Res unit * World :=
  match audit_insert_error ans with
  | Some e => (Throw e, w)
  | None => (Ok tt, {| tables := tables w;
                       sync_audit_log := sync_audit_log w ++
                         [{| operation_type := "DB_TO_SHEET"; details := text;
                             created_at := now |}];
                       sheet_writes := sheet_writes w |})
  end.

(** The write that a job asks of the Sheets API. *)
Definition write_of (job : DbToSheetJobData) : SheetUpdate :=
  {| spreadsheetId := sheetId job; upd_sheetName := sheetName job;
     upd_row := row job; upd_values := values job;
     upd_columnMapping := columnMapping job |}.

(** [JSON.stringify({ message: `Row ${row} synced to ${sheetName}`, rowId,
    sheetId })], the details of the audit entry; [row] is the number of a
    row of the sheet, an integer printed in decimal. *)
Definition audit_details (job : DbToSheetJobData) : string :=
  "{" ++ Hash.quote "message" ++ ":"
      ++ Hash.quote ("Row " ++ string_of_Z (row job) ++ " synced to " ++ sheetName job)
      ++ "," ++ Hash.quote "rowId" ++ ":" ++ Hash.quote (string_of_Z (rowId job))
      ++ "," ++ Hash.quote "sheetId" ++ ":" ++ Hash.quote (sheetId job) ++ "}".

(** The body of the try block, when the database executes the UPDATE
    (which then fails only for a table that does not exist). *)
Definition try_block (ans : Answers) (now : Z) (job : DbToSheetJobData) (w : World)
    : Res unit * World :=
  match updateSheetRow ans (write_of job) w with
  | (Throw e, w1) => (Throw e, w1)
  | (Ok _, w1) =>
      match update_row (tableName job) (rowId job) (mark_synced now) w1 with
      | (Throw e, w2) => (Throw e, w2)
      | (Ok _, w2) => insert_audit ans now (audit_details job) w2
      end
  end.

(** [processJob], when the database executes its two UPDATE statements:
    the catch block marks the row and throws the error it caught again;
    an error of its own UPDATE replaces it. *)
Definition processJob (ans : Answers) (now : Z) (job : DbToSheetJobData) (w : World)
    : Res unit * World :=
  match try_block ans now job w with
  | (Ok u, w') => (Ok u, w')
  | (Throw error, w') =>
      match update_row (tableName job) (rowId job) mark_error w' with
      | (Throw e2, w'') => (Throw e2, w'')
      | (Ok _, w'') => (Throw error, w'')
      end
  end.

(** The row of a table, when the table and the row exist. *)
Definition row_of (w : World) (tbl : string) (k : Z) : option SyncedRow :=
  tables w !! tbl ≫= fun t => t !! k.

(** ** [processJob] on a database that may reject a statement

    Each of the three [await db.execute(...)] of [processJob] can reject.
    [Answers] tells it of the audit INSERT; [UpdateAnswers] tells it of
    the two UPDATE statements: the error with which the database rejects
    the UPDATE of the try block and the one of the catch block without
    executing it (a lost connection, a deadlock, a lock wait that timed
    out), [None] when it executes the statement. *)
Record UpdateAnswers : Type := {
  mark_synced_error : option string;
  mark_error_error : option string
}.

(** [db.execute] of an UPDATE. *)
Definition execute_update (rejected : option string) (tbl : string) (k : Z)
    (f : SyncedRow -> SyncedRow) (w : World) : Res unit * World :=
  match rejected with
  | Some e => (Throw e, w)
  | None => update_row tbl k f w
  end.

(** The error with which [execute_update] throws; [None] when the
    statement is executed. *)
Definition update_error (rejected : option string) (tbl : string) (w : World)
    : option string :=
  match rejected with
  | Some e => Some e
  | None =>
      match tables w !! tbl with
      | None => Some "ER_NO_SUCH_TABLE"
      | Some _ => None
      end
  end.

Definition try_block_with (upd : UpdateAnswers) (ans : Answers) (now : Z)
    (job : DbToSheetJobData) (w : World) : Res unit * World :=
  match updateSheetRow ans (write_of job) w with
  | (Throw e, w1) => (Throw e, w1)
  | (Ok _, w1) =>
      match execute_update (mark_synced_error upd) (tableName job) (rowId job)
              (mark_synced now) w1 with
      | (Throw e, w2) => (Throw e, w2)
      | (Ok _, w2) => insert_audit ans now (audit_details job) w2
      end
  end.

(** [processJob]: the catch block marks the row and throws the error it
    caught again, unless its own UPDATE throws: that error is then the
    one of the job. *)
Definition processJob_with (upd : UpdateAnswers) (ans : Answers) (now : Z)
    (job : DbToSheetJobData) (w : World) : Res unit * World :=
  match try_block_with upd ans now job w with
  | (Ok u, w') => (Ok u, w')
  | (Throw error, w') =>
      match execute_update (mark_error_error upd) (tableName job) (rowId job)
              mark_error w' with
      | (Throw e2, w'') => (Throw e2, w'')
      | (Ok _, w'') => (Throw error, w'')
      end
  end.

(** The database executes both UPDATE statements. *)
Definition updates_executed : UpdateAnswers :=
  {| mark_synced_error := None; mark_error_error := None |}.

(** The columns of a synced row that [processJob] does not write. *)
Definition same_data (r r' : SyncedRow) : Prop :=
  _sheet_row_number r' = _sheet_row_number r /\ _row_hash r' = _row_hash r /\
  _last_modified_at r' = _last_modified_at r /\
  _last_modified_by r' = _last_modified_by r.

(** What the specification says of a job whose row exists, for
    comparison with [processJob]: after a successful external write the
    row is SYNCED and stamped; after a failed external write the row is
    ERROR and the error of the write is thrown again. *)
Definition marks_as_stated (upd : UpdateAnswers) (ans : Answers) (now : Z)
    (job : DbToSheetJobData) (w : World) : Prop :=
  let result := processJob_with upd ans now job w in
  forall r, row_of w (tableName job) (rowId job) = Some r ->
    exists r', row_of result.2 (tableName job) (rowId job) = Some r' /\
      (updateSheetRow_error ans = None ->
         _sync_status r' = SYNCED /\ _synced_at r' = Some now) /\
      (forall e, updateSheetRow_error ans = Some e ->
         _sync_status r' = ERROR /\ result.1 = Throw e).

End DbToSheetWorker.

(* ===================================================================== *)
(** * The constraints of the table sync_schema_registry                  *)
(* ===================================================================== *)

Module RegistryInvariant.
Import Js ColumnUtils TypeCoercion Sql SchemaManager.

Section WithCollation.
Context {collation : Collation}.

(** UNIQUE KEY idx_sheet_column (sheet_id, sheet_name, column_index): no
    two rows are mappings of the same column of the same tab, as the
    database compares them. *)
Definition unique_keys (reg : Registry) : Prop :=
  forall k1 r1 k2 r2,
    rows reg !! k1 = Some r1 -> rows reg !! k2 = Some r2 ->
    key_matches (sheet_id r1) (sheet_name r1) (column_index r1) (k2, r2) = true ->
    k1 = k2.

(** The comparison of two keys (sheet, tab, column index) by the
    database; [key_matches] and [call_names] are instances of it. *)
Definition same_key (sid sname : string) (i : Z) (sid' sname' : string) (i' : Z) : bool :=
  same_text sid sid' && same_text sname sname' && (i =? i')%Z.

(** id INT AUTO_INCREMENT PRIMARY KEY: the counter is above every id of
    the table. *)
Definition fresh_counter (reg : Registry) : Prop :=
  forall k r, rows reg !! k = Some r -> k < auto_increment reg.

Definition consistent (reg : Registry) : Prop :=
  unique_keys reg /\ fresh_counter reg.

(** The row found for a key: under the unique key it is the only row
    that matches. *)
Definition lookup_key (sid sname : string) (i : Z) (reg : Registry)
    : option (Z * RegistryRow) :=
  List.find (key_matches sid sname i) (map_to_list (rows reg)).

(** The row of a new mapping. *)
Definition new_row (now : Z) (sid sname : string) (i : Z) (t : ColumnDataType)
    : RegistryRow :=
  {| sheet_id := sid; sheet_name := sname; column_index := i;
     column_header := defaultColumnHeader i;
     mysql_column_name := sanitizeIdentifier (defaultMysqlColumnName i);
     data_type := t; is_deprecated := false;
     created_at := now; updated_at := now |}.

(** Two rows that are the same mapping: they differ in data_type and
    updated_at at most. *)
Definition same_mapping (r r' : RegistryRow) : Prop :=
  sheet_id r' = sheet_id r /\ sheet_name r' = sheet_name r /\
  column_index r' = column_index r /\ column_header r' = column_header r /\
  mysql_column_name r' = mysql_column_name r /\
  is_deprecated r' = is_deprecated r /\ created_at r' = created_at r.

(** The type of a mapping after a call that asks for [t]. *)
Definition type_after (current t : ColumnDataType) : ColumnDataType :=
  if negb (bool_decide (current = t)) && bool_decide (current = TEXT) then t else current.




End WithCollation.


End RegistryInvariant.

(* ===================================================================== *)
(** * A DB->Sheet job run by the worker, with its retries                *)
(* ===================================================================== *)

Module DbToSheetDelivery.
Import Js Queues DbToSheetWorker.

(** The worker runs [processJob] as the queue library runs a processor:
    once per attempt, again after an attempt that threw while fewer than
    [attempts] have been made.  [updates k], [answers k] and [clock k]
    are what the database and the collaborators answer and the time
    during attempt number [k]; [fuel] is the number of attempts left. *)
Fixpoint attempt_job (opts : DefaultJobOptions) (updates : Z -> UpdateAnswers)
    (answers : Z -> Answers) (clock : Z -> Z)
    (job : DbToSheetJobData) (fuel : nat) (attemptsMade : Z) (w : World)
    : JobState * Z * World :=
  match fuel with
  | O => (Failed, attemptsMade, w)
  | S fuel' =>
      let k := attemptsMade + 1 in
      match processJob_with (updates k) (answers k) (clock k) job w with
      | (Ok _, w') => (Completed, k, w')
      | (Throw _, w') =>
          if (k <? attempts opts)%Z
          then attempt_job opts updates answers clock job fuel' k w'
          else (Failed, k, w')
      end
  end.

Definition deliver (opts : DefaultJobOptions) (updates : Z -> UpdateAnswers)
    (answers : Z -> Answers) (clock : Z -> Z)
    (job : DbToSheetJobData) (w : World) : JobState * Z * World :=
  attempt_job opts updates answers clock job (Z.to_nat (attempts opts)) 0 w.

(** How many of the attempts [from + 1], ..., [from + n] had their write
    accepted by the Sheets API. *)
Fixpoint writes_accepted (answers : Z -> Answers) (from : Z) (n : nat) : nat :=
  match n with
  | O => O
  | S n' =>
      ((if is_Some_b (updateSheetRow_error (answers (from + 1)%Z)) then 0 else 1)
       + writes_accepted answers (from + 1)%Z n')%nat
  end.

End DbToSheetDelivery.

(* ===================================================================== *)
(** * queues/sheetToDbQueue.ts: the queue and [enqueueSheetToDbJob]      *)
(* ===================================================================== *)

Module SheetToDbQueue.
Import Js Queues.

(** [SheetToDbJobData] of types/index.ts.  The types of the fields are
    erased when the program runs: a field holds the value that was put
    there.  The job id comes from the UUID library and is a string. *)
Record SheetToDbJobData : Type := {
  jobId : string;
  sheetId : JsValue;
  sheetName : JsValue;
  row : JsValue;
  col : JsValue;
  value : JsValue;
  timestamp : JsValue;
  retryCount : Z
}.

(** A job as the queue holds it: its name, its id and its data. *)
Record QueuedJob : Type := {
  job_name : string;
  job_id : string;
  job_data : SheetToDbJobData
}.

(** The variable [queue] of the module, the connections that
    [redis.createConnection] has handed out, and the jobs of the queue
    sheet-to-db in Redis, in the order they were added. *)
Record QueueModule : Type := {
  queue : option QueueOptions;
  connections : nat;
  jobs : list QueuedJob
}.

(** What Redis answers during one call: whether a connection can be
    made, and whether the job can be stored. *)
Record RedisAnswers : Type := {
  createConnection_error : option string;
  add_error : option string
}.

Definition getSheetToDbQueue (redis : RedisAnswers) (m : QueueModule)
    : Res QueueOptions * QueueModule :=
  match queue m with
  | Some q => (Ok q, m)
  | None =>
      match createConnection_error redis with
      | Some e => (Throw e, m)
      | None =>
          (Ok sheetToDbQueue,
           {| queue := Some sheetToDbQueue; connections := S (connections m);
              jobs := jobs m |})
      end
  end.

(** [Queue.add(name, data, { jobId })] of the queue library: the job is
    stored under the given id; when the queue already has a job with that
    id nothing is added. *)
Definition add (redis : RedisAnswers) (name : string) (data : SheetToDbJobData)
    (id : string) (m : QueueModule) : Res unit * QueueModule :=
  match add_error redis with
  | Some e => (Throw e, m)
  | None =>
      if existsb (fun j => String.eqb (job_id j) id) (jobs m) then (Ok tt, m)
      else (Ok tt,
            {| queue := queue m; connections := connections m;
               jobs := jobs m ++ [{| job_name := name; job_id := id; job_data := data |}] |})
  end.

(** [{ ...data, retryCount: 0 }] *)
Definition with_retryCount_0 (data : SheetToDbJobData) : SheetToDbJobData :=
  {| jobId := jobId data; sheetId := sheetId data; sheetName := sheetName data;
     row := row data; col := col data; value := value data;
     timestamp := timestamp data; retryCount := 0 |}.

(** The argument has the type [Omit<SheetToDbJobData, 'retryCount'>]:
    whatever its [retryCount] field holds here is not looked at. *)
Definition enqueueSheetToDbJob (redis : RedisAnswers) (data : SheetToDbJobData)
    (m : QueueModule) : Res unit * QueueModule :=
  match getSheetToDbQueue redis m with
  | (Throw e, m1) => (Throw e, m1)
  | (Ok _, m1) => add redis "cell-change" (with_retryCount_0 data) (jobId data) m1
  end.

(** A run of calls, each with what Redis answers during it. *)
Definition enqueue_all (calls : list (RedisAnswers * SheetToDbJobData)) (m : QueueModule)
    : QueueModule :=
  fold_left (fun m c => (enqueueSheetToDbJob c.1 c.2 m).2) calls m.

(** The module when the program starts. *)
Definition initial : QueueModule :=
  {| queue := None; connections := 0; jobs := [] |}.

(** The invariant of the module of the queue. *)
Definition queue_module_ok (m : QueueModule) : Prop :=
  (queue m = None /\ connections m = 0%nat \/
   queue m = Some sheetToDbQueue /\ connections m = 1%nat) /\
  (forall j, In j (jobs m) ->
     job_name j = "cell-change" /\ retryCount (job_data j) = 0 /\
     jobId (job_data j) = job_id j) /\
  NoDup (map job_id (jobs m)).

End SheetToDbQueue.

(* ===================================================================== *)
(** * api/routes/webhook.ts                                              *)
(* ===================================================================== *)

Module Webhook.
Import Js SheetToDbQueue.








Section WithRuntime.
Context `{Runtime}.



End WithRuntime.

End Webhook.

(* ===================================================================== *)
(** * queues/workers/dbToSheetWorker.ts: starting and stopping           *)
(* ===================================================================== *)

Module WorkerLifecycle.
Import Js Queues.

Inductive LogLevel : Type := error | warn | info | http | debug.

(** The variable [worker] of the module (a worker is known by the number
    of its creation), the workers created so far, the workers that are
    running (created and not closed), and the lines logged. *)
Record WorkerModule : Type := {
  worker : option nat;
  created : nat;
  running : list nat;
  logged : list (LogLevel * string)
}.

(** What the collaborators answer during one call: whether
    [redis.getClient()] hands out the client, and whether
    [worker.close()] goes through. *)
Record Collaborators : Type := {
  getClient_error : option string;
  close_error : option string
}.

Definition log (level : LogLevel) (message : string) (m : WorkerModule) : WorkerModule :=
  {| worker := worker m; created := created m; running := running m;
     logged := logged m ++ [(level, message)] |}.

Definition startDbToSheetWorker (c : Collaborators) (m : WorkerModule)
    : Res unit * WorkerModule :=
  match worker m with
  | Some _ => (Ok tt, log warn "DB to Sheet worker already running" m)
  | None =>
      match getClient_error c with
      | Some e => (Throw e, m)
      | None =>
          (Ok tt,
           log info "DB to Sheet worker started"
             {| worker := Some (created m); created := S (created m);
                running := running m ++ [created m]; logged := logged m |})
      end
  end.

Definition stopDbToSheetWorker (c : Collaborators) (m : WorkerModule)
    : Res unit * WorkerModule :=
  match worker m with
  | None => (Ok tt, m)
  | Some k =>
      let m1 := log info "Stopping DB to Sheet worker..." m in
      match close_error c with
      | Some e => (Throw e, m1)
      | None =>
          (Ok tt,
           log info "DB to Sheet worker stopped"
             {| worker := None; created := created m1;
                running := List.filter (fun j => negb (j =? k)%nat) (running m1);
                logged := logged m1 |})
      end
  end.

Inductive LifecycleCall : Type :=
| start (c : Collaborators)
| stop (c : Collaborators).

Definition run_lifecycle_call (call : LifecycleCall) (m : WorkerModule) : WorkerModule :=
  match call with
  | start c => (startDbToSheetWorker c m).2
  | stop c => (stopDbToSheetWorker c m).2
  end.

Definition run_lifecycle (calls : list LifecycleCall) (m : WorkerModule) : WorkerModule :=
  fold_left (fun m call => run_lifecycle_call call m) calls m.

(** The module when the program starts. *)
Definition not_started : WorkerModule :=
  {| worker := None; created := 0; running := []; logged := [] |}.

(** The workers that run are the one the module holds, if it holds one. *)
Definition one_running (m : WorkerModule) : Prop :=
  running m = match worker m with Some k => [k] | None => [] end.

(** The jobs that the running workers may process at the same time. *)
Definition capacity (m : WorkerModule) : Z :=
  Z.of_nat (length (running m)) * concurrency dbToSheetWorker.

End WorkerLifecycle.

(* ===================================================================== *)
(** * utils/logger.ts: the level and the format of the log               *)
(* ===================================================================== *)

Module Logger.
Import Js.

(** [process.env] *)
Definition Env : Type := gmap string string.

Definition LOG_LEVELS : list string := ["error"; "warn"; "info"; "http"; "debug"].

Definition getLogLevel (env : Env) : string :=
  let level := toLowerCase <$> env !! "LOG_LEVEL" in
  match level with
  | Some l =>
      if negb (String.length l =? 0)%nat && includes LOG_LEVELS l then l
      else if bool_decide (env !! "NODE_ENV" = Some "production") then "info" else "debug"
  | None =>
      if bool_decide (env !! "NODE_ENV" = Some "production") then "info" else "debug"
  end.

(** The formats of the logging library that [getFormat] combines. *)
Inductive Format : Type :=
| colorize
| timestamp (format : string)
| errors (stack : bool)
| devFormat
| json.

Definition getFormat (env : Env) : list Format :=
  let isPretty :=
    bool_decide (env !! "LOG_FORMAT" = Some "pretty") ||
    negb (bool_decide (env !! "NODE_ENV" = Some "production")) in
  if isPretty then
    [colorize; timestamp "YYYY-MM-DD HH:mm:ss"; errors true; devFormat]
  else
    [timestamp "YYYY-MM-DDTHH:mm:ss.SSSZ"; errors true; json].

End Logger.

(* ===================================================================== *)
(** * services/SchemaManager.ts: the registration of a sheet and the
      columns of its table                                               *)
(* ===================================================================== *)

Module SheetTables.
Import Js ColumnUtils TypeCoercion Sql.

(** A row of the table sync_sheets, without its primary key (the program
    never reads it). *)
Record SheetRow : Type := {
  sheet_id : string;
  sheet_name : string;
  mysql_table_name : string;
  sync_enabled : bool;
  created_at : Z;
  updated_at : Z
}.

(** The database: the rows of sync_sheets in the order of their
    insertion, and the tables with their columns in order, each column
    with its definition (what information_schema.COLUMNS lists).  The
    names of tables and columns that the program generates are made of
    lower-case letters, digits and underscores; on these the comparisons
    of the database are the equality of strings. *)
Record Database : Type := {
  sync_sheets : list SheetRow;
  columns : gmap string (list (string * string))
}.

(** What the database answers during one call: whether the statements
    sent with [db.execute] and [db.query] go through, and whether those
    sent with [db.executeDynamicSQL] do. *)
Record DbAnswers : Type := {
  execute_error : option string;
  ddl_error : option string
}.

Section WithCollation.
Context {collation : Collation}.

(** The tests of the unique keys idx_sheet_unique (sheet_id, sheet_name)
    and idx_table_name (mysql_table_name), by the collation of the
    table. *)
Definition same_sheet (sid sname : string) (r : SheetRow) : bool :=
  same_text (sheet_id r) sid && same_text (sheet_name r) sname.

Definition same_table (tname : string) (r : SheetRow) : bool :=
  same_text (mysql_table_name r) tname.

Definition with_table (now : Z) (tname : string) (r : SheetRow) : SheetRow :=
  {| sheet_id := sheet_id r; sheet_name := sheet_name r; mysql_table_name := tname;
     sync_enabled := sync_enabled r; created_at := created_at r; updated_at := now |}.

(** UPDATE mysql_table_name = VALUES(mysql_table_name) on one row: a row
    that has the value already is not changed (updated_at is declared ON
    UPDATE CURRENT_TIMESTAMP). *)
Definition set_table (now : Z) (tname : string) (r : SheetRow) : SheetRow :=
  if String.eqb (mysql_table_name r) tname then r else with_table now tname r.

(** INSERT INTO sync_sheets (sheet_id, sheet_name, mysql_table_name,
    sync_enabled) VALUES (...) ON DUPLICATE KEY UPDATE mysql_table_name =
    VALUES(mysql_table_name).  The new row is checked against the unique
    keys in their order.  When a row repeats (sheet_id, sheet_name), that
    row is given the new table name, which is an error when another row
    has that name; else when a row repeats the table name, that row is
    given the name; with no such row the new row is inserted. *)
Definition upsert_sheet (db : DbAnswers) (now : Z) (sid sname tname : string)
    (rows : list SheetRow) : Res unit * list SheetRow :=
  match execute_error db with
  | Some e => (Throw e, rows)
  | None =>
      if existsb (same_sheet sid sname) rows then
        if existsb (fun r => negb (same_sheet sid sname r) && same_table tname r) rows
        then (Throw "ER_DUP_ENTRY", rows)
        else (Ok tt,
              map (fun r => if same_sheet sid sname r then set_table now tname r else r) rows)
      else if existsb (same_table tname) rows then
        (Ok tt, map (fun r => if same_table tname r then set_table now tname r else r) rows)
      else (Ok tt,
            (rows ++ [{| sheet_id := sid; sheet_name := sname; mysql_table_name := tname;
                         sync_enabled := true; created_at := now; updated_at := now |}])%list)
  end.

(** The columns of CREATE TABLE IF NOT EXISTS in [ensureBaseTable]. *)
Definition base_columns : list (string * string) :=
  [("_sync_row_id", "INT AUTO_INCREMENT PRIMARY KEY");
   ("_sheet_row_number", "INT NOT NULL");
   ("_row_hash", "VARCHAR(64) NULL");
   ("_last_modified_at", "DATETIME NOT NULL");
   ("_last_modified_by", "ENUM('SHEET','DATABASE','SYSTEM') NOT NULL");
   ("_sync_status", "VARCHAR(20) NOT NULL DEFAULT 'PENDING'");
   ("_synced_at", "DATETIME NULL")].

(** CREATE TABLE IF NOT EXISTS: a table that exists is left as it is. *)
Definition ensureBaseTable (db : DbAnswers) (tableName : string)
    (cols : gmap string (list (string * string)))
    : Res unit * gmap string (list (string * string)) :=
  match ddl_error db with
  | Some e => (Throw e, cols)
  | None =>
      match cols !! tableName with
      | Some _ => (Ok tt, cols)
      | None => (Ok tt, <[tableName := base_columns]> cols)
      end
  end.

Definition ensureSheetRegistration (db : DbAnswers) (now : Z) (sheetId sheetName : string)
    (d : Database) : Res string * Database :=
  let tableName := sanitizeTableName sheetId sheetName in
  match upsert_sheet db now sheetId sheetName tableName (sync_sheets d) with
  | (Throw e, rows) => (Throw e, {| sync_sheets := rows; columns := columns d |})
  | (Ok _, rows) =>
      match ensureBaseTable db tableName (columns d) with
      | (Throw e, cols) => (Throw e, {| sync_sheets := rows; columns := cols |})
      | (Ok _, cols) => (Ok tableName, {| sync_sheets := rows; columns := cols |})
      end
  end.

(** UNIQUE KEY idx_sheet_unique (sheet_id, sheet_name) and UNIQUE KEY
    idx_table_name (mysql_table_name), on the rows in their order. *)
Definition no_repeat {A} (same : A -> A -> bool) (l : list A) : Prop :=
  forall i j a b, l !! i = Some a -> l !! j = Some b -> same a b = true -> i = j.

Definition sheets_unique (rows : list SheetRow) : Prop :=
  no_repeat (fun a b => same_sheet (sheet_id a) (sheet_name a) b) rows /\
  no_repeat (fun a b => same_table (mysql_table_name a) b) rows.

(** The rows that the database identifies with a sheet, by the sheet or
    by the name of its table, carry that table name. *)
Definition registered_as (sid sname tname : string) (rows : list SheetRow) : Prop :=
  forall r, In r rows -> same_sheet sid sname r || same_table tname r = true ->
    mysql_table_name r = tname.

End WithCollation.

(** SELECT COUNT( * ) as cnt FROM information_schema.COLUMNS WHERE
    TABLE_SCHEMA = DATABASE() AND TABLE_NAME = :tableName AND COLUMN_NAME
    = :columnName *)
Definition count_columns (tableName columnName : string)
    (cols : gmap string (list (string * string))) : Z :=
  match cols !! tableName with
  | Some l => Z.of_nat (length (List.filter (fun c => String.eqb c.1 columnName) l))
  | None => 0
  end.

(** ALTER TABLE `tableName` ADD COLUMN `columnName` definition *)
Definition add_column (db : DbAnswers) (tableName columnName definition : string)
    (cols : gmap string (list (string * string)))
    : Res unit * gmap string (list (string * string)) :=
  match ddl_error db with
  | Some e => (Throw e, cols)
  | None =>
      match cols !! tableName with
      | None => (Throw "ER_NO_SUCH_TABLE", cols)
      | Some l =>
          if existsb (fun c => String.eqb c.1 columnName) l
          then (Throw "ER_DUP_FIELDNAME", cols)
          else (Ok tt, <[tableName := (l ++ [(columnName, definition)])%list]> cols)
      end
  end.

Definition ensureColumnExistsOnTable (db : DbAnswers) (tableName mysqlColumnName : string)
    (dataType : ColumnDataType) (d : Database) : Res unit * Database :=
  match execute_error db with
  | Some e => (Throw e, d)
  | None =>
      if (0 <? count_columns tableName mysqlColumnName (columns d))%Z then (Ok tt, d)
      else
        match add_column db tableName mysqlColumnName (mysqlColumnType dataType)
                (columns d) with
        | (r, cols) => (r, {| sync_sheets := sync_sheets d; columns := cols |})
        end
  end.

(** Every row carries the table name that [sanitizeTableName] gives its
    sheet, as the rows that [ensureSheetRegistration] inserts do. *)
Definition names_derived (rows : list SheetRow) : Prop :=
  forall r, In r rows -> mysql_table_name r = sanitizeTableName (sheet_id r) (sheet_name r).

End SheetTables.

(* ===================================================================== *)
(** * sql/init/001_init_schema.sql: the event cleanup_old_audit_logs     *)
(* ===================================================================== *)

Module Cleanup.

(** The columns of sync_audit_log and sync_change_log that the event
    reads.  A time is a date and time of the session, in milliseconds;
    the three columns may be NULL ([None]), and [processed] is a BOOLEAN,
    that is a small integer. *)
Record AuditLogRow : Type := {
  audit_id : Z;
  audit_created_at : option Z
}.

Record ChangeLogRow : Type := {
  change_id : Z;
  processed : option Z;
  processed_at : option Z
}.

Record Logs : Type := {
  audit_rows : list AuditLogRow;
  change_rows : list ChangeLogRow
}.

(** DATE_SUB(t, INTERVAL n DAY) *)
Definition DATE_SUB_days (t n : Z) : Z := t - n * 86400000.

(** A comparison with NULL is not true. *)
Definition is_before (a : option Z) (b : Z) : bool :=
  match a with
  | Some t => (t <? b)%Z
  | None => false
  end.

Definition is_TRUE (a : option Z) : bool :=
  match a with
  | Some v => (v =? 1)%Z
  | None => false
  end.

(** The body of the event; [now1] and [now2] are NOW() in its first and
    in its second statement. *)
Definition cleanup_old_audit_logs (now1 now2 : Z) (l : Logs) : Logs :=
  {| audit_rows :=
       List.filter (fun r => negb (is_before (audit_created_at r) (DATE_SUB_days now1 30)))
                   (audit_rows l);
     change_rows :=
       List.filter (fun r => negb (is_TRUE (processed r) &&
                                  is_before (processed_at r) (DATE_SUB_days now2 7)))
                   (change_rows l) |}.

End Cleanup.

(* ===================================================================== *)
(** * Inputs used in the examples                                        *)
(* ===================================================================== *)

Module Samples.
Import Js.

(** A header of 65 characters whose 64th character is an underscore:
    63 times the letter a, then _b. *)
Definition long_header : string :=
  string_of_list_ascii (repeat "a"%char 63) ++ "_b".

(** A runtime to evaluate with: it recognises no date text, prints no
    fraction and hashes with the identity. *)
Definition plain_runtime : Runtime :=
  {| dateParse := fun _ => None;
     dateToString := fun _ => "";
     dateToISOString := fun _ => "";
     fractionToString := fun _ => "";
     sha256hex := fun s => s |}.

(** A runtime whose [Date] parser reads exactly the date-only forms of
    the ISO format (as UTC midnight) and nothing else. *)
Definition leap_year (y : Z) : bool :=
  ((y mod 4 =? 0) && negb (y mod 100 =? 0)) || (y mod 400 =? 0).

Definition days_in_month (y m : Z) : Z :=
  if (m =? 2) then (if leap_year y then 29 else 28)
  else if (m =? 4) || (m =? 6) || (m =? 9) || (m =? 11) then 30 else 31.

(** Days from 1970-01-01 to the given civil date. *)
Definition days_from_civil (y m d : Z) : Z :=
  let y' := if (m <=? 2) then y - 1 else y in
  let era := y' / 400 in
  let yoe := y' - era * 400 in
  let mp := (m + 9) mod 12 in
  let doy := (153 * mp + 2) / 5 + d - 1 in
  let doe := yoe * 365 + yoe / 4 - yoe / 100 + doy in
  era * 146097 + doe - 719468.

Definition civil_time (y m d : Z) : option Z :=
  if (1 <=? m) && (m <=? 12) && (1 <=? d) && (d <=? days_in_month y m)
  then Some (days_from_civil y m d * 86400000)
  else None.

Definition number_at (from len : nat) (s : string) : Z :=
  (read_digits 0 0 (substring from len s)).1.1.

(** YYYY-MM-DD, or the expanded form with a sign and six digits of year. *)
Definition iso_date_only (s : string) : option Z :=
  if date_pattern_at s && (String.length s =? 10)%nat then
    civil_time (number_at 0 4 s) (number_at 5 2 s) (number_at 8 2 s)
  else
    match s with
    | String sign rest =>
        if (is_char "+" sign || is_char "-" sign)
           && all_chars is_digit (substring 0 2 rest)
           && date_pattern_at (substring 2 10 rest)
           && (String.length rest =? 12)%nat
        then
          let y := number_at 0 6 rest in
          if is_char "-" sign && (y =? 0) then None
          else civil_time (if is_char "-" sign then - y else y)
                          (number_at 7 2 rest) (number_at 10 2 rest)
        else None
    | EmptyString => None
    end.

Definition iso_runtime : Runtime :=
  {| dateParse := iso_date_only;
     dateToString := fun _ => "";
     dateToISOString := fun _ => "";
     fractionToString := fun _ => "";
     sha256hex := fun s => s |}.

(** A collation to evaluate with: the comparison that tells all strings
    apart. *)
Definition exact_text : Sql.Collation :=
  {| Sql.same_text := String.eqb;
     Sql.same_text_refl := String.eqb_refl;
     Sql.same_text_sym := fun a b E => eq_trans (String.eqb_sym b a) E;
     Sql.same_text_trans := fun a b c E1 E2 =>
       eq_ind_r (fun x => String.eqb x c = true) E2 (proj1 (String.eqb_eq a b) E1) |}.

#[export] Existing Instance exact_text.

(** A registry with one column of type NUMBER, and the empty registry. *)
Definition number_row : SchemaManager.RegistryRow :=
  {| SchemaManager.sheet_id := "S"; SchemaManager.sheet_name := "Tab";
     SchemaManager.column_index := 0; SchemaManager.column_header := "col_0";
     SchemaManager.mysql_column_name := "col_0";
     SchemaManager.data_type := TypeCoercion.NUMBER;
     SchemaManager.is_deprecated := false;
     SchemaManager.created_at := 10; SchemaManager.updated_at := 10 |}.

Definition number_registry : SchemaManager.Registry :=
  {| SchemaManager.rows := {[ 1 := number_row ]}; SchemaManager.auto_increment := 2 |}.

Definition empty_registry : SchemaManager.Registry :=
  {| SchemaManager.rows := ∅; SchemaManager.auto_increment := 1 |}.

Definition later_calls : list SchemaManager.Call :=
  [ {| SchemaManager.call_now := 20; SchemaManager.call_sheetId := "S";
       SchemaManager.call_sheetName := "Tab"; SchemaManager.call_columnIndex := 0;
       SchemaManager.call_dataType := TypeCoercion.DATE |};
    {| SchemaManager.call_now := 30; SchemaManager.call_sheetId := "S";
       SchemaManager.call_sheetName := "Tab"; SchemaManager.call_columnIndex := 0;
       SchemaManager.call_dataType := TypeCoercion.TEXT |} ].

(** The two rows of the specification's example, and rows that differ
    in one value but not in their JSON text. *)
Definition row_ba : list (string * JsValue) :=
  [("b", VNum (Finite 2)); ("a", VNum (Finite 1))].
Definition row_ab : list (string * JsValue) :=
  [("a", VNum (Finite 1)); ("b", VNum (Finite 2))].

Definition row_nested (n : Z) : list (string * JsValue) :=
  [("a", VObj [("x", VNum (Finite (inject_Z n)))])].

Definition row_with (v : JsValue) : list (string * JsValue) :=
  [("a", v); ("b", VStr "kept")].

(** Two jobs of the DB->Sheet queue for the same spreadsheet. *)
Definition job_for_row (k : Z) : DbToSheetWorker.DbToSheetJobData :=
  {| DbToSheetWorker.tableName := "sheet_s_tab";
     DbToSheetWorker.sheetId := "S";
     DbToSheetWorker.sheetName := "Tab";
     DbToSheetWorker.rowId := k;
     DbToSheetWorker.row := k + 1;
     DbToSheetWorker.values := [("col_0", VStr "v")];
     DbToSheetWorker.columnMapping := [("col_0", "A")];
     DbToSheetWorker.timestamp := "2024-01-15" |}.

Definition pending_row : DbToSheetWorker.SyncedRow :=
  {| DbToSheetWorker._sheet_row_number := 2;
     DbToSheetWorker._row_hash := None;
     DbToSheetWorker._last_modified_at := 100;
     DbToSheetWorker._last_modified_by := ConflictResolver.DATABASE;
     DbToSheetWorker._sync_status := DbToSheetWorker.PENDING;
     DbToSheetWorker._synced_at := None |}.

Definition one_row_world : DbToSheetWorker.World :=
  {| DbToSheetWorker.tables := {[ "sheet_s_tab" := {[ 1 := pending_row ]} ]};
     DbToSheetWorker.sync_audit_log := [];
     DbToSheetWorker.sheet_writes := [] |}.

Definition sheets_down : DbToSheetWorker.Answers :=
  {| DbToSheetWorker.updateSheetRow_error := Some "429 RESOURCE_EXHAUSTED";
     DbToSheetWorker.audit_insert_error := None |}.

Definition all_fine : DbToSheetWorker.Answers :=
  {| DbToSheetWorker.updateSheetRow_error := None;
     DbToSheetWorker.audit_insert_error := None |}.

Definition audit_down : DbToSheetWorker.Answers :=
  {| DbToSheetWorker.updateSheetRow_error := None;
     DbToSheetWorker.audit_insert_error := Some "ER_LOCK_WAIT_TIMEOUT" |}.

(** The database rejects the UPDATE of the catch block; it rejects both
    UPDATE statements. *)
Definition mark_error_rejected : DbToSheetWorker.UpdateAnswers :=
  {| DbToSheetWorker.mark_synced_error := None;
     DbToSheetWorker.mark_error_error := Some "ECONNRESET" |}.

Definition updates_rejected : DbToSheetWorker.UpdateAnswers :=
  {| DbToSheetWorker.mark_synced_error := Some "ECONNREFUSED";
     DbToSheetWorker.mark_error_error := Some "ECONNREFUSED" |}.

End Samples.

(* ===================================================================== *)
(** * Properties of the identifier sanitiser                             *)
(* ===================================================================== *)

Module SanitizeFacts.
Import Js ColumnUtils.

Local Abbreviation underscore := (is_char "_").

Lemma append_String c a b : String c a ++ b = String c (a ++ b).
Proof. reflexivity. Qed.

Lemma append_empty b : EmptyString ++ b = b.
Proof. reflexivity. Qed.

Ltac push_append := rewrite ?append_String, ?append_empty.

Lemma sanitizeIdentifier_unfold input :
  sanitizeIdentifier input = substring 0 64 (prefixed_form input).
Proof. reflexivity. Qed.

Lemma is_char_eq x c : is_char x c = true -> c = x.
Proof.
  unfold is_char, code. intros E. apply N.eqb_eq in E.
  rewrite <- (ascii_N_embedding c), <- (ascii_N_embedding x). now rewrite E.
Qed.

Lemma drop_while_id p s : starts_with p s = false -> drop_while p s = s.
Proof. destruct s as [|c s]; simpl; [reflexivity|]. now intros ->. Qed.

Lemma drop_while_end_id p s : ends_with p s = false -> drop_while_end p s = s.
Proof.
  induction s as [|c s IH]; [reflexivity|].
  destruct s as [|d s].
  - simpl. now intros ->.
  - intros E. change (ends_with p (String c (String d s))) with (ends_with p (String d s)) in E.
    specialize (IH E).
    change (drop_while_end p (String c (String d s)))
      with (match drop_while_end p (String d s) with
            | EmptyString => if p c then EmptyString else String c EmptyString
            | r => String c r
            end).
    now rewrite IH.
Qed.

Lemma all_chars_impl (p q : ascii -> bool) s :
  (forall c, p c = true -> q c = true) -> all_chars p s = true -> all_chars q s = true.
Proof.
  intros Hpq. induction s as [|c s IH]; simpl; [reflexivity|].
  rewrite !andb_true_iff. intros [Hc Hs]. split; auto.
Qed.

Lemma all_chars_starts_with (p q : ascii -> bool) s :
  (forall c, p c = true -> q c = false) -> all_chars p s = true -> starts_with q s = false.
Proof.
  intros Hpq. destruct s as [|c s]; simpl; [reflexivity|].
  rewrite andb_true_iff. intros [Hc _]. auto.
Qed.

Lemma all_chars_ends_with (p q : ascii -> bool) s :
  (forall c, p c = true -> q c = false) -> all_chars p s = true -> ends_with q s = false.
Proof.
  intros Hpq. induction s as [|c s IH]; [reflexivity|].
  simpl all_chars. rewrite andb_true_iff. intros [Hc Hs].
  destruct s as [|d s]; simpl; auto.
Qed.

Lemma ident_char_not_space c : is_ident_char c = true -> is_space c = false.
Proof. destruct c as [[] [] [] [] [] [] [] []]; vm_compute; congruence. Qed.

Lemma ident_char_lower c : is_ident_char c = true -> lower_char c = c.
Proof. destruct c as [[] [] [] [] [] [] [] []]; vm_compute; congruence. Qed.

Lemma trim_ident s : all_chars is_ident_char s = true -> trim s = s.
Proof.
  intros Hs. unfold trim.
  rewrite (drop_while_id is_space s).
  - apply drop_while_end_id. eapply all_chars_ends_with; eauto using ident_char_not_space.
  - eapply all_chars_starts_with; eauto using ident_char_not_space.
Qed.

Lemma toLowerCase_ident s : all_chars is_ident_char s = true -> toLowerCase s = s.
Proof.
  induction s as [|c s IH]; simpl; [reflexivity|].
  rewrite andb_true_iff. intros [Hc Hs]. now rewrite ident_char_lower, IH.
Qed.

Lemma replace_runs_from_none cls rep b s :
  all_chars (fun c => negb (cls c)) s = true -> replace_runs_from cls rep b s = s.
Proof.
  revert b. induction s as [|c s IH]; intros b; simpl; [reflexivity|].
  rewrite andb_true_iff, negb_true_iff. intros [-> Hs]. now rewrite IH.
Qed.

Lemma replace_runs_from_single b s :
  no_double underscore s = true ->
  (b = true -> starts_with underscore s = false) ->
  replace_runs_from (is_char "_") "_" b s = s.
Proof.
  revert b. induction s as [|c s IH]; intros b; simpl; [reflexivity|].
  rewrite andb_true_iff, negb_true_iff. intros [Hc Hs] Hb.
  destruct (is_char "_" c) eqn:Ec.
  - destruct b; [specialize (Hb eq_refl); congruence|].
    apply is_char_eq in Ec as ->. simpl. f_equal. apply IH; [assumption|].
    intros _. simpl in Hc. exact Hc.
  - f_equal. apply IH; [assumption|discriminate].
Qed.

(** A canonical identifier passes through every step but the truncation
    unchanged. *)
Lemma prefixed_form_canonical s : canonical s -> prefixed_form s = s.
Proof.
  intros (Hid & Hdd & Hst & Hen & Hne & Hdg). unfold prefixed_form.
  rewrite (trim_ident s Hid), (toLowerCase_ident s Hid).
  unfold replace_runs.
  rewrite (replace_runs_from_none _ "_" false s).
  2:{ eapply all_chars_impl; [|exact Hid]. intros c Hc. simpl. now rewrite Hc. }
  rewrite (replace_runs_from_single false s Hdd) by discriminate.
  rewrite (drop_while_id _ s Hst), (drop_while_end_id _ s Hen).
  destruct s as [|c s]; [congruence|]. simpl String.length. simpl Nat.eqb. cbv iota.
  now rewrite Hdg.
Qed.

(** ** Every output of the steps before the truncation is canonical *)

Lemma replace_nonident_chars b s :
  all_chars is_ident_char
    (replace_runs_from (fun c => negb (is_ident_char c)) "_" b s) = true.
Proof.
  revert b. induction s as [|c s IH]; intros b; simpl; [reflexivity|].
  destruct (is_ident_char c) eqn:Ec; simpl.
  - now rewrite Ec, IH.
  - destruct b; [apply IH|]. push_append. simpl. apply IH.
Qed.

Lemma replace_underscores_chars p b s :
  p "_"%char = true -> all_chars p s = true ->
  all_chars p (replace_runs_from (is_char "_") "_" b s) = true.
Proof.
  intros Hp. revert b. induction s as [|c s IH]; intros b; simpl; [reflexivity|].
  rewrite andb_true_iff. intros [Hc Hs].
  destruct (is_char "_" c).
  - destruct b; [now apply IH|]. push_append. simpl. now rewrite Hp, IH.
  - simpl. now rewrite Hc, IH.
Qed.

Lemma replace_underscores_single b s :
  no_double underscore (replace_runs_from (is_char "_") "_" b s) = true /\
  (b = true -> starts_with underscore (replace_runs_from (is_char "_") "_" b s) = false).
Proof.
  revert b. induction s as [|c s IH]; intros b; simpl; [now split|].
  destruct (is_char "_" c) eqn:Ec.
  - destruct b; [apply IH|]. push_append.
    destruct (IH true) as [Hnd Hst]. split; [|discriminate].
    simpl. now rewrite (Hst eq_refl), Hnd.
  - destruct (IH false) as [Hnd _]. split.
    + simpl. now rewrite Ec, Hnd.
    + intros _. simpl. exact Ec.
Qed.

Lemma drop_while_suffix p s : exists t, s = t ++ drop_while p s.
Proof.
  induction s as [|c s [t IH]]; simpl; [now exists EmptyString|].
  destruct (p c); [|now exists EmptyString].
  exists (String c t). push_append. now rewrite <- IH.
Qed.

Lemma drop_while_end_prefix p s : exists t, s = drop_while_end p s ++ t.
Proof.
  induction s as [|c s [t IH]]; [now exists EmptyString|].
  change (drop_while_end p (String c s))
    with (match drop_while_end p s with
          | EmptyString => if p c then EmptyString else String c EmptyString
          | r => String c r
          end).
  destruct (drop_while_end p s) as [|d r] eqn:E.
  - destruct (p c).
    + now exists (String c s).
    + exists s. reflexivity.
  - exists t. rewrite IH at 1. reflexivity.
Qed.

Lemma drop_while_starts p s : starts_with p (drop_while p s) = false.
Proof.
  induction s as [|c s IH]; simpl; [reflexivity|].
  destruct (p c) eqn:E; [exact IH|exact E].
Qed.

Lemma drop_while_end_ends p s : ends_with p (drop_while_end p s) = false.
Proof.
  induction s as [|c s IH]; [reflexivity|].
  change (drop_while_end p (String c s))
    with (match drop_while_end p s with
          | EmptyString => if p c then EmptyString else String c EmptyString
          | r => String c r
          end).
  destruct (drop_while_end p s) as [|d r] eqn:E.
  - destruct (p c) eqn:Ec; simpl; [reflexivity|exact Ec].
  - exact IH.
Qed.

Lemma all_chars_append p a b :
  all_chars p (a ++ b) = all_chars p a && all_chars p b.
Proof.
  induction a as [|c a IH]; push_append; simpl; [reflexivity|].
  now rewrite IH, andb_assoc.
Qed.

Lemma no_double_append_l p a b : no_double p (a ++ b) = true -> no_double p a = true.
Proof.
  induction a as [|c a IH]; push_append; simpl; [reflexivity|].
  rewrite !andb_true_iff, !negb_true_iff. intros [Hc Hr]. split; [|auto].
  destruct (p c); [|reflexivity]. simpl in *.
  destruct a as [|d a]; [reflexivity|]. exact Hc.
Qed.

Lemma no_double_append_r p a b : no_double p (a ++ b) = true -> no_double p b = true.
Proof.
  induction a as [|c a IH]; push_append; simpl; [auto|].
  rewrite andb_true_iff. intros [_ Hr]. auto.
Qed.

Lemma starts_with_append_l p a b :
  starts_with p (a ++ b) = false -> starts_with p a = false.
Proof. destruct a; [reflexivity|exact id]. Qed.

Lemma prefixed_form_is_canonical input : canonical (prefixed_form input).
Proof.
  unfold prefixed_form, replace_runs.
  set (s1 := replace_runs_from (fun c => negb (is_ident_char c)) "_" false
               (toLowerCase (trim input))).
  set (s2 := replace_runs_from (is_char "_") "_" false s1).
  assert (H2c : all_chars is_ident_char s2 = true)
    by (apply replace_underscores_chars; [reflexivity|apply replace_nonident_chars]).
  assert (H2d : no_double underscore s2 = true) by apply replace_underscores_single.
  destruct (drop_while_suffix (is_char "_") s2) as [t3 E3].
  set (s3 := drop_while (is_char "_") s2) in *.
  assert (H3c : all_chars is_ident_char s3 = true).
  { rewrite E3, all_chars_append in H2c. now apply andb_true_iff in H2c. }
  assert (H3d : no_double underscore s3 = true)
    by (rewrite E3 in H2d; now apply no_double_append_r in H2d).
  assert (H3s : starts_with underscore s3 = false) by apply drop_while_starts.
  destruct (drop_while_end_prefix (is_char "_") s3) as [t4 E4].
  pose proof (drop_while_end_ends (is_char "_") s3) as H4e.
  set (s4 := drop_while_end (is_char "_") s3) in *.
  assert (H4c : all_chars is_ident_char s4 = true).
  { rewrite E4, all_chars_append in H3c. now apply andb_true_iff in H3c. }
  assert (H4d : no_double underscore s4 = true)
    by (rewrite E4 in H3d; now apply no_double_append_l in H3d).
  assert (H4s : starts_with underscore s4 = false)
    by (rewrite E4 in H3s; now apply starts_with_append_l in H3s).
  assert (Hsafe : canonical (if (String.length s4 =? 0)%nat then "col" else s4)
                  \/ (exists c r, (if (String.length s4 =? 0)%nat then "col" else s4)
                                  = String c r /\ is_digit c = true /\
                                  all_chars is_ident_char (String c r) = true /\
                                  no_double underscore (String c r) = true /\
                                  ends_with underscore (String c r) = false)).
  { destruct s4 as [|c r] eqn:Es4.
    - left. simpl. repeat split; discriminate.
    - simpl String.length. simpl Nat.eqb. cbv iota.
      destruct (is_digit c) eqn:Ec.
      + right. exists c, r. repeat split; assumption.
      + left. repeat split; try assumption; discriminate. }
  destruct Hsafe as [Hcan|(c & r & -> & Hc & Hid & Hnd & Hen)].
  - destruct Hcan as (? & ? & ? & ? & ? & Hdg). rewrite Hdg. repeat split; assumption.
  - simpl starts_with. rewrite Hc. push_append.
    assert (Hus : is_char "_" c = false).
    { destruct c as [[] [] [] [] [] [] [] []]; vm_compute in Hc; try discriminate;
        reflexivity. }
    repeat split; try reflexivity; try discriminate.
    + simpl. simpl in Hid. exact Hid.
    + simpl. rewrite Hus. simpl. simpl in Hnd. rewrite Hus in Hnd. simpl in Hnd. exact Hnd.
    + exact Hen.
Qed.

Lemma substring_all_chars p n s :
  all_chars p s = true -> all_chars p (substring 0 n s) = true.
Proof.
  revert s. induction n as [|n IH]; intros [|c s]; simpl; try reflexivity.
  rewrite !andb_true_iff. intros [Hc Hs]. auto.
Qed.

Lemma substring_short n s : (String.length s <= n)%nat -> substring 0 n s = s.
Proof.
  revert s. induction n as [|n IH]; intros [|c s]; simpl; try reflexivity; try lia.
  intros Hl. f_equal. apply IH. lia.
Qed.

Lemma substring_twice n s : substring 0 n (substring 0 n s) = substring 0 n s.
Proof.
  revert s. induction n as [|n IH]; intros [|c s]; simpl; try reflexivity.
  now rewrite IH.
Qed.

Lemma substring_nonempty n s :
  s <> EmptyString -> substring 0 (S n) s <> EmptyString.
Proof. destruct s; simpl; congruence. Qed.

Lemma length_substring n s : (String.length (substring 0 n s) <= n)%nat.
Proof.
  revert s. induction n as [|n IH]; intros [|c s]; simpl; try lia.
  specialize (IH s). lia.
Qed.

Lemma no_double_substring p n s :
  no_double p s = true -> no_double p (substring 0 n s) = true.
Proof.
  revert s. induction n as [|n IH]; intros [|c s]; simpl; try reflexivity.
  rewrite !andb_true_iff, !negb_true_iff. intros [Hc Hs]. split; [|auto].
  destruct (p c); [|reflexivity]. simpl in *.
  destruct n, s; simpl; try reflexivity. exact Hc.
Qed.

Lemma drop_while_end_first p c r :
  p c = false -> exists r', drop_while_end p (String c r) = String c r'.
Proof.
  intros Hc.
  change (drop_while_end p (String c r))
    with (match drop_while_end p r with
          | EmptyString => if p c then EmptyString else String c EmptyString
          | r0 => String c r0
          end).
  destruct (drop_while_end p r) as [|d r0]; [rewrite Hc|]; eauto.
Qed.

Lemma drop_while_end_length p s :
  (String.length (drop_while_end p s) <= String.length s)%nat.
Proof.
  destruct (drop_while_end_prefix p s) as [t E].
  rewrite E at 2. clear E. generalize (drop_while_end p s). intros a.
  induction a as [|x a IH]; push_append; simpl; lia.
Qed.

(** Sanitising a sanitised identifier does one thing only: it removes the
    underscore the truncation may have left at the end. *)
Lemma sanitizeIdentifier_again input :
  sanitizeIdentifier (sanitizeIdentifier input)
  = drop_while_end (is_char "_") (sanitizeIdentifier input).
Proof.
  rewrite (sanitizeIdentifier_unfold input).
  destruct (prefixed_form_is_canonical input) as (Hid & Hdd & Hst & _ & Hne & Hdg).
  generalize dependent (prefixed_form input). intros p Hid Hdd Hst Hne Hdg.
  destruct p as [|c p]; [congruence|].
  set (y := substring 0 64 (String c p)).
  assert (Hy : exists r, y = String c r) by (now exists (substring 0 63 p)).
  assert (Hyid : all_chars is_ident_char y = true) by now apply substring_all_chars.
  assert (Hydd : no_double underscore y = true) by now apply no_double_substring.
  assert (Hylen : (String.length y <= 64)%nat) by apply length_substring.
  destruct Hy as [r Hy]. simpl in Hst, Hdg.
  rewrite sanitizeIdentifier_unfold. unfold prefixed_form, replace_runs.
  rewrite (trim_ident y Hyid), (toLowerCase_ident y Hyid).
  rewrite (replace_runs_from_none _ "_" false y).
  2:{ eapply all_chars_impl; [|exact Hyid]. intros d Hd. simpl. now rewrite Hd. }
  rewrite (replace_runs_from_single false y Hydd) by discriminate.
  rewrite (drop_while_id _ y) by (rewrite Hy; exact Hst).
  pose proof (drop_while_end_length (is_char "_") y) as Hlen.
  rewrite Hy in *. destruct (drop_while_end_first (is_char "_") c r Hst) as [r' Er].
  rewrite Er in *. simpl String.length in *. simpl Nat.eqb. cbv iota.
  simpl starts_with. rewrite Hdg.
  apply substring_short. simpl. lia.
Qed.

(** Where the cut of the truncation does not fall just after an
    underscore, sanitising twice is sanitising once; where it does, it is
    not. *)
Lemma sanitizeIdentifier_twice input :
  sanitizeIdentifier (sanitizeIdentifier input) = sanitizeIdentifier input
  <-> ends_with underscore (sanitizeIdentifier input) = false.
Proof.
  rewrite sanitizeIdentifier_again. split.
  - intros E. rewrite <- E. apply drop_while_end_ends.
  - apply drop_while_end_id.
Qed.

End SanitizeFacts.

(** ** The names generated for new columns *)

Module ColumnNameFacts.
Import Js ColumnUtils SanitizeFacts SchemaManager.

Lemma digit_ident c : is_digit c = true -> is_ident_char c = true.
Proof. unfold is_ident_char. intros ->. now rewrite orb_true_r. Qed.

Lemma digit_not_underscore c : is_digit c = true -> is_char "_" c = false.
Proof. destruct c as [[] [] [] [] [] [] [] []]; vm_compute; congruence. Qed.

Lemma uint_digits d : all_chars is_digit (NilEmpty.string_of_uint d) = true.
Proof. induction d; simpl; auto. Qed.

Lemma string_of_Z_nonneg z :
  0 <= z -> all_chars is_digit (string_of_Z z) = true /\ string_of_Z z <> EmptyString.
Proof.
  intros Hz. unfold string_of_Z. destruct z as [|p|p]; [| |lia].
  - split; [reflexivity|discriminate].
  - simpl. pose proof (Unsigned.to_uint_nonnil p) as Hn.
    destruct (Pos.to_uint p) eqn:E; try congruence;
      (split; [apply (uint_digits (_ u)) || apply uint_digits | discriminate]).
Qed.

(** col_ followed by digits is canonical. *)
Lemma col_digits_canonical ds :
  all_chars is_digit ds = true -> ds <> EmptyString -> canonical ("col_" ++ ds).
Proof.
  intros Hd Hne. destruct ds as [|d ds]; [congruence|].
  simpl in Hd. apply andb_true_iff in Hd as [Hd Hds].
  repeat split; simpl.
  - rewrite (digit_ident d Hd). simpl.
    eapply all_chars_impl; [|exact Hds]. apply digit_ident.
  - rewrite (digit_not_underscore d Hd). simpl.
    assert (G : forall s, all_chars is_digit s = true -> no_double (is_char "_") s = true).
    { induction s as [|c s IH]; simpl; [reflexivity|].
      rewrite andb_true_iff. intros [Hc Hs].
      now rewrite (digit_not_underscore c Hc), IH. }
    now apply G.
  - change (ends_with (is_char "_") (String d ds) = false).
    eapply (all_chars_ends_with is_digit); [apply digit_not_underscore|].
    simpl. now rewrite Hd.
  - discriminate.
Qed.

(** The default name of a column with a non-negative index is a fixed
    point of the sanitiser. *)
Lemma sanitize_default_name i :
  0 <= i -> sanitizeIdentifier (defaultMysqlColumnName i) = defaultMysqlColumnName i.
Proof.
  intros Hi. destruct (string_of_Z_nonneg i Hi) as [Hd Hne].
  unfold defaultMysqlColumnName.
  change (substring 0 64 ("col_" ++ string_of_Z i))
    with ("col_" ++ substring 0 60 (string_of_Z i)).
  rewrite sanitizeIdentifier_unfold, prefixed_form_canonical.
  - change (substring 0 64 ("col_" ++ substring 0 60 (string_of_Z i)))
      with ("col_" ++ substring 0 60 (substring 0 60 (string_of_Z i))).
    now rewrite substring_twice.
  - apply col_digits_canonical.
    + now apply substring_all_chars.
    + now apply substring_nonempty.
Qed.

End ColumnNameFacts.

(* ===================================================================== *)
(** * Properties of the schema registry                                  *)
(* ===================================================================== *)

Module SchemaFacts.
Import Js ColumnUtils TypeCoercion Sql SchemaManager ColumnNameFacts.

Lemma find_rows_some (f : Z * RegistryRow -> bool) (m : gmap Z RegistryRow) k r :
  List.find f (map_to_list m) = Some (k, r) -> m !! k = Some r /\ f (k, r) = true.
Proof.
  intros E. apply List.find_some in E as [Hin Hf]. split; [|exact Hf].
  apply elem_of_map_to_list. now apply list_elem_of_In.
Qed.

Lemma find_rows_none (f : Z * RegistryRow -> bool) (m : gmap Z RegistryRow) k r :
  List.find f (map_to_list m) = None -> m !! k = Some r -> f (k, r) = false.
Proof.
  intros E Hk. apply (List.find_none _ _ E).
  apply list_elem_of_In. now apply elem_of_map_to_list.
Qed.

Lemma is_Some_b_false {A} (o : option A) : is_Some_b o = false -> o = None.
Proof. now destruct o. Qed.

Section WithCollation.
Context {collation : Collation}.

(** What one call does to a row that is already in the registry: nothing,
    or the change of a TEXT column to the requested type. *)
Lemma ensureColumnMapping_row now sid sname i t reg k r :
  rows reg !! k = Some r ->
  let reg' := (ensureColumnMapping now sid sname i t reg).2 in
  rows reg' !! k = Some r \/
  (data_type r = TEXT /\ t <> TEXT /\ key_matches sid sname i (k, r) = true /\
   rows reg' !! k = Some (with_type now t r)).
Proof.
  intros Hk. unfold ensureColumnMapping, select_mapping.
  destruct (List.find (key_matches sid sname i) (map_to_list (rows reg)))
    as [[k0 r0]|] eqn:Efind.
  - apply find_rows_some in Efind as [Hk0 Hm]. simpl.
    destruct (negb (bool_decide (data_type r0 = t)) && bool_decide (data_type r0 = TEXT))
      eqn:Eup; simpl; [|now left].
    apply andb_true_iff in Eup as [Hne Htxt].
    apply negb_true_iff, bool_decide_eq_false in Hne.
    apply bool_decide_eq_true in Htxt.
    destruct (decide (k = k0)) as [->|Hkk].
    + right. assert (r0 = r) as -> by congruence.
      repeat split; [assumption|congruence|assumption|].
      rewrite lookup_alter_eq, Hk. simpl.
      destruct (decide (data_type r = t)); [contradiction|reflexivity].
    + left. now rewrite lookup_alter_ne.
  - unfold insert_mapping. rewrite Efind. simpl.
    destruct (is_Some_b (rows reg !! auto_increment reg)) eqn:Efresh; simpl; [now left|].
    apply is_Some_b_false in Efresh.
    match goal with
    | |- context [List.find ?f (map_to_list ?m)] =>
        destruct (List.find f (map_to_list m)) as [[k1 r1]|]
    end; simpl; left; rewrite lookup_insert_ne; congruence.
Qed.

Lemma run_call_specific c reg k r :
  rows reg !! k = Some r -> data_type r <> TEXT ->
  rows (run_call c reg) !! k = Some r.
Proof.
  intros Hk Ht. unfold run_call.
  destruct (ensureColumnMapping_row (call_now c) (call_sheetId c) (call_sheetName c)
              (call_columnIndex c) (call_dataType c) reg k r Hk)
    as [H|(Htxt & _)]; [exact H|contradiction].
Qed.

Lemma run_calls_specific cs reg k r :
  rows reg !! k = Some r -> data_type r <> TEXT ->
  rows (run_calls cs reg) !! k = Some r.
Proof.
  revert reg. induction cs as [|c cs IH]; intros reg Hk Ht; [exact Hk|].
  simpl. apply IH; [|exact Ht]. now apply run_call_specific.
Qed.

(** The row a call creates when the column has no mapping yet. *)
Lemma ensureColumnMapping_new now sid sname i t reg col reg' :
  select_mapping sid sname i reg = [] ->
  ensureColumnMapping now sid sname i t reg = (Ok col, reg') ->
  mysqlColumnName col = sanitizeIdentifier (defaultMysqlColumnName i) /\
  columnHeader col = defaultColumnHeader i /\
  dataType col = t /\
  rows reg' !! id col =
    Some {| sheet_id := sid; sheet_name := sname; column_index := i;
            column_header := defaultColumnHeader i;
            mysql_column_name := sanitizeIdentifier (defaultMysqlColumnName i);
            data_type := t; is_deprecated := false;
            created_at := now; updated_at := now |}.
Proof.
  unfold ensureColumnMapping. intros Hsel. rewrite Hsel.
  unfold select_mapping in Hsel.
  destruct (List.find (key_matches sid sname i) (map_to_list (rows reg)))
    as [[k0 r0]|] eqn:Efind; [discriminate|].
  unfold insert_mapping. rewrite Efind. simpl.
  destruct (is_Some_b (rows reg !! auto_increment reg)) eqn:Efresh; simpl; [discriminate|].
  unfold select_mapping. simpl.
  match goal with
  | |- context [List.find ?f (map_to_list ?m)] =>
      destruct (List.find f (map_to_list m)) as [[k1 r1]|] eqn:Efind'
  end; [|discriminate].
  intros [= <- <-]. simpl.
  apply find_rows_some in Efind' as [Hk1 Hm].
  destruct (decide (k1 = auto_increment reg)) as [->|Hne].
  - rewrite lookup_insert_eq in Hk1. injection Hk1 as <-. simpl.
    repeat split. apply lookup_insert_eq.
  - rewrite lookup_insert_ne in Hk1 by congruence.
    now rewrite (find_rows_none _ _ _ _ Efind Hk1) in Hm.
Qed.

End WithCollation.

End SchemaFacts.

(* ===================================================================== *)
(** * The claims about the sanitiser and the schema registry             *)
(* ===================================================================== *)

Module RegistryClaims.
Import Js ColumnUtils TypeCoercion Sql SchemaManager SanitizeFacts ColumnNameFacts SchemaFacts.
Import Samples.

Section WithCollation.
Context {collation : Collation}.

(** C2. Once the data type of a column mapping is anything other than
    TEXT, no later call of [ensureColumnMapping] changes it: after any run
    of calls the row of the mapping is the one it was.  One call changes a
    row that is already in the registry in one way only, the upgrade of a
    TEXT column (the one the call names) to the requested, more specific
    type; with any other mismatch the row stays as it is. *)
Theorem dataType_is_final_once_specific
    (cs : list Call) (now : Z) (sid sname : string) (i : Z) (t : ColumnDataType)
    (reg : Registry) (k : Z) (r : RegistryRow) :
  rows reg !! k = Some r ->
  (data_type r <> TEXT -> rows (run_calls cs reg) !! k = Some r) /\
  (let reg' := (ensureColumnMapping now sid sname i t reg).2 in
   rows reg' !! k = Some r \/
   (data_type r = TEXT /\ t <> TEXT /\ key_matches sid sname i (k, r) = true /\
    rows reg' !! k = Some (with_type now t r))).
Proof.
  intros Hk. split.
  - intros Ht. now apply run_calls_specific.
  - now apply ensureColumnMapping_row.
Qed.

End WithCollation.

Lemma dataType_is_final_once_specific_witness :
  rows number_registry !! 1 = Some number_row /\
  rows (run_calls later_calls number_registry) !! 1 = Some number_row.
Proof.
  assert (H1 : rows number_registry !! 1 = Some number_row) by reflexivity.
  split; [exact H1|].
  apply (dataType_is_final_once_specific later_calls 20 "S" "Tab" 0 DATE
           number_registry 1 number_row H1).
  simpl. discriminate.
Defined.

(** C5 (evaluation at the failing input).  For the header made of 63
    letters a followed by _b, the truncation to 64 characters cuts after
    the underscore, so the result ends in an underscore; sanitising that
    result removes it: one more application changes the value.  This is
    the only way for the two to differ: sanitising a sanitised value
    removes a trailing underscore and does nothing else, so the two are
    equal exactly when the sanitised value does not end in an underscore. *)
Theorem sanitizeIdentifier_truncation_not_idempotent :
  sanitizeIdentifier long_header = string_of_list_ascii (repeat "a"%char 63) ++ "_" /\
  sanitizeIdentifier (sanitizeIdentifier long_header)
    = string_of_list_ascii (repeat "a"%char 63) /\
  sanitizeIdentifier (sanitizeIdentifier long_header) <> sanitizeIdentifier long_header /\
  (forall input,
     sanitizeIdentifier (sanitizeIdentifier input) = sanitizeIdentifier input
     <-> ends_with (is_char "_") (sanitizeIdentifier input) = false).
Proof.
  assert (E1 : sanitizeIdentifier long_header
               = string_of_list_ascii (repeat "a"%char 63) ++ "_") by (vm_compute; reflexivity).
  assert (E2 : sanitizeIdentifier (sanitizeIdentifier long_header)
               = string_of_list_ascii (repeat "a"%char 63)) by (vm_compute; reflexivity).
  split; [exact E1|]. split; [exact E2|]. split.
  - rewrite E2, E1. vm_compute. discriminate.
  - exact sanitizeIdentifier_twice.
Qed.

End RegistryClaims.

(* ===================================================================== *)
(** * The last-write-wins arbiter                                        *)
(* ===================================================================== *)

Module ArbiterClaims.
Import Js ConflictResolver.

Section Arbiter.
Context `{Runtime}.
Variable cooldown : Z.

Lemma lt_abs_diff incoming existing :
  lt (abs_diff (dateParse (timestamp incoming)) (_last_modified_at existing)) (Some cooldown)
  = match delta incoming existing with
    | Some d => (Z.abs d <? cooldown)%Z
    | None => false
    end.
Proof.
  unfold delta, abs_diff, lt.
  now destruct (dateParse (timestamp incoming)), (_last_modified_at existing).
Qed.

Lemma gt_delta incoming existing :
  gt (dateParse (timestamp incoming)) (_last_modified_at existing)
  = match delta incoming existing with
    | Some d => (0 <? d)%Z
    | None => false
    end.
Proof.
  unfold delta, gt, lt.
  destruct (dateParse (timestamp incoming)) as [a|], (_last_modified_at existing) as [b|];
    try reflexivity.
  destruct (Z.ltb_spec b a), (Z.ltb_spec 0 (a - b)); try reflexivity; lia.
Qed.

Lemma lt_delta incoming existing :
  lt (dateParse (timestamp incoming)) (_last_modified_at existing)
  = match delta incoming existing with
    | Some d => (d <? 0)%Z
    | None => false
    end.
Proof.
  unfold delta, lt.
  destruct (dateParse (timestamp incoming)) as [a|], (_last_modified_at existing) as [b|];
    try reflexivity.
  destruct (Z.ltb_spec a b), (Z.ltb_spec (a - b) 0); try reflexivity; lia.
Qed.

(** The verdict as a function of the three things it depends on. *)
Lemma resolveConflict_cases incoming existing :
  resolveConflict cooldown incoming existing =
  let same := bool_decide (source incoming = _last_modified_by existing) in
  match delta incoming existing with
  | Some d =>
      if same && (Z.abs d <? cooldown)%Z then SKIP
      else if (0 <? d)%Z then APPLY
      else if (d <? 0)%Z && negb same then CONFLICT
      else SKIP
  | None => SKIP
  end.
Proof.
  unfold resolveConflict.
  rewrite lt_abs_diff, gt_delta, lt_delta.
  destruct (delta incoming existing) as [d|]; [reflexivity|].
  now rewrite andb_false_r.
Qed.

(** C1 (amended).  The arbiter returns a verdict for every incoming change
    and every stored row, and leaves the row as it was.  The verdict is
    determined as follows.  A change of the same origin as the row whose
    own time value lies less than the cooldown from the time of the row
    is skipped, whatever else it carries; the time at which the change
    arrives is not looked at.  Otherwise, with d the difference of the
    two time values: d > 0 gives APPLY; d < 0 with different origins gives
    CONFLICT; d < 0 with the same origin, and d = 0, give SKIP.  CONFLICT
    is returned in no other case, and a change whose time value is not a
    number is skipped.  The verdict is the one of the specification for a
    change that arrives at the time it is stamped with. *)
Theorem resolveConflict_verdicts (incoming : SyncPayload) (existing : SyncRecord) :
  let verdict := resolveConflict cooldown incoming existing in
  let same := source incoming = _last_modified_by existing in
  (inside_cooldown cooldown incoming existing -> verdict = SKIP) /\
  (~ inside_cooldown cooldown incoming existing ->
     forall d, delta incoming existing = Some d ->
       (0 < d -> verdict = APPLY) /\
       (d < 0 -> ~ same -> verdict = CONFLICT) /\
       (d < 0 -> same -> verdict = SKIP) /\
       (d = 0 -> verdict = SKIP)) /\
  (delta incoming existing = None -> verdict = SKIP) /\
  (verdict = CONFLICT ->
     ~ same /\ exists d, delta incoming existing = Some d /\ d < 0) /\
  (verdict = APPLY \/ verdict = SKIP \/ verdict = CONFLICT) /\
  resolveConflict_call cooldown incoming existing = (verdict, existing) /\
  (forall now, dateParse (timestamp incoming) = Some now ->
     decision_spec cooldown now incoming existing = verdict).
Proof.
  cbv zeta.
  assert (Hcall : resolveConflict_call cooldown incoming existing
                  = (resolveConflict cooldown incoming existing, existing)).
  { unfold resolveConflict_call, resolveConflict, and_then, read, ret.
    destruct (bool_decide (source incoming = _last_modified_by existing)
              && lt (abs_diff (dateParse (timestamp incoming)) (_last_modified_at existing))
                   (Some cooldown)); [reflexivity|].
    destruct (gt (dateParse (timestamp incoming)) (_last_modified_at existing));
      [reflexivity|].
    destruct (lt (dateParse (timestamp incoming)) (_last_modified_at existing));
      [|reflexivity].
    now destruct (bool_decide (source incoming = _last_modified_by existing)). }
  rewrite Hcall. rewrite resolveConflict_cases. cbv zeta.
  unfold inside_cooldown.
  split; [|split; [|split; [|split; [|split; [|split]]]]].
  - intros (Hs & d & -> & Habs).
    rewrite (bool_decide_eq_true_2 _ Hs).
    now rewrite (proj2 (Z.ltb_lt _ _) Habs).
  - intros Hout d Ed. rewrite Ed.
    assert (Hguard : bool_decide (source incoming = _last_modified_by existing)
                     && (Z.abs d <? cooldown)%Z = false).
    { apply not_true_is_false. intros Hg. apply andb_true_iff in Hg as [Hs Habs].
      apply Hout. split; [now apply bool_decide_eq_true in Hs|].
      exists d. split; [exact Ed|now apply Z.ltb_lt]. }
    rewrite Hguard. repeat split.
    + intros Hd. now rewrite (proj2 (Z.ltb_lt _ _) Hd).
    + intros Hd Hs. rewrite (proj2 (Z.ltb_ge _ _)) by lia.
      rewrite (proj2 (Z.ltb_lt _ _) Hd). now rewrite (bool_decide_eq_false_2 _ Hs).
    + intros Hd Hs. rewrite (proj2 (Z.ltb_ge _ _)) by lia.
      rewrite (bool_decide_eq_true_2 _ Hs). now rewrite andb_false_r.
    + intros ->. reflexivity.
  - now intros ->.
  - destruct (delta incoming existing) as [d|]; [|discriminate].
    destruct (bool_decide_reflect (source incoming = _last_modified_by existing)) as [Hs|Hs];
      destruct (Z.abs d <? cooldown)%Z, (Z.ltb_spec 0 d), (Z.ltb_spec d 0);
      simpl; try discriminate; intros _; (split; [exact Hs|]); exists d; now split.
  - destruct (delta incoming existing) as [d|]; [|tauto].
    destruct (_ && _); [tauto|]. destruct (0 <? d)%Z; [tauto|].
    destruct (_ && _); tauto.
  - reflexivity.
  - intros now Hnow. unfold decision_spec, delta. rewrite Hnow.
    destruct (_last_modified_at existing) as [t|]; [|now rewrite andb_false_r].
    destruct (bool_decide (source incoming = _last_modified_by existing)); cbn [andb negb];
      [|reflexivity].
    destruct (Z.ltb_spec (now - t) cooldown), (Z.ltb_spec (Z.abs (now - t)) cooldown),
      (Z.ltb_spec 0 (now - t)), (Z.ltb_spec (now - t) 0);
      cbn [andb]; try reflexivity; lia.
Qed.

End Arbiter.

(** The two scenarios of the specification, with dates for time values:
    a row last written by the database receives an older change from the
    sheet (a conflict), and a row last written by the sheet receives
    another change from the sheet inside the cooldown (an echo). *)
Lemma resolveConflict_verdicts_witness :
  @resolveConflict Samples.iso_runtime 5000
     {| source := SHEET; timestamp := "2024-01-15" |}
     {| _sheet_row_number := 2; _last_modified_at := Some 1705363200000;
        _last_modified_by := DATABASE |} = CONFLICT /\
  @resolveConflict Samples.iso_runtime 5000
     {| source := SHEET; timestamp := "2024-01-15" |}
     {| _sheet_row_number := 2; _last_modified_at := Some 1705276799000;
        _last_modified_by := SHEET |} = SKIP.
Proof.
  split.
  - refine (proj1 (proj2 (proj1 (proj2
      (@resolveConflict_verdicts Samples.iso_runtime 5000
         {| source := SHEET; timestamp := "2024-01-15" |}
         {| _sheet_row_number := 2; _last_modified_at := Some 1705363200000;
            _last_modified_by := DATABASE |})) _ (-86400000) eq_refl)) _ _).
    + intros (Hs & _). discriminate Hs.
    + reflexivity.
    + discriminate.
  - refine (proj1 (@resolveConflict_verdicts Samples.iso_runtime 5000
         {| source := SHEET; timestamp := "2024-01-15" |}
         {| _sheet_row_number := 2; _last_modified_at := Some 1705276799000;
            _last_modified_by := SHEET |}) _).
    split; [reflexivity|]. exists 1000. split; [reflexivity|reflexivity].
Defined.

(** C1 (as stated, refuted).  The cooldown is 5000 ms and both the row
    and the change come from the sheet; the change is stamped 2024-01-15,
    00:00:00.000 UTC.  First, the row was written one second before that
    stamp and the change arrives seven seconds after the row was written
    (it waited in the queue): it arrives outside the cooldown window and
    is newer than the row, so the specification applies it, and
    [resolveConflict] skips it.  Second, the row was written six seconds
    before the stamp and the change arrives two seconds after the row was
    written: it arrives inside the window, so the specification skips it,
    and [resolveConflict] applies it. *)
Lemma arrival_inside_the_window_is_not_read :
  (let row := {| _sheet_row_number := 2; _last_modified_at := Some 1705276799000;
                 _last_modified_by := SHEET |} in
   let change := {| source := SHEET; timestamp := "2024-01-15" |} in
   @decision_spec Samples.iso_runtime 5000 1705276806000 change row = APPLY /\
   @resolveConflict Samples.iso_runtime 5000 change row = SKIP) /\
  (let row := {| _sheet_row_number := 2; _last_modified_at := Some 1705276794000;
                 _last_modified_by := SHEET |} in
   let change := {| source := SHEET; timestamp := "2024-01-15" |} in
   @decision_spec Samples.iso_runtime 5000 1705276796000 change row = SKIP /\
   @resolveConflict Samples.iso_runtime 5000 change row = APPLY).
Proof. repeat split; vm_compute; reflexivity. Qed.

End ArbiterClaims.

(* ===================================================================== *)
(** * Type inference and coercion                                        *)
(* ===================================================================== *)

Module CoercionFacts.
Import Js TypeCoercion.
Import SanitizeFacts(append_String, append_empty).

Ltac push_append := rewrite ?append_String, ?append_empty.

Lemma take_drop_while p s : s = take_while p s ++ drop_while p s.
Proof.
  induction s as [|c s IH]; simpl; [reflexivity|].
  destruct (p c); push_append; [f_equal; exact IH|reflexivity].
Qed.

Lemma take_while_all p s : all_chars p (take_while p s) = true.
Proof.
  induction s as [|c s IH]; simpl; [reflexivity|].
  destruct (p c) eqn:E; simpl; [now rewrite E|reflexivity].
Qed.

Lemma drop_while_app p a b :
  all_chars p a = true -> ColumnUtils.starts_with p b = false ->
  drop_while p (a ++ b) = b.
Proof.
  intros Ha Hb. induction a as [|c a IH]; push_append; simpl.
  - destruct b as [|c b]; simpl in *; [reflexivity|now rewrite Hb].
  - simpl in Ha. apply andb_true_iff in Ha as [-> Ha]. auto.
Qed.

Lemma filter_chars_all p s : all_chars p s = true -> filter_chars p s = s.
Proof.
  induction s as [|c s IH]; simpl; [reflexivity|].
  rewrite andb_true_iff. intros [-> Hs]. now rewrite IH.
Qed.

Lemma filter_chars_twice (p q : ascii -> bool) s :
  (forall c, p c = true -> q c = true) ->
  filter_chars p (filter_chars q s) = filter_chars p s.
Proof.
  intros Hpq. induction s as [|c s IH]; simpl; [reflexivity|].
  destruct (q c) eqn:Eq; simpl.
  - now rewrite IH.
  - destruct (p c) eqn:Ep; [|exact IH]. apply Hpq in Ep. congruence.
Qed.

Lemma digit_numeric c : is_digit c = true -> numeric_char c = true.
Proof. unfold numeric_char. now intros ->. Qed.

Lemma all_chars_impl_digit s :
  all_chars is_digit s = true -> all_chars numeric_char s = true.
Proof. apply SanitizeFacts.all_chars_impl, digit_numeric. Qed.

Lemma numeric_not_comma c : numeric_char c = true -> negb (is_char "," c) = true.
Proof. destruct c as [[] [] [] [] [] [] [] []]; vm_compute; congruence. Qed.

Lemma digit_not_sign c :
  is_digit c = true ->
  is_char "-" c = false /\ is_char "+" c = false /\ is_char "." c = false /\
  is_space c = false /\ is_char "I" c = false.
Proof. destruct c as [[] [] [] [] [] [] [] []]; vm_compute; intuition congruence. Qed.

(** The matcher of the source accepts exactly the texts of the shape. *)
Lemma matches_numeric_shape s : matches_numeric s = true <-> numeric_shape s.
Proof.
  unfold matches_numeric, numeric_shape. split.
  - set (s1 := match s with
               | String c s' => if is_char "-" c then s' else s
               | EmptyString => s
               end).
    intros Hm.
    assert (Hs : exists negative : bool, s = (if negative then "-" else "") ++ s1).
    { subst s1. destruct s as [|c s']; [now exists false|].
      destruct (is_char "-" c) eqn:Ec; [|now exists false].
      apply SanitizeFacts.is_char_eq in Ec as ->. now exists true. }
    destruct Hs as [negative Hs]. exists negative.
    destruct s1 as [|c s1'] eqn:Es1; [discriminate|].
    apply andb_true_iff in Hm as [Hc Hrest].
    exists (take_while is_digit (String c s1')).
    pose proof (take_drop_while is_digit (String c s1')) as Hsplit.
    pose proof (take_while_all is_digit (String c s1')) as Hint.
    destruct (drop_while is_digit (String c s1')) as [|dot frac] eqn:Edrop.
    + exists EmptyString. repeat split; try assumption.
      * simpl. rewrite Hc. discriminate.
      * now rewrite Hs, Hsplit at 1.
    + apply andb_true_iff in Hrest as [Hrest Hfrac].
      apply andb_true_iff in Hrest as [Hdot Hlen].
      apply SanitizeFacts.is_char_eq in Hdot as ->.
      exists frac. repeat split; try assumption.
      * simpl. rewrite Hc. discriminate.
      * rewrite Hs, Hsplit at 1. destruct frac; [discriminate|reflexivity].
  - intros (negative & int & frac & Hne & Hint & Hfrac & ->).
    destruct int as [|c int]; [congruence|].
    simpl in Hint. apply andb_true_iff in Hint as [Hc Hint].
    destruct (digit_not_sign c Hc) as (Hminus & _).
    match goal with
    | |- match ?x with _ => _ end = true =>
        replace x with (String c int ++
                        match frac with EmptyString => "" | _ => "." ++ frac end)
    end.
    simpl. rewrite Hc. simpl.
    rewrite (drop_while_app is_digit int).
    + destruct frac as [|d frac]; [reflexivity|]. simpl. exact Hfrac.
    + exact Hint.
    + destruct frac; reflexivity.
    + destruct negative; push_append; cbv iota; [reflexivity|now rewrite Hminus].
Qed.

Lemma matches_numeric_chars s :
  matches_numeric s = true -> all_chars numeric_char s = true.
Proof.
  intros Hm. apply matches_numeric_shape in Hm
    as (negative & int & frac & _ & Hint & Hfrac & ->).
  rewrite !SanitizeFacts.all_chars_append.
  rewrite (all_chars_impl_digit int Hint).
  destruct negative, frac; simpl; try reflexivity;
    simpl in Hfrac; apply andb_true_iff in Hfrac as [Hd Hf];
    rewrite (digit_numeric _ Hd), (all_chars_impl_digit _ Hf); reflexivity.
Qed.

Lemma digit_not_Infinity c rest :
  is_digit c = true -> String.prefix "Infinity" (String c rest) = false.
Proof. destruct c as [[] [] [] [] [] [] [] []]; vm_compute; congruence. Qed.

Lemma read_digits_count acc n s : (n <= (read_digits acc n s).1.2)%nat.
Proof.
  revert acc n. induction s as [|c s IH]; intros acc n; simpl; [lia|].
  destruct (is_digit c); simpl; [|lia].
  specialize (IH (10 * acc + digit_value c) (S n)). lia.
Qed.



Lemma try_catch_returns {A} (body : Res A) (handler : A) :
  exists r, try_catch body handler = Ok r.
Proof. destruct body; simpl; eauto. Qed.

End CoercionFacts.

Module CoercionClaims.
Import Js TypeCoercion CoercionFacts Samples.

(** C3. [coerceValue] returns (it never throws) for every value and every
    target type; the empty string, null and undefined give null for every
    target type; the text true as BOOLEAN gives 1; the text abc as NUMBER
    gives 0, as does every non-empty text in which no number is found; and
    a text that the [Date] parser of the runtime takes for no date, as it
    does not-a-date, gives null as DATE. *)
Theorem coerceValue_never_raises `{Runtime} :
  (forall value targetType, exists r, coerceValue value targetType = Ok r) /\
  (forall targetType,
     coerceValue (VStr "") targetType = Ok VNull /\
     coerceValue VNull targetType = Ok VNull /\
     coerceValue VUndefined targetType = Ok VNull) /\
  coerceValue (VStr "true") BOOLEAN = Ok (VNum (Finite 1)) /\
  coerceValue (VStr "abc") NUMBER = Ok (VNum (Finite 0)) /\
  (forall text, text <> EmptyString ->
     parseFloat (filter_chars numeric_char text) = NaN ->
     coerceValue (VStr text) NUMBER = Ok (VNum (Finite 0))) /\
  (forall text, text <> EmptyString ->
     dateParse text = None -> coerceValue (VStr text) DATE = Ok VNull) /\
  (dateParse "not-a-date" = None -> coerceValue (VStr "not-a-date") DATE = Ok VNull).
Proof.
  assert (Hdate : forall text, text <> EmptyString ->
            dateParse text = None -> coerceValue (VStr text) DATE = Ok VNull).
  { intros text Hne Hnone. unfold coerceValue.
    destruct text as [|c text]; [congruence|].
    cbn [is_empty toString bind]. now rewrite Hnone. }
  split; [|split; [|split; [|split; [|split; [|split]]]]].
  - intros value targetType. unfold coerceValue.
    destruct (is_empty value); [now exists VNull|]. apply try_catch_returns.
  - intros targetType. repeat split.
  - reflexivity.
  - reflexivity.
  - intros text Hne Hnan. unfold coerceValue.
    destruct text as [|c text]; [congruence|].
    cbn [is_empty toString bind]. now rewrite Hnan.
  - exact Hdate.
  - apply Hdate. discriminate.
Qed.

Lemma coerceValue_never_raises_witness :
  @dateParse iso_runtime "not-a-date" = None /\
  @coerceValue iso_runtime (VStr "not-a-date") DATE = Ok VNull /\
  (exists r, @coerceValue iso_runtime (VObj [("toString", VNull)]) TEXT = Ok r) /\
  @toString iso_runtime (VObj [("toString", VNull)])
    = Throw "TypeError: Cannot convert object to primitive value".
Proof.
  assert (Hd : @dateParse iso_runtime "not-a-date" = None) by reflexivity.
  destruct (@coerceValue_never_raises iso_runtime) as (Htotal & _ & _ & _ & _ & _ & Hnad).
  split; [exact Hd|]. split; [exact (Hnad Hd)|]. split; [apply Htotal|reflexivity].
Defined.




End CoercionClaims.

(* ===================================================================== *)
(** * The row hash                                                       *)
(* ===================================================================== *)

Module HashFacts.
Import Js Hash CoercionFacts.
Import SanitizeFacts(append_String, append_empty).

Lemma append_assoc (a b c : string) : (a ++ b) ++ c = a ++ (b ++ c).
Proof. induction a as [|x a IH]; push_append; [reflexivity|now rewrite IH]. Qed.

Lemma length_append (a b : string) :
  String.length (a ++ b) = (String.length a + String.length b)%nat.
Proof. induction a as [|x a IH]; push_append; simpl; [reflexivity|now rewrite IH]. Qed.

Lemma append_inv_tail (a b c : string) : a ++ c = b ++ c -> a = b.
Proof.
  revert b. induction a as [|x a IH]; intros [|y b]; push_append; intros E.
  - reflexivity.
  - apply (f_equal String.length) in E. simpl in E. rewrite length_append in E. lia.
  - apply (f_equal String.length) in E. simpl in E. rewrite length_append in E. lia.
  - injection E as -> E. f_equal. now apply IH.
Qed.

Lemma append_inv_head (a b c : string) : a ++ b = a ++ c -> b = c.
Proof. apply String.app_inj. Qed.

(** ** Looking up a property does not depend on the order of the
       properties *)

Lemma get_field_Some {A} (key : string) (fields : list (string * A)) v :
  NoDup (map fst fields) -> (get_field key fields = Some v <-> (key, v) ∈ fields).
Proof.
  induction fields as [|[k x] fields IH]; simpl; intros Hnd.
  - split; [discriminate|]. intros Hin. inversion Hin.
  - apply NoDup_cons in Hnd as [Hk Hnd].
    destruct (String.eqb_spec k key) as [->|Hne].
    + split.
      * intros [= ->]. left.
      * intros Hin. apply elem_of_cons in Hin as [[= ->]|Hin]; [reflexivity|].
        exfalso. apply Hk. apply list_elem_of_fmap. now exists (key, v).
    + rewrite (IH Hnd). split.
      * intros Hin. now right.
      * intros Hin. apply elem_of_cons in Hin as [[= <- _]|Hin]; [congruence|exact Hin].
Qed.

Lemma get_field_None {A} (key : string) (fields : list (string * A)) :
  get_field key fields = None <-> key ∉ map fst fields.
Proof.
  induction fields as [|[k x] fields IH]; simpl.
  - split; [intros _ Hin; inversion Hin|reflexivity].
  - destruct (String.eqb_spec k key) as [->|Hne].
    + split; [discriminate|]. intros Hn. exfalso. apply Hn. left.
    + rewrite IH. rewrite not_elem_of_cons.
      split; [intros Hn; split; [congruence|exact Hn]|now intros [_ Hn]].
Qed.

Lemma get_field_perm {A} (key : string) (l1 l2 : list (string * A)) :
  NoDup (map fst l1) -> l1 ≡ₚ l2 -> get_field key l1 = get_field key l2.
Proof.
  intros Hnd Hp.
  assert (Hnd2 : NoDup (map fst l2)).
  { rewrite <- (Permutation_map fst Hp). exact Hnd. }
  destruct (get_field key l1) as [v|] eqn:E1.
  - symmetry. apply (get_field_Some key l2 v Hnd2).
    rewrite <- Hp. now apply (get_field_Some key l1 v Hnd).
  - symmetry. apply get_field_None. apply get_field_None in E1.
    intros Hin. apply E1. now rewrite (Permutation_map fst Hp).
Qed.

Lemma members_ext K s1 s2 :
  (forall P, P ∈ K -> get_field P s1 = get_field P s2) -> members K s1 = members K s2.
Proof.
  induction K as [|P K IH]; intros Hext; simpl; [reflexivity|].
  rewrite (Hext P) by left.
  rewrite IH; [reflexivity|]. intros Q HQ. apply Hext. now right.
Qed.

Lemma members_app K1 K2 s :
  members (K1 ++ K2)%list s = (members K1 s ++ members K2 s)%list.
Proof.
  induction K1 as [|P K1 IH]; simpl; [reflexivity|].
  rewrite IH. now destruct (get_field P s) as [[str|]|].
Qed.

Lemma sort_keys_perm (k1 k2 : list string) : k1 ≡ₚ k2 -> sort_keys k1 = sort_keys k2.
Proof.
  intros Hp. unfold sort_keys. apply (Sorted_unique String.le).
  - apply Sorted_merge_sort; apply _.
  - apply Sorted_merge_sort; apply _.
  - now rewrite !merge_sort_Permutation.
Qed.

Section WithRuntime.
Context `{Runtime}.

Lemma normalized_unfold rowData :
  normalized rowData =
  let K := sort_keys (object_keys rowData) in
  "{" ++ join "," (members K (serialised K rowData)) ++ "}".
Proof. reflexivity. Qed.

Lemma serialised_keys K fields : map fst (serialised K fields) = map fst fields.
Proof.
  unfold serialised. induction fields as [|[k x] fields IH]; simpl; [reflexivity|].
  now rewrite IH.
Qed.

(** Records with the same properties in another order have the same
    canonical text. *)
Lemma normalized_perm r1 r2 :
  NoDup (object_keys r1) -> r1 ≡ₚ r2 -> normalized r1 = normalized r2.
Proof.
  intros Hnd Hp. rewrite !normalized_unfold. cbv zeta.
  assert (HK : sort_keys (object_keys r1) = sort_keys (object_keys r2)).
  { apply sort_keys_perm. unfold object_keys. now apply Permutation_map. }
  rewrite <- HK. do 3 f_equal.
  apply members_ext. intros P _. apply get_field_perm.
  - now rewrite serialised_keys.
  - unfold serialised. now apply Permutation_map.
Qed.

(** ** The text around one member *)

Lemma append_nil_r (a : string) : a ++ "" = a.
Proof. induction a as [|x a IH]; push_append; [reflexivity|now rewrite IH]. Qed.

Lemma join_cons sep x l : join sep (x :: l) = x ++ after sep l.
Proof.
  revert x. induction l as [|e l IH]; intros x.
  - simpl. now rewrite append_nil_r.
  - change (join sep (x :: e :: l)) with (x ++ sep ++ join sep (e :: l)).
    now rewrite IH.
Qed.

Lemma join_middle sep l1 x l2 :
  join sep (l1 ++ x :: l2)%list = before sep l1 ++ x ++ after sep l2.
Proof.
  induction l1 as [|e l1 IH].
  - apply join_cons.
  - change ((e :: l1) ++ x :: l2)%list with (e :: (l1 ++ x :: l2))%list.
    rewrite join_cons. simpl before. rewrite !append_assoc. do 2 f_equal.
    rewrite <- IH. destruct (l1 ++ x :: l2)%list as [|y l] eqn:E.
    + now destruct l1.
    + simpl after. now rewrite join_cons.
Qed.

Lemma get_field_middle_ne {A} (P k : string) (x y : A) l1 l2 :
  P <> k ->
  get_field P (l1 ++ (k, x) :: l2)%list = get_field P (l1 ++ (k, y) :: l2)%list.
Proof.
  intros Hne. induction l1 as [|[k1 x1] l1 IH]; simpl.
  - destruct (String.eqb_spec k P); [congruence|reflexivity].
  - now rewrite IH.
Qed.

(** Changing the value of one property to a value with another JSON text
    changes the canonical text of the record. *)
Lemma normalized_value_change pre k v v' post a b :
  NoDup (object_keys (pre ++ (k, v) :: post)%list) ->
  let K := sort_keys (object_keys (pre ++ (k, v) :: post)%list) in
  serialize K v = Some a -> serialize K v' = Some b -> a <> b ->
  normalized (pre ++ (k, v) :: post)%list <> normalized (pre ++ (k, v') :: post)%list.
Proof.
  intros Hnd K Ha Hb Hab.
  assert (Hkeys : object_keys (pre ++ (k, v') :: post)%list
                  = object_keys (pre ++ (k, v) :: post)%list).
  { unfold object_keys. now rewrite !map_app. }
  rewrite !normalized_unfold. cbv zeta. rewrite Hkeys. fold K.
  assert (HKp : K ≡ₚ object_keys (pre ++ (k, v) :: post)%list)
    by apply merge_sort_Permutation.
  assert (HKnd : NoDup K) by now rewrite HKp.
  assert (Hk : k ∈ K).
  { rewrite HKp. unfold object_keys. rewrite map_app. simpl.
    apply elem_of_app. right. left. }
  apply list_elem_of_split in Hk as (K1 & K2 & HK).
  rewrite HK in HKnd. apply NoDup_app in HKnd as (_ & Hk1 & HKnd2).
  apply NoDup_cons in HKnd2 as [Hk2 _].
  assert (Hser : forall w, serialised K (pre ++ (k, w) :: post)%list
                 = (serialised K pre ++ (k, serialize K w) :: serialised K post)%list).
  { intros w. unfold serialised. now rewrite map_app. }
  assert (Hget : forall w, get_field k (serialised K (pre ++ (k, w) :: post)%list)
                           = Some (serialize K w)).
  { intros w. apply get_field_Some.
    - rewrite serialised_keys. unfold object_keys in *.
      rewrite map_app in *. exact Hnd.
    - rewrite Hser. apply elem_of_app. right. left. }
  assert (Hmem : forall w c, serialize K w = Some c ->
            members K (serialised K (pre ++ (k, w) :: post)%list)
            = (members K1 (serialised K (pre ++ (k, v) :: post)%list)
               ++ (quote k ++ ":" ++ c)%string
               :: members K2 (serialised K (pre ++ (k, v) :: post)%list))%list).
  { intros w c Hw. rewrite HK at 1. rewrite members_app. simpl members.
    rewrite Hget, Hw. f_equal; [|f_equal]; apply members_ext; intros P HP;
      rewrite !Hser; apply get_field_middle_ne; intros ->.
    - apply (Hk1 k HP). left.
    - now apply Hk2. }
  rewrite (Hmem v a Ha), (Hmem v' b Hb), !join_middle.
  intros E. apply append_inv_head in E.
  rewrite <- !append_assoc in E. apply append_inv_tail in E.
  rewrite !append_assoc in E. apply append_inv_head in E.
  rewrite <- !append_assoc in E. apply append_inv_tail in E.
  rewrite !append_assoc in E. do 2 apply append_inv_head in E.
  contradiction.
Qed.

End WithRuntime.

End HashFacts.

Module HashClaims.
Import Js Hash HashFacts Samples.

(** C4 (as stated, refuted).  Two rows that differ in the value of their
    field a have the same canonical text, hence the same hash under any
    hash function: the nested property x is not in the list of top-level
    keys and is left out, and NaN is written as null. *)
Lemma computeRowHash_blind_to_some_changes :
  (row_nested 1 <> row_nested 2 /\
   @normalized plain_runtime (row_nested 1) = @normalized plain_runtime (row_nested 2) /\
   @computeRowHash plain_runtime (row_nested 1) = @computeRowHash plain_runtime (row_nested 2)) /\
  (row_with (VNum NaN) <> row_with VNull /\
   @computeRowHash plain_runtime (row_with (VNum NaN))
     = @computeRowHash plain_runtime (row_with VNull)).
Proof.
  split; split; try discriminate; try split; vm_compute; reflexivity.
Qed.

(** C4 (amended).  [computeRowHash] does not depend on the order of the
    fields: two rows with the same field/value pairs in different orders
    have the same hash.  Changing the value of one field to a value whose
    JSON text, under the list of the row's keys, is different changes the
    text that is hashed; the two hashes are then equal only if SHA-256
    gives two different texts the same digest. *)
Theorem computeRowHash_order_and_value `{Runtime} :
  (forall r1 r2 : list (string * JsValue),
     NoDup (object_keys r1) -> r1 ≡ₚ r2 -> computeRowHash r1 = computeRowHash r2) /\
  (forall (pre post : list (string * JsValue)) (k : string) (v v' : JsValue) (a b : string),
     NoDup (object_keys (pre ++ (k, v) :: post)%list) ->
     let K := sort_keys (object_keys (pre ++ (k, v) :: post)%list) in
     serialize K v = Some a -> serialize K v' = Some b -> a <> b ->
     normalized (pre ++ (k, v) :: post)%list <> normalized (pre ++ (k, v') :: post)%list /\
     (computeRowHash (pre ++ (k, v) :: post)%list
        = computeRowHash (pre ++ (k, v') :: post)%list ->
      exists x y, x <> y /\ sha256hex x = sha256hex y)).
Proof.
  split.
  - intros r1 r2 Hnd Hp. unfold computeRowHash. f_equal. now apply normalized_perm.
  - intros pre post k v v' a b Hnd K Ha Hb Hab.
    pose proof (normalized_value_change pre k v v' post a b Hnd Ha Hb Hab) as Hne.
    split; [exact Hne|].
    intros E. now exists (normalized (pre ++ (k, v) :: post)%list),
                         (normalized (pre ++ (k, v') :: post)%list).
Qed.

Lemma computeRowHash_order_and_value_witness :
  @computeRowHash plain_runtime row_ba = @computeRowHash plain_runtime row_ab /\
  @normalized plain_runtime (row_with (VStr "x")) <> @normalized plain_runtime (row_with (VStr "y")).
Proof.
  destruct (@computeRowHash_order_and_value plain_runtime) as [Horder Hvalue].
  split.
  - apply Horder.
    + unfold object_keys, row_ba. simpl. apply NoDup_cons. split.
      * intros Hin. apply list_elem_of_singleton in Hin. discriminate.
      * apply NoDup_singleton.
    + apply perm_swap.
  - apply (Hvalue [] [("b", VStr "kept")] "a" (VStr "x") (VStr "y")
             (quote "x") (quote "y")).
    + unfold object_keys. simpl. apply NoDup_cons. split.
      * intros Hin. apply list_elem_of_singleton in Hin. discriminate.
      * apply NoDup_singleton.
    + reflexivity.
    + reflexivity.
    + vm_compute. discriminate.
Defined.

End HashClaims.

(* ===================================================================== *)
(** * The queues and the DB->Sheet worker                                *)
(* ===================================================================== *)

Module QueueClaims.
Import Queues Samples.

(** In every state the pool of a worker can reach, the jobs being
    processed are at most [concurrency] many. *)
Lemma pool_bounded {J : Type} (w : WorkerOptions) (p : Pool J) :
  0 <= concurrency w -> pool_reachable w p ->
  Z.of_nat (length (active p)) <= concurrency w.
Proof.
  intros Hc Hr. induction Hr as [|p q Hr IH Hstep]; [simpl; lia|].
  destruct Hstep as [p j|j rest act Hlt|wt before after j]; simpl in *.
  - exact IH.
  - rewrite length_app. simpl. lia.
  - rewrite length_app in *. simpl in IH. lia.
Qed.

(** C8 (evaluation at the failing input).  The DB->Sheet worker is
    started with concurrency 5, for the queue as a whole: at most five
    jobs are being processed at any time, whatever their documents.  Two
    jobs for the same spreadsheet that are added one after the other are
    both being processed in a state the worker reaches: the second write
    starts while the first is still running. *)
Theorem dbToSheetWorker_two_writes_in_flight :
  concurrency dbToSheetWorker = 5 /\
  DbToSheetWorker.sheetId (job_for_row 1) = DbToSheetWorker.sheetId (job_for_row 2) /\
  (forall (J : Type) (p : Pool J),
     pool_reachable dbToSheetWorker p -> (length (active p) <= 5)%nat) /\
  pool_reachable dbToSheetWorker
    {| waiting := []; active := [job_for_row 1; job_for_row 2] |}.
Proof.
  split; [reflexivity|]. split; [reflexivity|]. split.
  { intros J p Hp. pose proof (pool_bounded dbToSheetWorker p ltac:(simpl; lia) Hp) as Hb.
    simpl in Hb. lia. }
  eapply reach_step; [|apply (step_start dbToSheetWorker (job_for_row 2) [] [job_for_row 1])].
  2:{ simpl. lia. }
  eapply reach_step; [|apply (step_start dbToSheetWorker (job_for_row 1) [job_for_row 2] [])].
  2:{ simpl. lia. }
  eapply reach_step;
    [|apply (step_add dbToSheetWorker {| waiting := [job_for_row 1]; active := [] |}
               (job_for_row 2))].
  eapply reach_step;
    [|apply (step_add dbToSheetWorker {| waiting := []; active := [] |} (job_for_row 1))].
  apply reach_init.
Qed.

Lemma run_job_cases (opts : DefaultJobOptions) (succeeds : Z -> bool) :
  attempts opts = 3 ->
  run_job opts succeeds =
  if succeeds 1 then (Completed, 1, [])
  else if succeeds 2 then (Completed, 2, [backoff_delay (backoff opts) 1])
  else if succeeds 3
       then (Completed, 3, [backoff_delay (backoff opts) 1; backoff_delay (backoff opts) 2])
       else (Failed, 3, [backoff_delay (backoff opts) 1; backoff_delay (backoff opts) 2]).
Proof.
  intros Ha. unfold run_job. rewrite Ha.
  change (Z.to_nat 3) with 3%nat. cbn [run_attempts]. rewrite Ha.
  change (0 + 1) with 1. change (1 + 1) with 2. change (2 + 1) with 3.
  change (1 <? 3) with true. change (2 <? 3) with true. change (3 <? 3) with false.
  destruct (succeeds 1), (succeeds 2), (succeeds 3); reflexivity.
Qed.

(** C9 (as stated, refuted).  In both queues the waits between the
    attempts of a job that keeps failing are 2 s and 4 s, not 5 s, 10 s
    and 20 s.  In the DB->Sheet queue, of 501 jobs that fail for good one
    after the other, the first is no longer in the failed set: the set
    keeps 500 jobs and the oldest one is dropped. *)
Lemma retries_and_retention_differ :
  retry_schedule (defaultJobOptions dbToSheetQueue) = [2000; 4000] /\
  retry_schedule (defaultJobOptions sheetToDbQueue) = [2000; 4000] /\
  retry_schedule (defaultJobOptions dbToSheetQueue) <> documented_waits /\
  existsb (Nat.eqb 0) (fail_all (defaultJobOptions dbToSheetQueue) (seq 0 500)) = true /\
  existsb (Nat.eqb 0) (fail_all (defaultJobOptions dbToSheetQueue) (seq 0 501)) = false /\
  length (fail_all (defaultJobOptions dbToSheetQueue) (seq 0 501)) = 500%nat.
Proof.
  repeat split; try (vm_compute; reflexivity). vm_compute. discriminate.
Qed.

(** C9 (amended).  In both queues a delivery is attempted at least once
    and at most 3 times; a job fails for good only after three failed
    attempts; the waits between attempts follow the exponential backoff of
    the queue, each twice the one before.  A job that has failed for good
    is put in the failed set, which keeps the most recent failed jobs
    only: 500 for the DB->Sheet queue, 2000 for the Sheet->DB queue. *)
Theorem delivery_attempts_and_failed_set (q : QueueOptions) (succeeds : Z -> bool) :
  q = dbToSheetQueue \/ q = sheetToDbQueue ->
  let opts := defaultJobOptions q in
  let '(state, made, waits) := run_job opts succeeds in
  (1 <= made <= 3) /\
  (state = Failed ->
     made = 3 /\ succeeds 1 = false /\ succeeds 2 = false /\ succeeds 3 = false) /\
  (state = Completed -> succeeds made = true) /\
  length waits = Z.to_nat (made - 1) /\
  (forall i d, waits !! i = Some d ->
     d = 2 ^ Z.of_nat i * delay (backoff opts) /\
     (forall d', waits !! (S i) = Some d' -> d' = 2 * d)) /\
  (forall (J : Type) (job : J) (failed : list J),
     exists kept : nat,
       (q = dbToSheetQueue /\ kept = 500%nat \/ q = sheetToDbQueue /\ kept = 2000%nat) /\
       move_to_failed opts job failed = take kept (job :: failed) /\
       head (move_to_failed opts job failed) = Some job /\
       (length (move_to_failed opts job failed) <= kept)%nat).
Proof.
  intros Hq opts.
  assert (Ha : attempts opts = 3) by (destruct Hq as [-> | ->]; reflexivity).
  assert (Hd : forall k, backoff_delay (backoff opts) k = 2 ^ (k - 1) * delay (backoff opts))
    by (intros k; destruct Hq as [-> | ->]; reflexivity).
  rewrite (run_job_cases opts succeeds Ha), !Hd.
  assert (Hkeep : forall (J : Type) (job : J) (failed : list J),
            exists kept : nat,
              (q = dbToSheetQueue /\ kept = 500%nat \/
               q = sheetToDbQueue /\ kept = 2000%nat) /\
              move_to_failed opts job failed = take kept (job :: failed) /\
              head (move_to_failed opts job failed) = Some job /\
              (length (move_to_failed opts job failed) <= kept)%nat).
  { intros J job failed.
    assert (E : exists kept : nat,
              (q = dbToSheetQueue /\ kept = 500%nat \/
               q = sheetToDbQueue /\ kept = 2000%nat) /\
              move_to_failed opts job failed = take (S (pred kept)) (job :: failed) /\
              kept = S (pred kept)).
    { subst opts. destruct Hq as [-> | ->].
      - exists 500%nat. split; [now left|]. split; reflexivity.
      - exists 2000%nat. split; [now right|]. split; reflexivity. }
    destruct E as (kept & Hk & E & Hs). exists kept. split; [exact Hk|].
    rewrite E. split; [now rewrite <- Hs|]. split; [reflexivity|].
    rewrite length_take. lia. }
  destruct (succeeds 1) eqn:E1; [|destruct (succeeds 2) eqn:E2; [|destruct (succeeds 3) eqn:E3]];
    (split; [lia|]); (split; [try discriminate; auto|]); (split; [try discriminate; auto|]);
    (split; [reflexivity|]); (split; [|exact Hkeep]);
    intros [|[|i]] d Hi; simpl in Hi; try discriminate;
    injection Hi as <-; (split; [simpl; lia|]);
    intros d' Hi'; simpl in Hi'; try discriminate; injection Hi' as <-; simpl; lia.
Qed.

Lemma delivery_attempts_and_failed_set_witness :
  run_job (defaultJobOptions dbToSheetQueue) (fun k => (k =? 3)%Z)
    = (Completed, 3, [2000; 4000]) /\
  (1 <= 3 <= 3).
Proof.
  split; [reflexivity|].
  pose proof (delivery_attempts_and_failed_set dbToSheetQueue (fun k => (k =? 3)%Z)
                (or_introl eq_refl)) as Hw.
  simpl in Hw. exact (proj1 Hw).
Defined.

End QueueClaims.

Module WorkerClaims.
Import Js DbToSheetWorker Samples.

Lemma row_of_table w tbl k t : tables w !! tbl = Some t -> row_of w tbl k = t !! k.
Proof. intros Ht. unfold row_of. now rewrite Ht. Qed.

Lemma row_of_marked ts audit writes tbl k (f : SyncedRow -> SyncedRow) t :
  row_of {| tables := <[tbl := alter f k t]> ts; sync_audit_log := audit;
            sheet_writes := writes |} tbl k = f <$> t !! k.
Proof. unfold row_of. cbn [tables]. rewrite lookup_insert_eq. simpl. apply lookup_alter_eq. Qed.

(** The ways a run of [processJob_with] goes when the table of the job
    exists. *)
Lemma processJob_with_cases upd ans now job w t :
  tables w !! tableName job = Some t ->
  processJob_with upd ans now job w =
    let marked f := <[tableName job := alter f (rowId job) t]> (tables w) in
    let written := (sheet_writes w ++ [write_of job])%list in
    match updateSheetRow_error ans with
    | Some e =>
        match mark_error_error upd with
        | Some e2 => (Throw e2, w)
        | None =>
            (Throw e, {| tables := marked mark_error; sync_audit_log := sync_audit_log w;
                         sheet_writes := sheet_writes w |})
        end
    | None =>
        match mark_synced_error upd with
        | Some e =>
            match mark_error_error upd with
            | Some e2 =>
                (Throw e2, {| tables := tables w; sync_audit_log := sync_audit_log w;
                              sheet_writes := written |})
            | None =>
                (Throw e, {| tables := marked mark_error;
                             sync_audit_log := sync_audit_log w;
                             sheet_writes := written |})
            end
        | None =>
            match audit_insert_error ans with
            | Some e =>
                match mark_error_error upd with
                | Some e2 =>
                    (Throw e2, {| tables := marked (mark_synced now);
                                  sync_audit_log := sync_audit_log w;
                                  sheet_writes := written |})
                | None =>
                    (Throw e, {| tables := marked (fun r => mark_error (mark_synced now r));
                                 sync_audit_log := sync_audit_log w;
                                 sheet_writes := written |})
                end
            | None =>
                (Ok tt, {| tables := marked (mark_synced now);
                           sync_audit_log :=
                             sync_audit_log w ++
                             [{| operation_type := "DB_TO_SHEET";
                                 details := audit_details job; created_at := now |}];
                           sheet_writes := written |})
            end
        end
    end.
Proof.
  intros Ht. cbv zeta.
  unfold processJob_with, try_block_with, updateSheetRow, insert_audit, execute_update.
  destruct (updateSheetRow_error ans) as [e|].
  - destruct (mark_error_error upd) as [e2|]; [reflexivity|].
    unfold update_row. now rewrite Ht.
  - destruct (mark_synced_error upd) as [e|].
    + destruct (mark_error_error upd) as [e2|]; [reflexivity|].
      unfold update_row. cbn [tables sync_audit_log sheet_writes]. now rewrite Ht.
    + unfold update_row at 1. cbn [tables sync_audit_log sheet_writes]. rewrite Ht.
      destruct (audit_insert_error ans) as [e|]; [|reflexivity].
      destruct (mark_error_error upd) as [e2|]; [reflexivity|].
      unfold update_row. cbn [tables sync_audit_log sheet_writes].
      rewrite lookup_insert_eq, insert_insert_eq. do 3 f_equal.
      apply map_eq. intros i. destruct (decide (i = rowId job)) as [->|Hne].
      * rewrite !lookup_alter_eq. now destruct (t !! rowId job).
      * now rewrite !lookup_alter_ne.
Qed.

(** When the table does not exist: both UPDATE statements throw. *)
Lemma processJob_with_no_table upd ans now job w :
  tables w !! tableName job = None ->
  processJob_with upd ans now job w =
    (Throw (match mark_error_error upd with
            | Some e2 => e2
            | None => "ER_NO_SUCH_TABLE"
            end),
     match updateSheetRow_error ans with
     | Some _ => w
     | None => {| tables := tables w; sync_audit_log := sync_audit_log w;
                  sheet_writes := sheet_writes w ++ [write_of job] |}
     end).
Proof.
  intros Ht.
  unfold processJob_with, try_block_with, updateSheetRow, execute_update.
  destruct (updateSheetRow_error ans) as [e|].
  - destruct (mark_error_error upd) as [e2|]; [reflexivity|].
    unfold update_row. now rewrite Ht.
  - destruct (mark_synced_error upd) as [e|].
    + destruct (mark_error_error upd) as [e2|]; [reflexivity|].
      unfold update_row. cbn [tables]. now rewrite Ht.
    + unfold update_row at 1. cbn [tables]. rewrite Ht.
      destruct (mark_error_error upd) as [e2|]; [reflexivity|].
      unfold update_row. cbn [tables]. now rewrite Ht.
Qed.

(** When the database executes the two UPDATE statements, the run is the
    one of [processJob]. *)
Lemma processJob_with_executed ans now job w :
  processJob_with updates_executed ans now job w = processJob ans now job w.
Proof. reflexivity. Qed.

Ltac job_leaf t Ht :=
  repeat first
    [ progress intros
    | match goal with
      | H : Some _ = None |- _ => discriminate H
      | H : None = Some _ |- _ => discriminate H
      | H : None <> None |- _ => now destruct H
      | H : _ \/ _ |- _ => destruct H
      | H : Some _ = Some _ |- _ => injection H as H; subst
      | H : row_of _ _ _ = Some _ |- exists _, _ =>
          rewrite (row_of_table _ _ _ t Ht) in H;
          rewrite row_of_marked, H; eexists; split; [reflexivity|]
      | |- same_data _ _ => now repeat split
      | |- _ /\ _ => split
      | |- _ = _ => reflexivity
      end ].

(** C10 (amended).  For every DB->Sheet job, every state of the database
    and every answer of the Sheets API and of the database.  After a
    successful external write the sheet has the write, and when the
    database executes the UPDATE of the try block, the row of the job has
    the status SYNCED and _synced_at is the time of the UPDATE, its other
    columns unchanged; the job returns when the audit INSERT goes through
    as well.  When a statement after the write throws, the job ends in
    the catch block like a failed external write.  After a failed external
    write nothing is delivered.  In the catch block, when the database
    executes the UPDATE, the row has the status ERROR, its other columns
    as they were (_synced_at as the try block left it), and the error
    caught is thrown again; when that UPDATE itself throws (the database
    rejects it, or the table does not exist), its error is thrown in
    place of the error caught and the row is not marked: after a failed
    external write the database is then left as it was.  In particular
    the claim as the specification words it holds whenever the database
    executes its three statements. *)
Theorem processJob_marks_the_row
    (upd : UpdateAnswers) (ans : Answers) (now : Z) (job : DbToSheetJobData) (w : World) :
  let result := processJob_with upd ans now job w in
  let before := row_of w (tableName job) (rowId job) in
  let after := row_of result.2 (tableName job) (rowId job) in
  let synced := update_error (mark_synced_error upd) (tableName job) w in
  let marked := update_error (mark_error_error upd) (tableName job) w in
  (updateSheetRow_error ans = None ->
     sheet_writes result.2 = (sheet_writes w ++ [write_of job])%list /\
     (synced = None -> audit_insert_error ans = None ->
        result.1 = Ok tt /\
        forall r, before = Some r ->
          exists r', after = Some r' /\
            _sync_status r' = SYNCED /\ _synced_at r' = Some now /\ same_data r r') /\
     (forall e, synced = None -> audit_insert_error ans = Some e -> marked = None ->
        result.1 = Throw e /\
        forall r, before = Some r ->
          exists r', after = Some r' /\
            _sync_status r' = ERROR /\ _synced_at r' = Some now /\ same_data r r') /\
     (forall e, synced = Some e -> marked = None ->
        result.1 = Throw e /\
        forall r, before = Some r ->
          exists r', after = Some r' /\
            _sync_status r' = ERROR /\ _synced_at r' = _synced_at r /\ same_data r r') /\
     (forall e2, marked = Some e2 ->
        (synced <> None \/ audit_insert_error ans <> None) ->
        result.1 = Throw e2 /\
        (synced <> None -> tables result.2 = tables w) /\
        (synced = None ->
         forall r, before = Some r ->
           exists r', after = Some r' /\
             _sync_status r' = SYNCED /\ _synced_at r' = Some now /\ same_data r r'))) /\
  (forall e, updateSheetRow_error ans = Some e ->
     sheet_writes result.2 = sheet_writes w /\
     (marked = None ->
        result.1 = Throw e /\
        forall r, before = Some r ->
          exists r', after = Some r' /\
            _sync_status r' = ERROR /\ _synced_at r' = _synced_at r /\ same_data r r') /\
     (forall e2, marked = Some e2 -> result.1 = Throw e2 /\ result.2 = w)) /\
  (synced = None -> marked = None -> audit_insert_error ans = None ->
   marks_as_stated upd ans now job w).
Proof.
  cbv zeta. unfold marks_as_stated, update_error.
  destruct (tables w !! tableName job) as [t|] eqn:Ht.
  - rewrite (processJob_with_cases upd ans now job w t Ht). cbv zeta.
    destruct (updateSheetRow_error ans) as [e0|];
      destruct (mark_synced_error upd) as [e1|];
      destruct (mark_error_error upd) as [e2|];
      destruct (audit_insert_error ans) as [e3|];
      cbn [fst snd tables sync_audit_log sheet_writes];
      job_leaf t Ht.
  - rewrite (processJob_with_no_table upd ans now job w Ht).
    destruct (updateSheetRow_error ans) as [e0|];
      destruct (mark_synced_error upd) as [e1|];
      destruct (mark_error_error upd) as [e2|];
      destruct (audit_insert_error ans) as [e3|];
      cbn [fst snd tables sync_audit_log sheet_writes];
      job_leaf (∅ : gmap Z SyncedRow) Ht.
Qed.

(** The job of row 1 of the table sheet_s_tab, whose row is PENDING:
    when the Sheets API refuses the write the row is set to ERROR and the
    error is thrown again; when everything goes through the row is SYNCED
    and stamped with the time of the run. *)
Lemma processJob_marks_the_row_witness :
  (processJob_with updates_executed sheets_down 500 (job_for_row 1) one_row_world).1
    = Throw "429 RESOURCE_EXHAUSTED" /\
  (exists r',
     row_of (processJob_with updates_executed sheets_down 500 (job_for_row 1)
               one_row_world).2 "sheet_s_tab" 1 = Some r' /\
     _sync_status r' = ERROR /\ _synced_at r' = None) /\
  (exists r',
     row_of (processJob_with updates_executed all_fine 500 (job_for_row 1)
               one_row_world).2 "sheet_s_tab" 1 = Some r' /\
     _sync_status r' = SYNCED /\ _synced_at r' = Some 500).
Proof.
  destruct (processJob_marks_the_row updates_executed sheets_down 500 (job_for_row 1)
              one_row_world) as (_ & Hfail & _).
  destruct (processJob_marks_the_row updates_executed all_fine 500 (job_for_row 1)
              one_row_world) as (Hok & _).
  destruct (Hfail _ eq_refl) as (_ & Hmarked & _).
  destruct (Hmarked eq_refl) as (H1 & H2).
  destruct (H2 pending_row eq_refl) as (r1 & Hr1 & Hs1 & Ha1 & _).
  destruct (Hok eq_refl) as (_ & Hsynced & _).
  destruct (Hsynced eq_refl eq_refl) as (_ & H3).
  destruct (H3 pending_row eq_refl) as (r2 & Hr2 & Hs2 & Ha2 & _).
  split; [exact H1|]. split.
  - exists r1. split; [exact Hr1|]. split; [exact Hs1|exact Ha1].
  - exists r2. split; [exact Hr2|]. split; [exact Hs2|exact Ha2].
Defined.

(** C10 (as stated, refuted).  The row of the job exists and is PENDING.
    First run: the Sheets API refuses the write and the database rejects
    the UPDATE of the catch block; the job throws the error of the
    UPDATE, not the one of the write, and the database is as it was, the
    row still PENDING.  Second run: the write is delivered and the UPDATE
    sets SYNCED, then the audit INSERT fails; the catch block sets ERROR:
    the row of a successful external write ends with the status ERROR. *)
Lemma error_mark_can_be_missing :
  processJob_with mark_error_rejected sheets_down 500 (job_for_row 1) one_row_world
    = (Throw "ECONNRESET", one_row_world) /\
  _sync_status <$> row_of one_row_world "sheet_s_tab" 1 = Some PENDING /\
  ~ marks_as_stated mark_error_rejected sheets_down 500 (job_for_row 1) one_row_world /\
  (processJob_with updates_executed audit_down 500 (job_for_row 1) one_row_world).1
    = Throw "ER_LOCK_WAIT_TIMEOUT" /\
  sheet_writes (processJob_with updates_executed audit_down 500 (job_for_row 1)
                  one_row_world).2 = [write_of (job_for_row 1)] /\
  _sync_status <$> row_of (processJob_with updates_executed audit_down 500 (job_for_row 1)
                             one_row_world).2 "sheet_s_tab" 1 = Some ERROR /\
  ~ marks_as_stated updates_executed audit_down 500 (job_for_row 1) one_row_world.
Proof.
  assert (Ht : tables one_row_world !! tableName (job_for_row 1)
               = Some {[ 1 := pending_row ]}) by reflexivity.
  assert (E1 : processJob_with mark_error_rejected sheets_down 500 (job_for_row 1)
                 one_row_world = (Throw "ECONNRESET", one_row_world))
    by (rewrite (processJob_with_cases _ _ _ _ _ _ Ht); reflexivity).
  pose proof (processJob_with_cases updates_executed audit_down 500 (job_for_row 1)
                one_row_world _ Ht) as E2.
  cbv zeta in E2. cbn [updateSheetRow_error mark_synced_error mark_error_error
                       audit_insert_error audit_down updates_executed] in E2.
  split; [exact E1|]. split; [reflexivity|]. split.
  - intros Hclaim. destruct (Hclaim pending_row eq_refl) as (r' & Hrow & _ & Hfail).
    rewrite E1 in Hrow. cbn [snd] in Hrow.
    change (Some pending_row = Some r') in Hrow. injection Hrow as <-.
    destruct (Hfail _ eq_refl) as [Hst _]. discriminate Hst.
  - rewrite E2. cbn [fst snd sheet_writes].
    split; [reflexivity|]. split; [reflexivity|]. split.
    + rewrite row_of_marked. reflexivity.
    + intros Hclaim. destruct (Hclaim pending_row eq_refl) as (r' & Hrow & Hok & _).
      rewrite E2 in Hrow. cbn [snd] in Hrow. rewrite row_of_marked in Hrow.
      change (Some (mark_error (mark_synced 500 pending_row)) = Some r') in Hrow.
      injection Hrow as <-.
      destruct (Hok eq_refl) as [Hst _]. discriminate Hst.
Qed.

End WorkerClaims.

(* ===================================================================== *)
(** * More about the identifier sanitiser and the table names            *)
(* ===================================================================== *)

Module IdentifierFacts.
Import Js ColumnUtils SanitizeFacts.

Lemma length_drop_while p s :
  (String.length (drop_while p s) <= String.length s)%nat.
Proof.
  induction s as [|c s IH]; simpl; [lia|]. destruct (p c); simpl; lia.
Qed.

Lemma length_replace_runs_from cls b s :
  (String.length (replace_runs_from cls "_" b s) <= String.length s)%nat.
Proof.
  revert b. induction s as [|c s IH]; intros b; simpl; [lia|].
  destruct (cls c).
  - destruct b.
    + specialize (IH true). lia.
    + push_append. simpl. specialize (IH true). lia.
  - simpl. specialize (IH false). lia.
Qed.

(** Before the truncation the sanitiser has lengthened the trimmed and
    lower-cased input by the prefix col_ at most (or produced the three
    letters col). *)
Lemma length_prefixed_form_lowered input :
  (String.length (prefixed_form input)
   <= Nat.max 3 (String.length (toLowerCase (trim input)) + 4))%nat.
Proof.
  unfold prefixed_form, replace_runs.
  set (s0 := toLowerCase (trim input)).
  set (s1 := replace_runs_from (fun c => negb (is_ident_char c)) "_" false s0).
  set (s2 := replace_runs_from (is_char "_") "_" false s1).
  set (s3 := drop_while (is_char "_") s2).
  set (s4 := drop_while_end (is_char "_") s3).
  assert (H4 : (String.length s4 <= String.length s0)%nat).
  { pose proof (drop_while_end_length (is_char "_") s3).
    pose proof (length_drop_while (is_char "_") s2).
    pose proof (length_replace_runs_from (is_char "_") false s1).
    pose proof (length_replace_runs_from (fun c => negb (is_ident_char c)) false s0).
    subst s4 s3 s2 s1. lia. }
  destruct s4 as [|c r]; [simpl; lia|].
  simpl String.length in *. simpl Nat.eqb. cbv iota.
  simpl starts_with. destruct (is_digit c); rewrite ?HashFacts.length_append; simpl; lia.
Qed.

Lemma starts_with_substring p n s :
  starts_with p (substring 0 (S n) s) = starts_with p s.
Proof. destruct s; reflexivity. Qed.

Lemma sanitizeIdentifier_chars input :
  all_chars is_ident_char (sanitizeIdentifier input) = true.
Proof.
  rewrite sanitizeIdentifier_unfold. apply substring_all_chars.
  apply prefixed_form_is_canonical.
Qed.

Lemma sanitizeIdentifier_nonempty input : sanitizeIdentifier input <> EmptyString.
Proof.
  rewrite sanitizeIdentifier_unfold. apply substring_nonempty.
  apply prefixed_form_is_canonical.
Qed.

End IdentifierFacts.

Module IdentifierProperties.
Import Js ColumnUtils SanitizeFacts IdentifierFacts.

(** Whatever the input, [sanitizeIdentifier] returns a usable identifier:
    it is not empty, has at most 64 characters, is made of the characters
    a-z, 0-9 and the underscore only, begins with neither a digit nor an
    underscore, and has no two underscores in a row. *)
Theorem sanitizeIdentifier_is_identifier (input : string) :
  let name := sanitizeIdentifier input in
  name <> EmptyString /\
  (String.length name <= 64)%nat /\
  all_chars is_ident_char name = true /\
  starts_with is_digit name = false /\
  starts_with (is_char "_") name = false /\
  no_double (is_char "_") name = true.
Proof.
  cbv zeta. destruct (prefixed_form_is_canonical input) as (Hid & Hdd & Hst & _ & Hne & Hdg).
  split; [apply sanitizeIdentifier_nonempty|].
  split; [rewrite sanitizeIdentifier_unfold; apply length_substring|].
  split; [apply sanitizeIdentifier_chars|].
  rewrite sanitizeIdentifier_unfold.
  rewrite !(starts_with_substring _ 63).
  split; [exact Hdg|]. split; [exact Hst|].
  now apply no_double_substring.
Qed.

(** The names [sanitizeIdentifier] leaves as they are, are exactly the
    canonical identifiers of at most 64 characters; two applications
    always reach one of them, so that a third changes nothing. *)
Theorem sanitizeIdentifier_fixed_points :
  (forall s, sanitizeIdentifier s = s <-> canonical s /\ (String.length s <= 64)%nat) /\
  (forall input,
     sanitizeIdentifier (sanitizeIdentifier (sanitizeIdentifier input))
     = sanitizeIdentifier (sanitizeIdentifier input)).
Proof.
  split.
  - intros s. split.
    + intros E.
      assert (Hen : ends_with (is_char "_") s = false).
      { rewrite <- E. apply sanitizeIdentifier_twice. now rewrite !E. }
      destruct (prefixed_form_is_canonical s) as (Hid & Hdd & Hst & _ & Hne & Hdg).
      rewrite sanitizeIdentifier_unfold in E.
      split.
      * assert (Hc : all_chars is_ident_char (substring 0 64 (prefixed_form s)) = true /\
                     no_double (is_char "_") (substring 0 64 (prefixed_form s)) = true /\
                     starts_with (is_char "_") (substring 0 64 (prefixed_form s)) = false /\
                     substring 0 64 (prefixed_form s) <> EmptyString /\
                     starts_with is_digit (substring 0 64 (prefixed_form s)) = false).
        { rewrite !(starts_with_substring _ 63).
          repeat split; try assumption.
          - now apply substring_all_chars.
          - now apply no_double_substring.
          - now apply substring_nonempty. }
        rewrite E in Hc. destruct Hc as (? & ? & ? & ? & ?). repeat split; assumption.
      * pose proof (length_substring 64 (prefixed_form s)) as Hl. now rewrite E in Hl.
    + intros [Hc Hl]. rewrite sanitizeIdentifier_unfold, (prefixed_form_canonical s Hc).
      now apply substring_short.
  - intros input. rewrite (sanitizeIdentifier_again (sanitizeIdentifier input)).
    apply drop_while_end_id. rewrite sanitizeIdentifier_again. apply drop_while_end_ends.
Qed.

(** When the input, trimmed and put in lower case, has at most 60
    characters, the truncation never cuts, and [sanitizeIdentifier] is
    idempotent.  (Putting a text in lower case keeps its length, but for
    the capital I with a dot above, which becomes two characters.) *)
Theorem sanitizeIdentifier_idempotent_on_short_input (input : string) :
  (String.length (toLowerCase (trim input)) <= 60)%nat ->
  sanitizeIdentifier input = prefixed_form input /\
  sanitizeIdentifier (sanitizeIdentifier input) = sanitizeIdentifier input.
Proof.
  intros Hl.
  assert (E : sanitizeIdentifier input = prefixed_form input).
  { rewrite sanitizeIdentifier_unfold. apply substring_short.
    pose proof (length_prefixed_form_lowered input). lia. }
  split; [exact E|].
  apply sanitizeIdentifier_twice. rewrite E. apply prefixed_form_is_canonical.
Qed.

Lemma sanitizeIdentifier_idempotent_on_short_input_witness :
  sanitizeIdentifier (sanitizeIdentifier "  3rd Quarter (EUR) ") = "col_3rd_quarter_eur".
Proof.
  destruct (sanitizeIdentifier_idempotent_on_short_input "  3rd Quarter (EUR) ") as [_ E].
  - vm_compute. lia.
  - rewrite E. reflexivity.
Defined.

(** A table name is sheet_, the first 24 characters of the sanitised
    sheet id, an underscore, and the first 24 characters of the sanitised
    tab name: between 9 and 55 characters of a-z, 0-9 and the underscore,
    so that the final truncation to 64 characters never cuts. *)
Theorem sanitizeTableName_shape (sheetId sheetName : string) :
  let tableName := sanitizeTableName sheetId sheetName in
  tableName = "sheet_" ++ substring 0 24 (sanitizeIdentifier sheetId) ++ "_" ++
              substring 0 24 (sanitizeIdentifier sheetName) /\
  (9 <= String.length tableName <= 55)%nat /\
  all_chars is_ident_char tableName = true.
Proof.
  cbv zeta. unfold sanitizeTableName.
  set (idPart := substring 0 24 (sanitizeIdentifier sheetId)).
  set (namePart := substring 0 24 (sanitizeIdentifier sheetName)).
  assert (Hi : (1 <= String.length idPart <= 24)%nat).
  { split; [|apply length_substring].
    pose proof (substring_nonempty 23 _ (sanitizeIdentifier_nonempty sheetId)) as Hn.
    fold idPart in Hn. destruct idPart; [congruence|simpl; lia]. }
  assert (Hn : (1 <= String.length namePart <= 24)%nat).
  { split; [|apply length_substring].
    pose proof (substring_nonempty 23 _ (sanitizeIdentifier_nonempty sheetName)) as Hn.
    fold namePart in Hn. destruct namePart; [congruence|simpl; lia]. }
  assert (Hl : String.length ("sheet_" ++ idPart ++ "_" ++ namePart)
               = (7 + String.length idPart + String.length namePart)%nat).
  { rewrite !HashFacts.length_append. simpl. lia. }
  rewrite substring_short by lia.
  split; [reflexivity|]. split; [lia|].
  rewrite !all_chars_append.
  subst idPart namePart.
  rewrite !substring_all_chars by apply sanitizeIdentifier_chars. reflexivity.
Qed.

End IdentifierProperties.

(* ===================================================================== *)
(** * More about type inference and coercion                             *)
(* ===================================================================== *)

Module CoercionMoreFacts.
Import Js ColumnUtils TypeCoercion SanitizeFacts CoercionFacts.

Lemma drop_while_end_starts p s :
  starts_with p s = false -> starts_with p (drop_while_end p s) = false.
Proof.
  intros Hs. destruct (drop_while_end_prefix p s) as [t E].
  rewrite E in Hs. now apply starts_with_append_l in Hs.
Qed.

Lemma trim_twice s : trim (trim s) = trim s.
Proof.
  unfold trim.
  rewrite (drop_while_id is_space (drop_while_end is_space (drop_while is_space s))).
  - apply drop_while_end_id, drop_while_end_ends.
  - apply drop_while_end_starts, drop_while_starts.
Qed.

Lemma filter_chars_append p a b :
  filter_chars p (a ++ b) = filter_chars p a ++ filter_chars p b.
Proof.
  induction a as [|c a IH]; push_append; simpl; [reflexivity|].
  destruct (p c); push_append; now rewrite IH.
Qed.

Lemma filter_chars_none (p q : ascii -> bool) s :
  (forall c, q c = true -> p c = false) -> all_chars q s = true ->
  filter_chars p s = EmptyString.
Proof.
  intros Hqp. induction s as [|c s IH]; simpl; [reflexivity|].
  rewrite andb_true_iff. intros [Hc Hs]. now rewrite (Hqp c Hc), IH.
Qed.

Lemma drop_while_split p s :
  exists t, s = t ++ drop_while p s /\ all_chars p t = true.
Proof.
  induction s as [|c s (t & E & Ht)]; simpl; [now exists EmptyString|].
  destruct (p c) eqn:Ec; [|now exists EmptyString].
  exists (String c t). push_append. simpl. rewrite Ec, Ht. split; [|reflexivity].
  now rewrite <- E.
Qed.

Lemma drop_while_end_split p s :
  exists t, s = drop_while_end p s ++ t /\ all_chars p t = true.
Proof.
  induction s as [|c s (t & E & Ht)]; [now exists EmptyString|].
  change (drop_while_end p (String c s))
    with (match drop_while_end p s with
          | EmptyString => if p c then EmptyString else String c EmptyString
          | r => String c r
          end).
  destruct (drop_while_end p s) as [|d r] eqn:Er.
  - destruct (p c) eqn:Ec.
    + exists (String c s). split; [reflexivity|]. simpl. rewrite Ec.
      rewrite E. exact Ht.
    + exists s. split; [reflexivity|]. rewrite E. exact Ht.
  - exists t. split; [|exact Ht]. rewrite E at 1. reflexivity.
Qed.

(** Removing white space at the ends changes nothing for a filter that
    drops white space anyway. *)
Lemma filter_chars_trim p s :
  (forall c, is_space c = true -> p c = false) ->
  filter_chars p (trim s) = filter_chars p s.
Proof.
  intros Hp. unfold trim.
  destruct (drop_while_split is_space s) as (t1 & E1 & H1).
  destruct (drop_while_end_split is_space (drop_while is_space s)) as (t2 & E2 & H2).
  rewrite E1 at 2. rewrite E2 at 2.
  rewrite !filter_chars_append.
  rewrite (filter_chars_none p is_space t1 Hp H1), (filter_chars_none p is_space t2 Hp H2).
  push_append. generalize (filter_chars p (drop_while_end is_space (drop_while is_space s))).
  intros a. induction a as [|c a IH]; push_append; [reflexivity|]. now rewrite <- IH.
Qed.

Lemma space_not_numeric c : is_space c = true -> numeric_char c = false.
Proof. destruct c as [[] [] [] [] [] [] [] []]; vm_compute; congruence. Qed.

(** A text of the numeric shape parses to a finite number. *)
Lemma parseFloat_numeric_finite s :
  matches_numeric s = true -> exists q, parseFloat s = Finite q.
Proof.
  intros Hm. apply matches_numeric_shape in Hm
    as (negative & int & frac & Hne & Hint & _ & ->).
  destruct int as [|c int]; [congruence|].
  simpl in Hint. apply andb_true_iff in Hint as [Hc _].
  destruct (digit_not_sign c Hc) as (Hminus & Hplus & _ & Hspace & HI).
  set (fp := match frac with EmptyString => "" | _ => "." ++ frac end).
  unfold parseFloat.
  assert (Hsign : read_sign (drop_while is_space
                    ((if negative then "-" else "") ++ String c int ++ fp))
                  = (negative, String c (int ++ fp))).
  { destruct negative; push_append; simpl.
    - reflexivity.
    - rewrite Hspace. simpl. now rewrite Hminus, Hplus. }
  rewrite Hsign.
  assert (Hinf : String.prefix "Infinity" (String c (int ++ fp)) = false).
  { apply digit_not_Infinity, Hc. }
  rewrite Hinf.
  pose proof (read_digits_count (10 * 0 + digit_value c) 1 (int ++ fp)) as Hcount.
  simpl read_digits. rewrite Hc.
  destruct (read_digits (10 * 0 + digit_value c) 1 (int ++ fp)) as [[ip ni] s2].
  simpl in Hcount.
  destruct s2 as [|d s2'].
  - destruct ni; [lia|]. simpl. eauto.
  - destruct (is_char "." d).
    + destruct (read_digits ip 0 s2') as [[m nf] s3].
      destruct ni; [lia|]. simpl. eauto.
    + destruct ni; [lia|]. simpl. eauto.
Qed.

(** The text that [coerceValue] parses for a NUMBER is, for a sample of
    the numeric shape, the sample without its separators. *)
Lemma numeric_text_filtered str :
  matches_numeric (filter_chars (fun c => negb (is_char "," c)) (trim str)) = true ->
  filter_chars numeric_char str = filter_chars (fun c => negb (is_char "," c)) (trim str).
Proof.
  intros Hm.
  rewrite <- (filter_chars_trim numeric_char str space_not_numeric).
  rewrite <- (filter_chars_twice numeric_char (fun c => negb (is_char "," c)) (trim str))
    by apply numeric_not_comma.
  apply filter_chars_all. now apply matches_numeric_chars.
Qed.

Lemma includes_cases (l : list string) s : includes l s = true -> In s l.
Proof.
  unfold includes. intros E. apply existsb_exists in E as (x & Hin & Hx).
  apply String.eqb_eq in Hx. now subst.
Qed.

Lemma coerceValue_number_result `{Runtime} (value : JsValue) :
  exists r, coerceValue value NUMBER = Ok r /\
    (r = VNull \/ exists n, r = VNum n /\ isNaN n = false).
Proof.
  unfold coerceValue. destruct (is_empty value); [exists VNull; auto|].
  match goal with
  | |- context [try_catch (bind ?m _) _] => destruct m as [num|e]
  end; simpl.
  - eexists; split; [reflexivity|]. right. eexists; split; [reflexivity|].
    destruct (isNaN num) eqn:En; [reflexivity|exact En].
  - eexists; split; [reflexivity|]. auto.
Qed.

Lemma coerceValue_date_result `{Runtime} (value : JsValue) :
  exists r, coerceValue value DATE = Ok r /\
    (r = VNull \/ exists t, r = VDate (Some t)).
Proof.
  unfold coerceValue. destruct (is_empty value); [exists VNull; auto|].
  match goal with
  | |- context [try_catch (bind ?m _) _] => destruct m as [[t|]|e]
  end; simpl; eexists; (split; [reflexivity|]); eauto.
Qed.

Lemma coerceValue_boolean_result `{Runtime} (value : JsValue) :
  exists r, coerceValue value BOOLEAN = Ok r /\
    (r = VNull \/ r = VNum (Finite 1) \/ r = VNum (Finite 0)).
Proof.
  unfold coerceValue. destruct (is_empty value); [exists VNull; auto|].
  destruct (toString value) as [str|e]; simpl.
  - eexists; split; [reflexivity|].
    match goal with |- context [if ?b then _ else _] => destruct b end; auto.
  - eexists; split; [reflexivity|]. auto.
Qed.

Lemma coerceValue_text_result `{Runtime} (value : JsValue) :
  exists r, coerceValue value TEXT = Ok r /\
    (r = VNull \/ exists s, r = VStr s /\ trim s = s).
Proof.
  unfold coerceValue. destruct (is_empty value); [exists VNull; auto|].
  destruct (toString value) as [str|e]; simpl.
  - eexists; split; [reflexivity|]. right. eexists; split; [reflexivity|].
    apply trim_twice.
  - eexists; split; [reflexivity|]. auto.
Qed.

(** [inferColumnType] on a sample that is neither empty nor a number: the
    classification of its trimmed text. *)
Lemma inferColumnType_of_text `{Runtime} (value : JsValue) :
  is_empty value = false -> (forall n, value <> VNum n) ->
  inferColumnType value =
    bind (toString value) (fun str =>
      if (String.length (trim str) =? 0)%nat then Ok TEXT
      else if includes ["true"; "false"; "yes"; "no"; "1"; "0"] (toLowerCase (trim str))
      then Ok BOOLEAN
      else if negb (isNaN (parseFloat (filter_chars numeric_char (trim str)))) &&
              matches_numeric (filter_chars (fun c => negb (is_char "," c)) (trim str))
      then Ok NUMBER
      else if is_Some_b (dateParse (trim str)) && contains_date_pattern (trim str)
      then Ok DATE
      else Ok TEXT).
Proof.
  intros Ee Hn. unfold inferColumnType. rewrite Ee.
  destruct value as [| |b|n|s|t|items|fields]; try reflexivity.
  exfalso. now apply (Hn n).
Qed.

Lemma inferColumnType_of_number `{Runtime} (value : JsValue) (t : ColumnDataType) :
  inferColumnType value = Ok t -> t <> NUMBER -> forall n, value <> VNum n.
Proof. intros Hi Ht n ->. apply Ht. now injection Hi. Qed.

Lemma inferColumnType_not_empty `{Runtime} (value : JsValue) (t : ColumnDataType) :
  inferColumnType value = Ok t -> t <> TEXT -> is_empty value = false.
Proof.
  intros Hi Ht. destruct (is_empty value) eqn:Ee; [|reflexivity].
  unfold inferColumnType in Hi. rewrite Ee in Hi. exfalso. apply Ht. now injection Hi.
Qed.

Lemma bind_assoc {A B C} (m : Res A) (f : A -> Res B) (g : B -> Res C) :
  bind (bind m f) g = bind m (fun x => bind (f x) g).
Proof. now destruct m. Qed.

(** [coerceValue] on a sample that is not empty, for the types that read
    the text of the sample. *)
Lemma coerceValue_number_of_text `{Runtime} (value : JsValue) :
  is_empty value = false -> (forall n, value <> VNum n) ->
  coerceValue value NUMBER =
    try_catch
      (bind (toString value) (fun str =>
         let num := parseFloat (filter_chars numeric_char str) in
         Ok (VNum (if isNaN num then Finite 0 else num))))
      VNull.
Proof.
  intros Ee Hn. unfold coerceValue. rewrite Ee.
  destruct value as [| |b|n|s|t|items|fields];
    try (exfalso; now apply (Hn n)); now rewrite bind_assoc.
Qed.

Lemma coerceValue_date_of_text `{Runtime} (value : JsValue) :
  is_empty value = false -> (forall t, value <> VDate t) ->
  coerceValue value DATE =
    try_catch
      (bind (toString value) (fun str =>
         match dateParse str with
         | None => Ok VNull
         | Some t => Ok (VDate (Some t))
         end))
      VNull.
Proof.
  intros Ee Hn. unfold coerceValue. rewrite Ee.
  destruct value as [| |b|n|s|t|items|fields];
    try (exfalso; now apply (Hn t)); now rewrite bind_assoc.
Qed.

End CoercionMoreFacts.

Module CoercionProperties.
Import Js ColumnUtils TypeCoercion SanitizeFacts CoercionFacts CoercionMoreFacts Samples.

(** What [coerceValue] returns fits the column of the target type: for
    NUMBER null or a number that is not NaN, for DATE null or a valid
    date, for BOOLEAN null, 1 or 0, for TEXT null or a text with no white
    space at its ends. *)
Theorem coerceValue_fits_the_column `{Runtime} (value : JsValue) :
  (exists r, coerceValue value NUMBER = Ok r /\
     (r = VNull \/ exists n, r = VNum n /\ isNaN n = false)) /\
  (exists r, coerceValue value DATE = Ok r /\
     (r = VNull \/ exists t, r = VDate (Some t))) /\
  (exists r, coerceValue value BOOLEAN = Ok r /\
     (r = VNull \/ r = VNum (Finite 1) \/ r = VNum (Finite 0))) /\
  (exists r, coerceValue value TEXT = Ok r /\
     (r = VNull \/ exists s, r = VStr s /\ trim s = s)).
Proof.
  split; [apply coerceValue_number_result|].
  split; [apply coerceValue_date_result|].
  split; [apply coerceValue_boolean_result|apply coerceValue_text_result].
Qed.

(** Coercing a coerced value to the same type changes nothing, with one
    exception: a value whose text is blank (white space only, or nothing
    at all, as for an empty array) coerces to the empty text as TEXT, and
    the empty text coerces to null. *)
Theorem coerceValue_twice `{Runtime} (value : JsValue) (targetType : ColumnDataType)
    (r : JsValue) :
  coerceValue value targetType = Ok r ->
  coerceValue r targetType = Ok (match r with VStr EmptyString => VNull | _ => r end) /\
  (r = VStr "" ->
   targetType = TEXT /\ value <> VStr "" /\
   exists str, toString value = Ok str /\ trim str = "") /\
  coerceValue (VStr " ") TEXT = Ok (VStr "").
Proof.
  intros E. split; [|split; [|reflexivity]].
  - pose proof (coerceValue_number_result value) as Hn.
    pose proof (coerceValue_date_result value) as Hd.
    pose proof (coerceValue_boolean_result value) as Hb.
    pose proof (coerceValue_text_result value) as Ht.
    destruct targetType.
    + destruct Ht as (r' & E' & [->|(s & -> & Hs)]); rewrite E in E'; injection E' as ->.
      * reflexivity.
      * destruct s as [|c s]; [reflexivity|].
        unfold coerceValue. cbn [is_empty toString bind try_catch]. now rewrite Hs.
    + destruct Hn as (r' & E' & [->|(n & -> & Hnan)]); rewrite E in E'; injection E' as ->.
      * reflexivity.
      * unfold coerceValue. cbn [is_empty bind try_catch]. now rewrite Hnan.
    + destruct Hd as (r' & E' & [->|(t & ->)]); rewrite E in E'; injection E' as ->;
        reflexivity.
    + destruct Hb as (r' & E' & [->|[->| ->]]); rewrite E in E'; injection E' as ->;
        reflexivity.
  - intros ->. unfold coerceValue in E.
    destruct (is_empty value) eqn:Ee; [discriminate|].
    destruct targetType.
    + split; [reflexivity|]. split; [intros ->; discriminate|].
      destruct (toString value) as [str|e] eqn:Es; simpl in E; [|discriminate].
      injection E as E. exists str. now split.
    + exfalso. pose proof (coerceValue_number_result value) as Hn.
      destruct Hn as (r' & E' & [->|(n & -> & _)]); unfold coerceValue in E';
        rewrite Ee, E in E'; discriminate.
    + exfalso. pose proof (coerceValue_date_result value) as Hd.
      destruct Hd as (r' & E' & [->|(t & ->)]); unfold coerceValue in E';
        rewrite Ee, E in E'; discriminate.
    + exfalso. pose proof (coerceValue_boolean_result value) as Hb.
      destruct Hb as (r' & E' & [->|[->| ->]]); unfold coerceValue in E';
        rewrite Ee, E in E'; discriminate.
Qed.

Lemma coerceValue_twice_witness :
  @coerceValue plain_runtime (VStr " 1,250.50 EUR") NUMBER = Ok (VNum (Finite (2501 # 2))) /\
  @coerceValue plain_runtime (VNum (Finite (2501 # 2))) NUMBER = Ok (VNum (Finite (2501 # 2))).
Proof.
  assert (E : @coerceValue plain_runtime (VStr " 1,250.50 EUR") NUMBER
              = Ok (VNum (Finite (2501 # 2)))) by reflexivity.
  split; [exact E|].
  exact (proj1 (@coerceValue_twice plain_runtime _ _ _ E)).
Defined.

(** A sample that is not a number value and is inferred to be a NUMBER
    is a numeral once its thousands separators and the white space around
    it are removed, and [coerceValue] gives the number that [parseFloat]
    reads from that numeral, which is not NaN: never the default 0 of a
    text without a number. *)
Theorem inferred_number_is_parsed `{Runtime} (value : JsValue) :
  inferColumnType value = Ok NUMBER ->
  (forall n, value <> VNum n) ->
  exists str,
    toString value = Ok str /\
    let numeral := filter_chars (fun c => negb (is_char "," c)) (trim str) in
    numeric_shape numeral /\
    isNaN (parseFloat numeral) = false /\
    coerceValue value NUMBER = Ok (VNum (parseFloat numeral)).
Proof.
  intros Hi Hnum.
  assert (Ee : is_empty value = false)
    by (apply (inferColumnType_not_empty value NUMBER Hi); discriminate).
  rewrite (inferColumnType_of_text value Ee Hnum) in Hi.
  rewrite (coerceValue_number_of_text value Ee Hnum).
  destruct (toString value) as [str|e]; [|discriminate]. cbn [bind] in *.
  destruct (String.length (trim str) =? 0)%nat; [discriminate|].
  destruct (includes ["true"; "false"; "yes"; "no"; "1"; "0"] (toLowerCase (trim str)));
    [discriminate|].
  destruct (matches_numeric (filter_chars (fun c => negb (is_char "," c)) (trim str)))
    eqn:Hm.
  2:{ rewrite andb_false_r in Hi. destruct (_ && _) in Hi; discriminate. }
  destruct (parseFloat_numeric_finite _ Hm) as [q Hq].
  exists str. split; [reflexivity|]. cbv zeta.
  split; [now apply matches_numeric_shape|].
  rewrite (numeric_text_filtered str Hm), Hq. split; reflexivity.
Qed.

Lemma inferred_number_is_parsed_witness :
  @coerceValue plain_runtime (VStr " -1,250.50 ") NUMBER = Ok (VNum (Finite (-2501 # 2))).
Proof.
  destruct (@inferred_number_is_parsed plain_runtime (VStr " -1,250.50 "))
    as (str & Hstr & _ & _ & E).
  - reflexivity.
  - intros n. discriminate.
  - injection Hstr as <-. rewrite E. reflexivity.
Defined.

(** A sample inferred to be a BOOLEAN coerces to 1 when its trimmed,
    lower-case text is true, yes or 1, and to 0 when it is false, no or 0.
    A sample inferred to be a DATE has a text that the date parser reads
    once trimmed; [coerceValue] parses the text as it is, and returns that
    same date when the parser does not mind the white space. *)
Theorem inferred_boolean_and_date_coerce `{Runtime} (value : JsValue) :
  (inferColumnType value = Ok BOOLEAN ->
   exists str, toString value = Ok str /\
     (In (toLowerCase (trim str)) ["true"; "yes"; "1"] /\
        coerceValue value BOOLEAN = Ok (VNum (Finite 1)) \/
      In (toLowerCase (trim str)) ["false"; "no"; "0"] /\
        coerceValue value BOOLEAN = Ok (VNum (Finite 0)))) /\
  (inferColumnType value = Ok DATE -> (forall t, value <> VDate t) ->
   exists str t, toString value = Ok str /\ dateParse (trim str) = Some t /\
     (dateParse str = dateParse (trim str) ->
      coerceValue value DATE = Ok (VDate (Some t)))).
Proof.
  split.
  - intros Hi.
    assert (Ee : is_empty value = false)
      by (apply (inferColumnType_not_empty value BOOLEAN Hi); discriminate).
    assert (Hnum : forall n, value <> VNum n)
      by (apply (inferColumnType_of_number value BOOLEAN Hi); discriminate).
    rewrite (inferColumnType_of_text value Ee Hnum) in Hi.
    unfold coerceValue. rewrite Ee.
    destruct (toString value) as [str|e]; [|discriminate]. cbn [bind try_catch] in *.
    exists str. split; [reflexivity|].
    destruct (String.length (trim str) =? 0)%nat; [discriminate|].
    destruct (includes ["true"; "false"; "yes"; "no"; "1"; "0"] (toLowerCase (trim str)))
      eqn:Hin.
    2:{ destruct (_ && _) in Hi; [discriminate|]. destruct (_ && _) in Hi; discriminate. }
    destruct (includes ["true"; "1"; "yes"] (toLowerCase (trim str))) eqn:E3.
    + left. split; [|reflexivity].
      apply includes_cases in E3. simpl in *. tauto.
    + right. split; [|reflexivity].
      apply includes_cases in Hin.
      assert (Hn : ~ In (toLowerCase (trim str)) ["true"; "1"; "yes"]).
      { intros Hc. unfold includes in E3.
        assert (existsb (String.eqb (toLowerCase (trim str))) ["true"; "1"; "yes"] = true).
        { apply existsb_exists. exists (toLowerCase (trim str)).
          split; [exact Hc|apply String.eqb_refl]. }
        congruence. }
      simpl in *. tauto.
  - intros Hi Hnd.
    assert (Ee : is_empty value = false)
      by (apply (inferColumnType_not_empty value DATE Hi); discriminate).
    assert (Hnum : forall n, value <> VNum n)
      by (apply (inferColumnType_of_number value DATE Hi); discriminate).
    rewrite (inferColumnType_of_text value Ee Hnum) in Hi.
    rewrite (coerceValue_date_of_text value Ee Hnd).
    destruct (toString value) as [str|e]; [|discriminate]. cbn [bind try_catch] in *.
    destruct (String.length (trim str) =? 0)%nat; [discriminate|].
    destruct (includes ["true"; "false"; "yes"; "no"; "1"; "0"] (toLowerCase (trim str)));
      [discriminate|].
    destruct (_ && matches_numeric _) in Hi; [discriminate|].
    destruct (dateParse (trim str)) as [t|] eqn:Et; [|discriminate].
    exists str, t. split; [reflexivity|]. split; [exact Et|].
    intros Hsame. now rewrite Hsame, Et.
Qed.

End CoercionProperties.

(* ===================================================================== *)
(** * More about the schema registry                                     *)
(* ===================================================================== *)

Module RegistryFacts.
Import Js ColumnUtils TypeCoercion Sql SchemaManager SchemaFacts RegistryInvariant.

Section WithCollation.
Context {collation : Collation}.

(** The comparison of keys is an equivalence. *)
Lemma same_key_refl sid sname i : same_key sid sname i sid sname i = true.
Proof. unfold same_key. now rewrite !same_text_refl, Z.eqb_refl. Qed.

Lemma same_key_split sid sname i sid' sname' i' :
  same_key sid sname i sid' sname' i' = true <->
  same_text sid sid' = true /\ same_text sname sname' = true /\ i = i'.
Proof. unfold same_key. rewrite !andb_true_iff, Z.eqb_eq. tauto. Qed.

Lemma same_key_sym sid sname i sid' sname' i' :
  same_key sid sname i sid' sname' i' = true -> same_key sid' sname' i' sid sname i = true.
Proof.
  rewrite !same_key_split. intros (Hs & Hn & ->).
  repeat split; now apply same_text_sym.
Qed.


Lemma key_matches_same_key sid sname i k r :
  key_matches sid sname i (k, r) = same_key (sheet_id r) (sheet_name r) (column_index r) sid sname i.
Proof. reflexivity. Qed.





Lemma lookup_key_inv sid sname i reg k r :
  lookup_key sid sname i reg = Some (k, r) ->
  rows reg !! k = Some r /\ key_matches sid sname i (k, r) = true.
Proof. apply find_rows_some. Qed.

Lemma lookup_key_none sid sname i reg k r :
  lookup_key sid sname i reg = None -> rows reg !! k = Some r ->
  key_matches sid sname i (k, r) = false.
Proof. apply find_rows_none. Qed.


Lemma select_mapping_lookup sid sname i reg :
  select_mapping sid sname i reg =
    match lookup_key sid sname i reg with
    | Some (k, r) => [as_column k r]
    | None => []
    end.
Proof. reflexivity. Qed.

(** One call on a registry that has the mapping. *)
Lemma ensureColumnMapping_found now sid sname i t reg k r :
  lookup_key sid sname i reg = Some (k, r) ->
  ensureColumnMapping now sid sname i t reg =
    (Ok (as_column k (with_type (updated_at r) (type_after (data_type r) t) r)),
     if negb (bool_decide (data_type r = t)) && bool_decide (data_type r = TEXT)
     then update_data_type now k t reg else reg).
Proof.
  intros Hl. unfold ensureColumnMapping. rewrite select_mapping_lookup, Hl.
  unfold type_after. cbn [dataType as_column].
  destruct (negb (bool_decide (data_type r = t)) && bool_decide (data_type r = TEXT)).
  - reflexivity.
  - destruct r; reflexivity.
Qed.

(** One call on a registry that does not have the mapping. *)
Lemma ensureColumnMapping_missing now sid sname i t reg :
  fresh_counter reg ->
  lookup_key sid sname i reg = None ->
  ensureColumnMapping now sid sname i t reg =
    (Ok (as_column (auto_increment reg) (new_row now sid sname i t)),
     {| rows := <[auto_increment reg := new_row now sid sname i t]> (rows reg);
        auto_increment := auto_increment reg + 1 |}).
Proof.
  intros Hf Hl. unfold ensureColumnMapping. rewrite select_mapping_lookup, Hl.
  unfold insert_mapping. fold (lookup_key sid sname i reg). rewrite Hl.
  assert (Hnone : rows reg !! auto_increment reg = None).
  { destruct (rows reg !! auto_increment reg) as [r|] eqn:E; [|reflexivity].
    apply Hf in E. lia. }
  rewrite Hnone. cbn [is_Some_b orb].
  rewrite select_mapping_lookup.
  fold (new_row now sid sname i t).
  set (reg' := {| rows := <[auto_increment reg := new_row now sid sname i t]> (rows reg);
                  auto_increment := auto_increment reg + 1 |}).
  assert (Hnew : rows reg' !! auto_increment reg = Some (new_row now sid sname i t))
    by apply lookup_insert_eq.
  assert (Hm : key_matches sid sname i (auto_increment reg, new_row now sid sname i t) = true)
    by apply same_key_refl.
  destruct (lookup_key sid sname i reg') as [[k1 r1]|] eqn:El'.
  - apply lookup_key_inv in El' as [Hk1 Hm1].
    destruct (decide (k1 = auto_increment reg)) as [->|Hne].
    + rewrite Hnew in Hk1. now injection Hk1 as <-.
    + unfold reg' in Hk1. simpl in Hk1. rewrite lookup_insert_ne in Hk1 by congruence.
      pose proof (lookup_key_none _ _ _ _ _ _ Hl Hk1). congruence.
  - pose proof (lookup_key_none _ _ _ _ _ _ El' Hnew). congruence.
Qed.

(** The rows of the registry after a call: the rows it had, one of them
    with a new type and time at most, and the row of a new mapping at
    most. *)
Lemma rows_after_call now sid sname i t reg k r' :
  fresh_counter reg ->
  rows (ensureColumnMapping now sid sname i t reg).2 !! k = Some r' ->
  (exists r, rows reg !! k = Some r /\
     sheet_id r' = sheet_id r /\ sheet_name r' = sheet_name r /\
     column_index r' = column_index r) \/
  (k = auto_increment reg /\ rows reg !! k = None /\
   lookup_key sid sname i reg = None /\ r' = new_row now sid sname i t).
Proof.
  intros Hf. destruct (lookup_key sid sname i reg) as [[k0 r0]|] eqn:El.
  - rewrite (ensureColumnMapping_found _ _ _ _ _ _ _ _ El). cbn [snd].
    destruct (negb (bool_decide (data_type r0 = t)) && bool_decide (data_type r0 = TEXT)).
    + unfold update_data_type. cbn [rows]. destruct (decide (k = k0)) as [->|Hne].
      * rewrite lookup_alter_eq. apply lookup_key_inv in El as [Hk0 _]. rewrite Hk0.
        cbn. intros [= <-]. left. exists r0. split; [reflexivity|].
        destruct (decide (data_type r0 = t)); repeat split.
      * rewrite lookup_alter_ne by congruence. intros Hk. left. exists r'. repeat split.
        exact Hk.
    + intros Hk. left. exists r'. repeat split. exact Hk.
  - rewrite (ensureColumnMapping_missing _ _ _ _ _ _ Hf El). cbn [snd rows].
    destruct (decide (k = auto_increment reg)) as [->|Hne].
    + rewrite lookup_insert_eq. intros [= <-]. right. repeat split.
      destruct (rows reg !! auto_increment reg) as [r|] eqn:E; [|reflexivity].
      apply Hf in E. lia.
    + rewrite lookup_insert_ne by congruence. intros Hk. left. exists r'. repeat split.
      exact Hk.
Qed.

Lemma auto_increment_after_call now sid sname i t reg :
  auto_increment reg <= auto_increment (ensureColumnMapping now sid sname i t reg).2
  <= auto_increment reg + 1.
Proof.
  unfold ensureColumnMapping.
  destruct (select_mapping sid sname i reg) as [|row rest].
  - unfold insert_mapping.
    destruct (_ || _); [simpl; lia|]. cbn zeta.
    destruct (select_mapping _ _ _ _); simpl; lia.
  - destruct (negb _ && _); simpl; lia.
Qed.

(** A call keeps the constraints of the table. *)
Lemma consistent_after_call now sid sname i t reg :
  consistent reg -> consistent (ensureColumnMapping now sid sname i t reg).2.
Proof.
  intros [Hu Hf]. split.
  - intros k1 r1 k2 r2 H1 H2 Hm.
    rewrite key_matches_same_key in Hm.
    destruct (rows_after_call _ _ _ _ _ _ _ _ Hf H1)
      as [(o1 & Ho1 & Es1 & En1 & Ei1)|(-> & Hn1 & Hl1 & ->)];
    destruct (rows_after_call _ _ _ _ _ _ _ _ Hf H2)
      as [(o2 & Ho2 & Es2 & En2 & Ei2)|(-> & Hn2 & Hl2 & ->)].
    + apply (Hu k1 o1 k2 o2 Ho1 Ho2). rewrite key_matches_same_key.
      now rewrite <- Es1, <- En1, <- Ei1, <- Es2, <- En2, <- Ei2.
    + exfalso. pose proof (lookup_key_none _ _ _ _ _ _ Hl2 Ho1) as Hno.
      rewrite key_matches_same_key, <- Es1, <- En1, <- Ei1 in Hno.
      apply same_key_sym in Hm. cbn [new_row sheet_id sheet_name column_index] in Hm.
      congruence.
    + exfalso. pose proof (lookup_key_none _ _ _ _ _ _ Hl1 Ho2) as Hno.
      rewrite key_matches_same_key, <- Es2, <- En2, <- Ei2 in Hno.
      cbn [new_row sheet_id sheet_name column_index] in Hm. congruence.
    + reflexivity.
  - intros k r' Hk.
    pose proof (auto_increment_after_call now sid sname i t reg) as Hle.
    destruct (rows_after_call _ _ _ _ _ _ _ _ Hf Hk)
      as [(o & Ho & _)|(-> & _ & Hl & _)].
    + apply Hf in Ho. lia.
    + rewrite (ensureColumnMapping_missing _ _ _ _ _ _ Hf Hl). simpl. lia.
Qed.

Lemma consistent_after_calls cs reg : consistent reg -> consistent (run_calls cs reg).
Proof.
  revert reg. induction cs as [|c cs IH]; intros reg Hc; [exact Hc|].
  simpl. apply IH. now apply consistent_after_call.
Qed.

(** A call keeps every row, as the same mapping, with the type it had or
    with the type asked for when it was TEXT. *)
Lemma same_mapping_refl r : same_mapping r r.
Proof. repeat split. Qed.

Lemma same_mapping_trans r1 r2 r3 :
  same_mapping r1 r2 -> same_mapping r2 r3 -> same_mapping r1 r3.
Proof. unfold same_mapping. intuition congruence. Qed.

Lemma row_after_call now sid sname i t reg k r :
  rows reg !! k = Some r ->
  exists r', rows (ensureColumnMapping now sid sname i t reg).2 !! k = Some r' /\
    same_mapping r r' /\ (data_type r' = data_type r \/ data_type r = TEXT).
Proof.
  intros Hk.
  destruct (ensureColumnMapping_row now sid sname i t reg k r Hk) as [E|(Ht & _ & _ & E)].
  - exists r. split; [exact E|]. split; [apply same_mapping_refl|now left].
  - exists (with_type now t r). split; [exact E|]. split; [repeat split|now right].
Qed.

Lemma row_after_calls cs reg k r :
  rows reg !! k = Some r ->
  exists r', rows (run_calls cs reg) !! k = Some r' /\
    same_mapping r r' /\ (data_type r' = data_type r \/ data_type r = TEXT).
Proof.
  revert reg r. induction cs as [|c cs IH]; intros reg r Hk.
  - exists r. split; [exact Hk|]. split; [apply same_mapping_refl|now left].
  - destruct (row_after_call (call_now c) (call_sheetId c) (call_sheetName c)
                (call_columnIndex c) (call_dataType c) reg k r Hk)
      as (r1 & Hk1 & Hs1 & Ht1).
    destruct (IH (run_call c reg) r1 Hk1) as (r' & Hk' & Hs' & Ht').
    exists r'. split; [exact Hk'|]. split; [eapply same_mapping_trans; eauto|].
    destruct Ht1 as [Ht1|Ht1]; [|now right].
    destruct Ht' as [Ht'|Ht']; [left|right]; congruence.
Qed.






(** The registry with no rows, and the one with a single row. *)
Lemma lookup_key_empty sid sname i k :
  lookup_key sid sname i {| rows := ∅; auto_increment := k |} = None.
Proof. unfold lookup_key. cbn [rows]. now rewrite map_to_list_empty. Qed.

Lemma lookup_key_single sid sname i k r next :
  lookup_key sid sname i {| rows := <[k := r]> ∅; auto_increment := next |}
  = if key_matches sid sname i (k, r) then Some (k, r) else None.
Proof.
  unfold lookup_key. cbn [rows]. rewrite insert_empty, map_to_list_singleton. reflexivity.
Qed.

End WithCollation.

End RegistryFacts.

Module RegistryProperties.
Import Js ColumnUtils TypeCoercion Sql SchemaManager SchemaFacts RegistryInvariant RegistryFacts.
Import Samples.

Section WithCollation.
Context {collation : Collation}.

(** Whatever its calls return, a run of [ensureColumnMapping] keeps what
    the registry holds: every row is still there under its id, as the
    mapping of the same column of the same tab, with the header, the
    canonical name, the deprecation flag and the creation time it had,
    and with the type it had unless that was TEXT.  A registry that
    satisfies the constraints of its table (the unique key on sheet, tab
    and column index, as the database compares them, and a counter above
    the ids in use) satisfies them after the run. *)
Theorem ensureColumnMapping_keeps_the_constraints (cs : list Call) (reg : Registry) :
  (forall k r, rows reg !! k = Some r ->
     exists r', rows (run_calls cs reg) !! k = Some r' /\ same_mapping r r' /\
       (data_type r' = data_type r \/ data_type r = TEXT)) /\
  (consistent reg -> consistent (run_calls cs reg)).
Proof.
  split.
  - intros k r Hk. now apply row_after_calls.
  - apply consistent_after_calls.
Qed.



End WithCollation.




End RegistryProperties.

(* ===================================================================== *)
(** * The names of new columns                                           *)
(* ===================================================================== *)

Module NamingFacts.
Import Js ColumnUtils SanitizeFacts SchemaManager ColumnNameFacts.

(** A number has at most as many decimal digits as binary ones. *)
Lemma double_digits d :
  (Decimal.nb_digits (Little.double d) <= S (Decimal.nb_digits d))%nat /\
  (Decimal.nb_digits (Little.succ_double d) <= S (Decimal.nb_digits d))%nat.
Proof. induction d; simpl; lia. Qed.

Lemma to_little_uint_digits p :
  (Decimal.nb_digits (Pos.to_little_uint p) <= Pos.size_nat p)%nat.
Proof.
  induction p as [p IH|p IH|]; simpl.
  - pose proof (proj2 (double_digits (Pos.to_little_uint p))). lia.
  - pose proof (proj1 (double_digits (Pos.to_little_uint p))). lia.
  - lia.
Qed.

Lemma size_nat_bound p n : Z.pos p < 2 ^ Z.of_nat n -> (Pos.size_nat p <= n)%nat.
Proof.
  revert n. induction p as [p IH|p IH|]; intros n Hp; destruct n as [|n];
    try (simpl in Hp; lia).
  - rewrite Nat2Z.inj_succ, Z.pow_succ_r in Hp by lia.
    specialize (IH n ltac:(lia)). simpl. lia.
  - rewrite Nat2Z.inj_succ, Z.pow_succ_r in Hp by lia.
    specialize (IH n ltac:(lia)). simpl. lia.
  - simpl. lia.
Qed.

Lemma length_string_of_uint d :
  String.length (NilEmpty.string_of_uint d) = Decimal.nb_digits d.
Proof. induction d; simpl; congruence. Qed.

Lemma length_string_of_Z i n :
  0 <= i < 2 ^ Z.of_nat n -> (String.length (string_of_Z i) <= Nat.max 1 n)%nat.
Proof.
  intros [Hi Hn]. unfold string_of_Z. destruct i as [|p|p]; [simpl; lia| |lia].
  simpl. pose proof (Unsigned.to_uint_nonnil p) as Hnil.
  assert (Hlen : (Decimal.nb_digits (Pos.to_uint p) <= n)%nat).
  { unfold Pos.to_uint. rewrite DecimalFacts.nb_digits_rev.
    pose proof (to_little_uint_digits p). pose proof (size_nat_bound p n Hn). lia. }
  destruct (Pos.to_uint p) eqn:E; try congruence;
    rewrite <- length_string_of_uint in Hlen; simpl in Hlen |- *; lia.
Qed.

(** The default name of a column whose index fits the column
    column_index of the registry: col_ and the index in decimal. *)
Lemma default_name_of_index i :
  0 <= i < 2 ^ 31 ->
  sanitizeIdentifier (defaultMysqlColumnName i) = "col_" ++ string_of_Z i.
Proof.
  intros Hi. rewrite sanitize_default_name by lia.
  unfold defaultMysqlColumnName.
  change (substring 0 64 ("col_" ++ string_of_Z i))
    with ("col_" ++ substring 0 60 (string_of_Z i)).
  rewrite substring_short; [reflexivity|].
  pose proof (length_string_of_Z i 31 Hi). simpl in *. lia.
Qed.

End NamingFacts.

Module NamingClaims.
Import Js ColumnUtils TypeCoercion Sql SchemaManager SchemaFacts.
Import RegistryInvariant RegistryFacts NamingFacts Samples.

Section WithCollation.
Context {collation : Collation}.

(** C7 (evaluation at the failing input).  The columns 0 and 1 of a tab
    both carry the header Price; they are mapped one after the other,
    starting from the empty registry.  The specification names them price
    and price_1.  [ensureColumnMapping] is not given the headers: it
    records the headers col_0 and col_1 and generates the canonical names
    col_0 and col_1, whatever collation the database compares with.  In
    general the header and the canonical name of a new mapping are col_
    followed by the column index, for every index that fits the column
    column_index, whatever the registry holds: no name is derived from a
    header and no suffix is appended. *)
Theorem second_price_column_is_col_1 :
  (exists first second reg1 reg2,
     ensureColumnMapping 10 "S" "Tab" 0 TEXT empty_registry = (Ok first, reg1) /\
     ensureColumnMapping 20 "S" "Tab" 1 TEXT reg1 = (Ok second, reg2) /\
     columnHeader first = "col_0" /\ mysqlColumnName first = "col_0" /\
     columnHeader second = "col_1" /\ mysqlColumnName second = "col_1" /\
     canonical_names_spec [] ["Price"; "Price"] = ["price"; "price_1"] /\
     [mysqlColumnName first; mysqlColumnName second]
     <> canonical_names_spec [] ["Price"; "Price"]) /\
  (forall now sid sname i t reg col reg',
     0 <= i < 2 ^ 31 ->
     select_mapping sid sname i reg = [] ->
     ensureColumnMapping now sid sname i t reg = (Ok col, reg') ->
     columnHeader col = "col_" ++ string_of_Z i /\
     mysqlColumnName col = "col_" ++ string_of_Z i).
Proof.
  split.
  - assert (Hf0 : fresh_counter empty_registry).
    { intros k r Hk. simpl in Hk. rewrite lookup_empty in Hk. discriminate. }
    pose proof (ensureColumnMapping_missing 10 "S" "Tab" 0 TEXT empty_registry Hf0
                  (lookup_key_empty "S" "Tab" 0 1)) as E1.
    set (reg1 := {| rows := <[auto_increment empty_registry := new_row 10 "S" "Tab" 0 TEXT]>
                              (rows empty_registry);
                    auto_increment := auto_increment empty_registry + 1 |}) in E1.
    assert (Hf1 : fresh_counter reg1).
    { intros k r Hk. unfold reg1 in Hk |- *.
      cbn [rows auto_increment empty_registry] in Hk |- *.
      apply lookup_insert_Some in Hk as [[<- _]|[_ Hk]]; [lia|].
      rewrite lookup_empty in Hk. discriminate. }
    assert (Hl1 : lookup_key "S" "Tab" 1 reg1 = None).
    { unfold reg1. cbn [rows auto_increment empty_registry].
      rewrite lookup_key_single.
      replace (key_matches "S" "Tab" 1 (1, new_row 10 "S" "Tab" 0 TEXT)) with false;
        [reflexivity|].
      symmetry. apply andb_false_intro2. reflexivity. }
    pose proof (ensureColumnMapping_missing 20 "S" "Tab" 1 TEXT reg1 Hf1 Hl1) as E2.
    do 4 eexists. split; [exact E1|]. split; [exact E2|].
    cbn [columnHeader mysqlColumnName as_column new_row column_header mysql_column_name].
    assert (N0 : sanitizeIdentifier (defaultMysqlColumnName 0) = "col_0")
      by (vm_compute; reflexivity).
    assert (N1 : sanitizeIdentifier (defaultMysqlColumnName 1) = "col_1")
      by (vm_compute; reflexivity).
    assert (S : canonical_names_spec [] ["Price"; "Price"] = ["price"; "price_1"])
      by (vm_compute; reflexivity).
    rewrite N0, N1, S.
    split; [reflexivity|]. split; [reflexivity|]. split; [reflexivity|].
    split; [reflexivity|]. split; [reflexivity|]. discriminate.
  - intros now sid sname i t reg col reg' Hi Hsel E.
    destruct (ensureColumnMapping_new _ _ _ _ _ _ _ _ Hsel E) as (Hname & Hhdr & _).
    rewrite Hname, Hhdr, (default_name_of_index i Hi). split; reflexivity.
Qed.

End WithCollation.

End NamingClaims.

(* ===================================================================== *)
(** * More about the DB->Sheet job processor                             *)
(* ===================================================================== *)

Module WorkerFacts.
Import Js Queues DbToSheetWorker DbToSheetDelivery WorkerClaims.

Lemma alter_absent {A} (f : A -> A) (k : Z) (t : gmap Z A) :
  t !! k = None -> alter f k t = t.
Proof.
  intros Hk. apply map_eq. intros i. destruct (decide (i = k)) as [->|Hne].
  - now rewrite lookup_alter_eq, Hk.
  - now rewrite lookup_alter_ne.
Qed.

(** The three ways a run of [processJob] goes when the table of the job
    exists. *)
Lemma processJob_cases ans now job w t :
  tables w !! tableName job = Some t ->
  processJob ans now job w =
    match updateSheetRow_error ans, audit_insert_error ans with
    | Some e, _ =>
        (Throw e,
         {| tables := <[tableName job := alter mark_error (rowId job) t]> (tables w);
            sync_audit_log := sync_audit_log w;
            sheet_writes := sheet_writes w |})
    | None, Some e =>
        (Throw e,
         {| tables := <[tableName job :=
                         alter mark_error (rowId job)
                           (alter (mark_synced now) (rowId job) t)]> (tables w);
            sync_audit_log := sync_audit_log w;
            sheet_writes := sheet_writes w ++ [write_of job] |})
    | None, None =>
        (Ok tt,
         {| tables := <[tableName job := alter (mark_synced now) (rowId job) t]> (tables w);
            sync_audit_log :=
              sync_audit_log w ++
              [{| operation_type := "DB_TO_SHEET"; details := audit_details job;
                  created_at := now |}];
            sheet_writes := sheet_writes w ++ [write_of job] |})
    end.
Proof.
  intros Ht. unfold processJob, try_block, updateSheetRow, insert_audit.
  destruct (updateSheetRow_error ans) as [e|].
  - unfold update_row. now rewrite Ht.
  - unfold update_row at 1. cbn [tables]. rewrite Ht.
    destruct (audit_insert_error ans) as [e|]; [|reflexivity].
    unfold update_row. cbn [tables sync_audit_log sheet_writes].
    rewrite lookup_insert_eq. now rewrite insert_insert_eq.
Qed.

(** When the table does not exist. *)
Lemma processJob_no_table ans now job w :
  tables w !! tableName job = None ->
  processJob ans now job w =
    (Throw "ER_NO_SUCH_TABLE",
     {| tables := tables w; sync_audit_log := sync_audit_log w;
        sheet_writes :=
          match updateSheetRow_error ans with
          | Some _ => sheet_writes w
          | None => sheet_writes w ++ [write_of job]
          end |}).
Proof.
  intros Ht. unfold processJob, try_block, updateSheetRow.
  destruct (updateSheetRow_error ans) as [e|]; unfold update_row; cbn [tables];
    rewrite !Ht; cbn [tables]; rewrite ?Ht; [now destruct w|reflexivity].
Qed.

(** One attempt on a world that has the row of the job: the row is still
    there afterwards with the data it had; it is SYNCED and stamped when
    the attempt returned; when the attempt threw it is ERROR if the
    database executed the UPDATE of the catch block, and as it was if the
    database rejected both UPDATE statements.  The sheet has received the
    write when the Sheets API accepted it. *)
Lemma processJob_with_step upd ans now job w t r :
  tables w !! tableName job = Some t -> t !! rowId job = Some r ->
  exists res w1 t1 r1,
    processJob_with upd ans now job w = (res, w1) /\
    tables w1 !! tableName job = Some t1 /\ t1 !! rowId job = Some r1 /\
    same_data r r1 /\
    sheet_writes w1 =
      (sheet_writes w ++
       repeat (write_of job)
         (if is_Some_b (updateSheetRow_error ans) then 0 else 1))%list /\
    match res with
    | Ok _ =>
        _sync_status r1 = SYNCED /\ _synced_at r1 = Some now /\
        updateSheetRow_error ans = None /\ mark_synced_error upd = None /\
        audit_insert_error ans = None
    | Throw _ =>
        (mark_error_error upd = None -> _sync_status r1 = ERROR) /\
        (mark_synced_error upd <> None -> mark_error_error upd <> None -> r1 = r)
    end.
Proof.
  intros Ht Hr. rewrite (processJob_with_cases upd ans now job w t Ht). cbv zeta.
  destruct (updateSheetRow_error ans) as [e0|];
    destruct (mark_synced_error upd) as [e1|];
    destruct (mark_error_error upd) as [e2|];
    destruct (audit_insert_error ans) as [e3|];
    do 4 eexists;
    (split; [reflexivity|]);
    cbn [tables sheet_writes is_Some_b repeat];
    (split; [first [apply lookup_insert_eq|exact Ht]|]);
    (split; [first [rewrite lookup_alter_eq, Hr; reflexivity|exact Hr]|]);
    (split; [now repeat split|]);
    (split; [first [now rewrite app_nil_r|reflexivity]|]);
    repeat split; try reflexivity; try discriminate;
    try (intros Hno; now destruct Hno); try (intros _ Hno; now destruct Hno).
Qed.

Lemma same_data_trans r1 r2 r3 : same_data r1 r2 -> same_data r2 r3 -> same_data r1 r3.
Proof. unfold same_data. intuition congruence. Qed.

(** A job run to its end from a world that has its row. *)
Lemma attempt_job_outcome opts updates answers clock job fuel :
  forall made w t r,
    attempts opts = made + Z.of_nat fuel -> (0 < fuel)%nat ->
    tables w !! tableName job = Some t -> t !! rowId job = Some r ->
    exists state made' w' r',
      attempt_job opts updates answers clock job fuel made w = (state, made', w') /\
      made < made' <= attempts opts /\
      (state = Failed -> made' = attempts opts) /\
      row_of w' (tableName job) (rowId job) = Some r' /\
      same_data r r' /\
      (state = Completed ->
         _sync_status r' = SYNCED /\ _synced_at r' = Some (clock made') /\
         updateSheetRow_error (answers made') = None /\
         mark_synced_error (updates made') = None /\
         audit_insert_error (answers made') = None) /\
      (state = Failed -> mark_error_error (updates made') = None ->
         _sync_status r' = ERROR) /\
      ((forall k, mark_synced_error (updates k) <> None /\
                  mark_error_error (updates k) <> None) ->
       state = Failed /\ r' = r) /\
      sheet_writes w' =
        (sheet_writes w ++
         repeat (write_of job) (writes_accepted answers made (Z.to_nat (made' - made))))%list.
Proof.
  induction fuel as [|fuel IH]; intros made w t r Ha Hfuel Ht Hr; [lia|].
  cbn [attempt_job].
  destruct (processJob_with_step (updates (made + 1)) (answers (made + 1))
              (clock (made + 1)) job w t r Ht Hr)
    as (res & w1 & t1 & r1 & E & Ht1 & Hr1 & Hd1 & Hw1 & Hres).
  rewrite E.
  assert (Hone : Z.to_nat (made + 1 - made) = 1%nat) by lia.
  destruct res as [u|e].
  - destruct Hres as (Hst & Hat & Hs & Hm & Ha').
    exists Completed, (made + 1), w1, r1.
    split; [reflexivity|]. split; [lia|]. split; [discriminate|].
    split; [unfold row_of; now rewrite Ht1|]. split; [exact Hd1|].
    split; [now intros _|]. split; [discriminate|].
    split; [intros Hall; now destruct (proj1 (Hall (made + 1)))|].
    rewrite Hw1, Hone. cbn [writes_accepted]. now rewrite Nat.add_0_r.
  - destruct Hres as (Herr & Hsame).
    destruct (made + 1 <? attempts opts) eqn:Elt.
    + apply Z.ltb_lt in Elt.
      destruct (IH (made + 1) w1 t1 r1 ltac:(lia) ltac:(lia) Ht1 Hr1)
        as (state & made' & w' & r' & E' & Hm & Hf & Hrow & Hd & Hc & He & Hrej & Hw).
      exists state, made', w', r'. split; [exact E'|]. split; [lia|].
      split; [exact Hf|]. split; [exact Hrow|].
      split; [eapply same_data_trans; eauto|]. split; [exact Hc|]. split; [exact He|].
      split.
      { intros Hall. destruct (Hrej Hall) as [-> ->]. split; [reflexivity|].
        apply Hsame; apply (Hall (made + 1)). }
      rewrite Hw, Hw1, <- app_assoc, <- repeat_app. do 2 f_equal.
      replace (Z.to_nat (made' - made)) with (S (Z.to_nat (made' - (made + 1)))) by lia.
      reflexivity.
    + apply Z.ltb_ge in Elt.
      exists Failed, (made + 1), w1, r1.
      split; [reflexivity|]. split; [lia|]. split; [lia|].
      split; [unfold row_of; now rewrite Ht1|]. split; [exact Hd1|].
      split; [discriminate|]. split; [intros _; exact Herr|].
      split; [intros Hall; split; [reflexivity|apply Hsame; apply (Hall (made + 1))]|].
      rewrite Hw1, Hone. cbn [writes_accepted]. now rewrite Nat.add_0_r.
Qed.

End WorkerFacts.

Module WorkerProperties.
Import Js Queues DbToSheetWorker DbToSheetDelivery WorkerClaims WorkerFacts Samples.

(** One run of [processJob] touches nothing but the row of the job: every
    other table and every other row of its table are as they were, no
    table and no row is created or deleted, at most one write reaches the
    sheet (the one of the job) and at most one entry is added to the audit
    log; the entry is added exactly when the job returns, after the sheet
    has been written. *)
Theorem processJob_touches_one_row
    (ans : Answers) (now : Z) (job : DbToSheetJobData) (w : World) :
  let result := processJob ans now job w in
  (forall tbl, tbl <> tableName job -> tables result.2 !! tbl = tables w !! tbl) /\
  (forall k, k <> rowId job ->
     row_of result.2 (tableName job) k = row_of w (tableName job) k) /\
  (forall tbl k, is_Some (row_of result.2 tbl k) <-> is_Some (row_of w tbl k)) /\
  (sheet_writes result.2 = sheet_writes w \/
   sheet_writes result.2 = (sheet_writes w ++ [write_of job])%list) /\
  (result.1 = Ok tt ->
     sheet_writes result.2 = (sheet_writes w ++ [write_of job])%list /\
     exists entry, sync_audit_log result.2 = (sync_audit_log w ++ [entry])%list) /\
  (forall e, result.1 = Throw e -> sync_audit_log result.2 = sync_audit_log w).
Proof.
  cbv zeta. destruct (tables w !! tableName job) as [t|] eqn:Ht.
  - rewrite (processJob_cases ans now job w t Ht).
    assert (Hrows : forall (f : SyncedRow -> SyncedRow) tbl k,
              is_Some ((<[tableName job := alter f (rowId job) t]> (tables w) !! tbl)
                       ≫= (fun t' => t' !! k))
              <-> is_Some (tables w !! tbl ≫= (fun t' => t' !! k))).
    { intros f tbl k. destruct (decide (tbl = tableName job)) as [->|Hne].
      - rewrite lookup_insert_eq, Ht. simpl.
        destruct (decide (k = rowId job)) as [->|Hk].
        + rewrite lookup_alter_eq. destruct (t !! rowId job); simpl;
            split; intros [x Hx]; try discriminate; eauto.
        + now rewrite lookup_alter_ne.
      - now rewrite lookup_insert_ne. }
    assert (Hother : forall (f : SyncedRow -> SyncedRow) k, k <> rowId job ->
              (<[tableName job := alter f (rowId job) t]> (tables w) !! tableName job)
                ≫= (fun t' => t' !! k)
              = tables w !! tableName job ≫= (fun t' => t' !! k)).
    { intros f k Hk. rewrite lookup_insert_eq, Ht. simpl. now rewrite lookup_alter_ne. }
    destruct (updateSheetRow_error ans) as [e|]; [|destruct (audit_insert_error ans) as [e|]];
      cbn [fst snd tables sync_audit_log sheet_writes]; unfold row_of;
      cbn [tables].
    + split; [intros tbl Hne; now rewrite lookup_insert_ne|].
      split; [apply Hother|]. split; [apply Hrows|]. split; [now left|].
      split; [discriminate|reflexivity].
    + split; [intros tbl Hne; now rewrite lookup_insert_ne|].
      split; [intros k Hk; rewrite lookup_insert_eq, Ht; simpl;
              now rewrite !lookup_alter_ne|].
      split.
      { intros tbl k. rewrite <- (Hrows (mark_synced now) tbl k).
        destruct (decide (tbl = tableName job)) as [->|Hne].
        - rewrite !lookup_insert_eq. simpl.
          destruct (decide (k = rowId job)) as [->|Hk].
          + rewrite !lookup_alter_eq. destruct (t !! rowId job); simpl;
              split; intros [x Hx]; try discriminate; eauto.
          + now rewrite !lookup_alter_ne.
        - now rewrite !lookup_insert_ne. }
      split; [now right|]. split; [discriminate|reflexivity].
    + split; [intros tbl Hne; now rewrite lookup_insert_ne|].
      split; [apply Hother|]. split; [apply Hrows|]. split; [now right|].
      split; [|discriminate]. intros _. split; [reflexivity|eauto].
  - rewrite (processJob_no_table ans now job w Ht).
    cbn [fst snd tables sync_audit_log sheet_writes]. unfold row_of. cbn [tables].
    split; [reflexivity|]. split; [reflexivity|]. split; [reflexivity|].
    split; [destruct (updateSheetRow_error ans); auto|].
    split; [discriminate|reflexivity].
Qed.

(** The edge cases of the UPDATE.  When the table of the job does not
    exist, the write still goes to the sheet first if the Sheets API
    accepts it, then both UPDATEs fail and the job throws the error of the
    second, in place of the error it had caught; the database is left as
    it was.  When the table exists but has no row with the id of the job,
    the UPDATE changes nothing and is no error: the job returns, the sheet
    is written and the audit entry added, and no row is marked. *)
Theorem processJob_without_its_row
    (ans : Answers) (now : Z) (job : DbToSheetJobData) (w : World) :
  let result := processJob ans now job w in
  (tables w !! tableName job = None ->
   result.1 = Throw "ER_NO_SUCH_TABLE" /\
   tables result.2 = tables w /\
   sync_audit_log result.2 = sync_audit_log w /\
   (updateSheetRow_error ans = None ->
    sheet_writes result.2 = (sheet_writes w ++ [write_of job])%list) /\
   (forall e, updateSheetRow_error ans = Some e ->
    sheet_writes result.2 = sheet_writes w)) /\
  (forall t, tables w !! tableName job = Some t -> t !! rowId job = None ->
   tables result.2 = tables w /\
   (updateSheetRow_error ans = None -> audit_insert_error ans = None ->
    result.1 = Ok tt /\
    sheet_writes result.2 = (sheet_writes w ++ [write_of job])%list /\
    exists entry, sync_audit_log result.2 = (sync_audit_log w ++ [entry])%list)).
Proof.
  cbv zeta. split.
  - intros Ht. rewrite (processJob_no_table ans now job w Ht).
    cbn [fst snd tables sync_audit_log sheet_writes].
    repeat split.
    + now intros ->.
    + now intros e ->.
  - intros t Ht Hk. rewrite (processJob_cases ans now job w t Ht).
    split.
    + destruct (updateSheetRow_error ans) as [e|];
        [|destruct (audit_insert_error ans) as [e|]]; cbn [snd tables];
        rewrite ?(alter_absent (mark_synced now) _ _ Hk), ?(alter_absent mark_error _ _ Hk);
        now apply insert_id.
    + intros -> ->. cbn [fst snd tables sync_audit_log sheet_writes]. eauto.
Qed.

(** A DB->Sheet job run by the worker with the options of its queue, on a
    row that exists, whatever the Sheets API and the database answer in
    each attempt.  It is attempted at least once and at most three times,
    and the row keeps its data.  When the job ends completed, the row is
    SYNCED with the time of the last attempt, in which the sheet write,
    the UPDATE and the audit insert went through.  When it ends failed,
    three attempts were made, and the row is ERROR provided the database
    executed the UPDATE of the catch block in the last attempt.  The
    sheet receives the write of the job once for every attempt whose
    write the Sheets API accepted, so up to three times: that is the case
    when the audit insert fails in every attempt, and the job then ends
    failed although the sheet has the data.  When the database rejects
    both UPDATE statements in every attempt, the job ends failed and the
    row is as it was before the job: it is not marked ERROR. *)
Theorem deliver_outcome
    (updates : Z -> UpdateAnswers) (answers : Z -> Answers) (clock : Z -> Z)
    (job : DbToSheetJobData) (w : World) (t : gmap Z SyncedRow) (r : SyncedRow) :
  tables w !! tableName job = Some t ->
  t !! rowId job = Some r ->
  exists state made w' r',
    deliver (defaultJobOptions dbToSheetQueue) updates answers clock job w
      = (state, made, w') /\
    1 <= made <= 3 /\
    (state = Failed -> made = 3) /\
    row_of w' (tableName job) (rowId job) = Some r' /\
    same_data r r' /\
    (state = Completed ->
       _sync_status r' = SYNCED /\ _synced_at r' = Some (clock made) /\
       updateSheetRow_error (answers made) = None /\
       mark_synced_error (updates made) = None /\
       audit_insert_error (answers made) = None) /\
    (state = Failed -> mark_error_error (updates 3) = None -> _sync_status r' = ERROR) /\
    sheet_writes w' =
      (sheet_writes w ++
       repeat (write_of job) (writes_accepted answers 0 (Z.to_nat made)))%list /\
    ((forall k, updateSheetRow_error (answers k) = None /\
                audit_insert_error (answers k) <> None) ->
     state = Failed /\
     sheet_writes w' = (sheet_writes w ++ [write_of job; write_of job; write_of job])%list) /\
    ((forall k, mark_synced_error (updates k) <> None /\
                mark_error_error (updates k) <> None) ->
     state = Failed /\ r' = r).
Proof.
  intros Ht Hr. unfold deliver.
  destruct (attempt_job_outcome (defaultJobOptions dbToSheetQueue) updates answers clock job
              (Z.to_nat (attempts (defaultJobOptions dbToSheetQueue))) 0 w t r
              ltac:(simpl; lia) ltac:(simpl; lia) Ht Hr)
    as (state & made & w' & r' & E & Hm & Hf & Hrow & Hd & Hc & He & Hrej & Hw).
  exists state, made, w', r'. rewrite Z.sub_0_r in Hw.
  split; [exact E|]. split; [simpl in Hm; lia|]. split; [exact Hf|].
  split; [exact Hrow|]. split; [exact Hd|]. split; [exact Hc|].
  split; [intros Hs Hno; apply (He Hs); rewrite (Hf Hs); exact Hno|]. split; [exact Hw|].
  split; [|exact Hrej].
  intros Hall.
  assert (Hfailed : state = Failed).
  { destruct state; [|reflexivity]. destruct (Hc eq_refl) as (_ & _ & _ & _ & Hno).
    now destruct (Hall made) as [_ Hyes]. }
  split; [exact Hfailed|]. rewrite Hw, (Hf Hfailed).
  change (Z.to_nat (attempts (defaultJobOptions dbToSheetQueue))) with 3%nat.
  cbn [writes_accepted]. rewrite !(proj1 (Hall _)). reflexivity.
Qed.

(** The database is unreachable during the three attempts and the Sheets
    API accepts the write each time: the job ends failed, the sheet has
    the write three times and the row is still PENDING. *)
Lemma deliver_outcome_witness :
  exists w',
    deliver (defaultJobOptions dbToSheetQueue) (fun _ => updates_rejected)
      (fun _ => all_fine) (fun k => 100 * k) (job_for_row 1) one_row_world
    = (Failed, 3, w') /\
    row_of w' "sheet_s_tab" 1 = Some pending_row /\
    length (sheet_writes w') = 3%nat.
Proof.
  destruct (deliver_outcome (fun _ => updates_rejected) (fun _ => all_fine)
              (fun k => 100 * k) (job_for_row 1)
              one_row_world {[ 1 := pending_row ]} pending_row eq_refl eq_refl)
    as (state & made & w' & r' & E & _ & Hf & Hrow & _ & _ & _ & Hw & _ & Hrej).
  destruct Hrej as [-> ->]; [intros k; split; discriminate|].
  rewrite (Hf eq_refl) in E, Hw.
  exists w'. split; [exact E|]. split; [exact Hrow|]. rewrite Hw. reflexivity.
Defined.

End WorkerProperties.

(* ===================================================================== *)
(** * The webhook and the Sheet->DB queue                                *)
(* ===================================================================== *)

Module WebhookFacts.
Import Js Queues SheetToDbQueue Webhook.


Lemma getSheetToDbQueue_cases redis m :
  (queue m = None /\ connections m = 0%nat \/
   queue m = Some sheetToDbQueue /\ connections m = 1%nat) ->
  let result := getSheetToDbQueue redis m in
  jobs result.2 = jobs m /\
  (result.1 = Ok sheetToDbQueue /\ queue result.2 = Some sheetToDbQueue /\
   connections result.2 = 1%nat \/
   (exists e, result.1 = Throw e) /\ result.2 = m /\ queue m = None).
Proof.
  intros [[Hq Hc]|[Hq Hc]]; unfold getSheetToDbQueue; rewrite Hq; cbn.
  - destruct (createConnection_error redis) as [e|]; cbn.
    + split; [reflexivity|]. right. eauto.
    + split; [reflexivity|]. left. rewrite Hc. repeat split.
  - split; [reflexivity|]. left. repeat split; assumption.
Qed.

Lemma existsb_job_id id (l : list QueuedJob) :
  existsb (fun j => String.eqb (job_id j) id) l = false -> ~ In id (map job_id l).
Proof.
  intros E Hin. apply in_map_iff in Hin as (j & Hj & Hin).
  assert (existsb (fun j => String.eqb (job_id j) id) l = true); [|congruence].
  apply existsb_exists. exists j. split; [exact Hin|]. now apply String.eqb_eq.
Qed.

Lemma enqueueSheetToDbJob_ok redis data m :
  queue_module_ok m -> queue_module_ok (enqueueSheetToDbJob redis data m).2.
Proof.
  intros (Hq & Hjobs & Hnd). unfold enqueueSheetToDbJob.
  destruct (getSheetToDbQueue_cases redis m Hq) as [Hj Hres].
  destruct (getSheetToDbQueue redis m) as [res m1]. cbn [fst snd] in *.
  assert (Hm1 : queue_module_ok m1).
  { destruct Hres as [(_ & Hq1 & Hc1)|(_ & -> & _)];
      [|exact (conj Hq (conj Hjobs Hnd))].
    split; [now right|]. rewrite Hj. now split. }
  destruct res as [q|e]; [|exact Hm1].
  destruct Hm1 as (Hq1 & Hjobs1 & Hnd1).
  unfold add. destruct (add_error redis) as [e|]; [exact (conj Hq1 (conj Hjobs1 Hnd1))|].
  destruct (existsb _ (jobs m1)) eqn:Ex; [exact (conj Hq1 (conj Hjobs1 Hnd1))|]. cbn [snd].
  split; [exact Hq1|]. cbn [jobs]. split.
  - intros j Hin. apply in_app_iff in Hin as [Hin|[<-|[]]]; [now apply Hjobs1|].
    repeat split.
  - rewrite map_app. apply NoDup_app. split; [exact Hnd1|]. split.
    + intros id Hin Hin2. apply list_elem_of_In in Hin, Hin2.
      simpl in Hin2. destruct Hin2 as [<-|[]]. now apply (existsb_job_id _ _ Ex).
    + apply NoDup_singleton.
Qed.

End WebhookFacts.

Module WebhookProperties.
Import Js Queues SheetToDbQueue Webhook WebhookFacts Samples.


(** Whatever calls of [enqueueSheetToDbJob] have been made since the
    program started, and whatever Redis answered: the module has made one
    connection at most, and exactly one once its queue exists; every job
    of the queue is named cell-change, has a retryCount of 0 and is stored
    under its own job id; and no two jobs share an id. *)
Theorem enqueueSheetToDbJob_invariants
    (calls : list (RedisAnswers * SheetToDbJobData)) :
  let m := enqueue_all calls initial in
  (connections m <= 1)%nat /\
  (queue m = None /\ connections m = 0%nat \/
   queue m = Some sheetToDbQueue /\ connections m = 1%nat) /\
  (forall j, In j (jobs m) ->
     job_name j = "cell-change" /\ retryCount (job_data j) = 0 /\
     jobId (job_data j) = job_id j) /\
  NoDup (map job_id (jobs m)).
Proof.
  cbv zeta.
  assert (Hall : forall cs m, queue_module_ok m -> queue_module_ok (enqueue_all cs m)).
  { induction cs as [|c cs IH]; intros m Hm; [exact Hm|].
    apply IH. now apply enqueueSheetToDbJob_ok. }
  assert (Hi : queue_module_ok initial).
  { split; [now left|]. split; [intros j []|apply NoDup_nil_2]. }
  destruct (Hall calls initial Hi) as (Hq & Hj & Hnd).
  split; [destruct Hq as [[_ ->]|[_ ->]]; lia|]. exact (conj Hq (conj Hj Hnd)).
Qed.

End WebhookProperties.

(* ===================================================================== *)
(** * The registration of a sheet and the columns of its table           *)
(* ===================================================================== *)

Module SheetTableFacts.
Import Js ColumnUtils TypeCoercion Sql SheetTables.

Lemma existsb_false {A} (f : A -> bool) l x :
  existsb f l = false -> In x l -> f x = false.
Proof.
  intros E Hin. destruct (f x) eqn:Ef; [|reflexivity].
  assert (existsb f l = true) by (apply existsb_exists; eauto). congruence.
Qed.

Lemma existsb_or {A} (f g : A -> bool) l :
  existsb (fun x => f x || g x) l = existsb f l || existsb g l.
Proof.
  induction l as [|x l IH]; [reflexivity|]. simpl. rewrite IH.
  destruct (f x), (g x), (existsb f l), (existsb g l); reflexivity.
Qed.

Lemma map_unchanged {A} (f : A -> A) l : (forall x, In x l -> f x = x) -> map f l = l.
Proof.
  induction l as [|x l IH]; intros Hf; [reflexivity|]. simpl.
  rewrite (Hf x) by now left. f_equal. apply IH. intros y Hy. apply Hf. now right.
Qed.

Lemma In_lookup {A} (x : A) l : In x l -> exists i, l !! i = Some x.
Proof. intros Hin. apply list_elem_of_lookup_1. now apply list_elem_of_In. Qed.

Lemma no_repeat_snoc {A} (same : A -> A -> bool) (l : list A) (x : A) :
  no_repeat same l ->
  (forall a, In a l -> same a x = false /\ same x a = false) ->
  no_repeat same (l ++ [x]).
Proof.
  intros Hl Hx i j a b Hi Hj Hs.
  apply lookup_app_Some in Hi as [Hi|[Hi Hi']];
    apply lookup_app_Some in Hj as [Hj|[Hj Hj']].
  - eapply Hl; eauto.
  - apply list_lookup_singleton_Some in Hj' as [_ <-].
    apply list_elem_of_lookup_2, list_elem_of_In in Hi.
    destruct (Hx a Hi). congruence.
  - apply list_lookup_singleton_Some in Hi' as [_ <-].
    apply list_elem_of_lookup_2, list_elem_of_In in Hj.
    destruct (Hx b Hj). congruence.
  - apply list_lookup_singleton_Some in Hi' as [Hi' _].
    apply list_lookup_singleton_Some in Hj' as [Hj' _]. lia.
Qed.

Lemma count_columns_positive t c cols :
  (0 <? count_columns t c cols)%Z = true <->
  exists l def, cols !! t = Some l /\ In (c, def) l.
Proof.
  unfold count_columns. rewrite Z.ltb_lt. destruct (cols !! t) as [l|]; split.
  - intros Hpos.
    destruct (List.filter (fun x : string * string => String.eqb x.1 c) l)
      as [|[c' def] rest] eqn:Ef; [simpl in Hpos; lia|].
    assert (Hin : In (c', def) (List.filter (fun x : string * string => String.eqb x.1 c) l))
      by (rewrite Ef; now left).
    apply filter_In in Hin as [Hin Hc]. simpl in Hc. apply String.eqb_eq in Hc as ->.
    now exists l, def.
  - intros (l' & def & [= <-] & Hin).
    assert (Hf : In (c, def) (List.filter (fun x : string * string => String.eqb x.1 c) l)).
    { apply filter_In. split; [exact Hin|]. simpl. apply String.eqb_refl. }
    destruct (List.filter _ l); [destruct Hf|simpl; lia].
  - lia.
  - intros (l & def & [=] & _).
Qed.

Lemma mysqlColumnType_inj a b : mysqlColumnType a = mysqlColumnType b -> a = b.
Proof. destruct a, b; simpl; intros E; try reflexivity; discriminate. Qed.

(** CREATE TABLE IF NOT EXISTS keeps the tables that exist. *)
Lemma ensureBaseTable_facts db tableName (cols : gmap string (list (string * string))) :
  (forall t l, cols !! t = Some l ->
     (ensureBaseTable db tableName cols).2 !! t = Some l) /\
  (ddl_error db = None ->
     (ensureBaseTable db tableName cols).1 = Ok tt /\
     (exists l, (ensureBaseTable db tableName cols).2 !! tableName = Some l) /\
     (cols !! tableName = None ->
      (ensureBaseTable db tableName cols).2 !! tableName = Some base_columns) /\
     (is_Some (cols !! tableName) -> ensureBaseTable db tableName cols = (Ok tt, cols))) /\
  (forall e, (ensureBaseTable db tableName cols).1 = Throw e -> ddl_error db = Some e).
Proof.
  unfold ensureBaseTable.
  destruct (ddl_error db) as [e|]; cbn [fst snd].
  - split; [auto|]. split; [discriminate|]. now intros e' [= ->].
  - destruct (cols !! tableName) as [l0|] eqn:El; cbn [fst snd].
    + split; [auto|]. split; [|discriminate]. intros _. split; [reflexivity|].
      split; [eauto|]. split; [discriminate|reflexivity].
    + split.
      { intros t l Ht. rewrite lookup_insert_ne; [exact Ht|]. congruence. }
      split; [|discriminate]. intros _. split; [reflexivity|].
      rewrite lookup_insert_eq. split; [eauto|]. split; [reflexivity|].
      intros [x Hx]. discriminate.
Qed.

Section WithCollation.
Context {collation : Collation}.

Lemma same_sheet_split sid sname r :
  same_sheet sid sname r = true <->
  same_text (sheet_id r) sid = true /\ same_text (sheet_name r) sname = true.
Proof. unfold same_sheet. apply andb_true_iff. Qed.

Lemma same_sheet_sym a b :
  same_sheet (sheet_id a) (sheet_name a) b = true ->
  same_sheet (sheet_id b) (sheet_name b) a = true.
Proof.
  rewrite !same_sheet_split. intros [H1 H2]. split; now apply same_text_sym.
Qed.

Lemma same_table_sym a b :
  same_table (mysql_table_name a) b = true -> same_table (mysql_table_name b) a = true.
Proof. unfold same_table. apply same_text_sym. Qed.

Lemma set_table_same now tname r : mysql_table_name r = tname -> set_table now tname r = r.
Proof. intros E. unfold set_table. now rewrite E, String.eqb_refl. Qed.

Lemma set_table_other now tname r :
  mysql_table_name r <> tname -> set_table now tname r = with_table now tname r.
Proof.
  intros E. unfold set_table.
  destruct (String.eqb (mysql_table_name r) tname) eqn:Eq; [|reflexivity].
  apply String.eqb_eq in Eq. contradiction.
Qed.

(** The INSERT on rows that carry the table name of the sheet wherever
    the database identifies them with it: it fails in the database,
    leaves the rows as they are, or appends the row of the sheet. *)
Lemma upsert_sheet_registered db now sid sname tname rows :
  sheets_unique rows -> registered_as sid sname tname rows ->
  upsert_sheet db now sid sname tname rows =
    match execute_error db with
    | Some e => (Throw e, rows)
    | None =>
        if existsb (fun r => same_sheet sid sname r || same_table tname r) rows
        then (Ok tt, rows)
        else (Ok tt,
              (rows ++ [{| sheet_id := sid; sheet_name := sname; mysql_table_name := tname;
                           sync_enabled := true; created_at := now;
                           updated_at := now |}])%list)
    end.
Proof.
  intros [Hu1 Hu2] Hreg. unfold upsert_sheet.
  destruct (execute_error db) as [e|]; [reflexivity|].
  rewrite existsb_or.
  destruct (existsb (same_sheet sid sname) rows) eqn:Es.
  - cbn [orb].
    apply existsb_exists in Es as (r1 & Hin1 & Hr1).
    assert (Hn1 : mysql_table_name r1 = tname) by (apply Hreg; [exact Hin1|now rewrite Hr1]).
    destruct (existsb (fun r => negb (same_sheet sid sname r) && same_table tname r) rows)
      eqn:Ec.
    + exfalso. apply existsb_exists in Ec as (r2 & Hin2 & Hr2).
      apply andb_true_iff in Hr2 as [Hs2 Ht2]. apply negb_true_iff in Hs2.
      destruct (In_lookup _ _ Hin1) as [i Hi]. destruct (In_lookup _ _ Hin2) as [j Hj].
      assert (i = j) as <-.
      { apply (Hu2 i j r1 r2 Hi Hj). rewrite Hn1. exact Ht2. }
      assert (r1 = r2) as <- by congruence. congruence.
    + f_equal. apply map_unchanged. intros r Hin.
      destruct (same_sheet sid sname r) eqn:Hr; [|reflexivity].
      apply set_table_same. apply Hreg; [exact Hin|now rewrite Hr].
  - cbn [orb]. destruct (existsb (same_table tname) rows) eqn:Et; [|reflexivity].
    f_equal. apply map_unchanged. intros r Hin.
    destruct (same_table tname r) eqn:Hr; [|reflexivity].
    apply set_table_same. apply Hreg; [exact Hin|]. rewrite Hr. apply orb_true_r.
Qed.

End WithCollation.

End SheetTableFacts.

Module SheetTableProperties.
Import Js ColumnUtils TypeCoercion Sql SheetTables SheetTableFacts Samples.

Section WithCollation.
Context {collation : Collation}.

(** [ensureSheetRegistration] on a table sync_sheets that satisfies its
    two unique keys, as the database compares sheets and table names (the
    collation of the table).  It never touches a table that exists.

    First, the usual case: the rows that the database identifies with the
    sheet, by the sheet or by the name of its table, carry the table name
    of the sheet.  Then the registration keeps the unique keys, never
    changes a row it finds, and when the database answers, it returns the
    table name of the sheet, the table exists afterwards (with the seven
    metadata columns when it is new) and a row of sync_sheets has that
    table name; it throws only what the database threw.  The sheet gets a
    row of its own only when the database identifies no row with it: a
    sheet whose table name is the one of a sheet registered before is
    given that sheet's table and is not recorded.  A second registration
    changes nothing.

    Second, the case of a sheet that the database identifies with a
    registered sheet whose table has another name (two tab names that
    differ by an accent): the registered row is given the new table name,
    its table is not renamed, and the table of the new name is created;
    when another row has the new name already, the INSERT fails on the
    unique key and nothing changes. *)
Theorem ensureSheetRegistration_registers
    (db : DbAnswers) (now : Z) (sheetId sheetName : string) (d : Database) :
  sheets_unique (sync_sheets d) ->
  let result := ensureSheetRegistration db now sheetId sheetName d in
  let tableName := sanitizeTableName sheetId sheetName in
  let new := {| sheet_id := sheetId; sheet_name := sheetName; mysql_table_name := tableName;
                sync_enabled := true; created_at := now; updated_at := now |} in
  (forall t l, columns d !! t = Some l -> columns result.2 !! t = Some l) /\
  (registered_as sheetId sheetName tableName (sync_sheets d) ->
     sheets_unique (sync_sheets result.2) /\
     registered_as sheetId sheetName tableName (sync_sheets result.2) /\
     (names_derived (sync_sheets d) -> names_derived (sync_sheets result.2)) /\
     (sync_sheets result.2 = sync_sheets d \/
      sync_sheets result.2 = (sync_sheets d ++ [new])%list /\
      forall r, In r (sync_sheets d) ->
        same_sheet sheetId sheetName r = false /\ same_table tableName r = false) /\
     (forall r, In r (sync_sheets d) -> mysql_table_name r = tableName ->
        sync_sheets result.2 = sync_sheets d) /\
     (execute_error db = None -> ddl_error db = None ->
        result.1 = Ok tableName /\
        (exists r, In r (sync_sheets result.2) /\ mysql_table_name r = tableName) /\
        (exists l, columns result.2 !! tableName = Some l) /\
        (columns d !! tableName = None ->
         columns result.2 !! tableName = Some base_columns) /\
        (forall now',
           ensureSheetRegistration db now' sheetId sheetName result.2
           = (Ok tableName, result.2))) /\
     (forall e, result.1 = Throw e -> execute_error db = Some e \/ ddl_error db = Some e)) /\
  (forall r0, In r0 (sync_sheets d) -> same_sheet sheetId sheetName r0 = true ->
     mysql_table_name r0 <> tableName -> execute_error db = None ->
     let taken := existsb (fun r => negb (same_sheet sheetId sheetName r)
                                    && same_table tableName r) (sync_sheets d) in
     (taken = true -> result = (Throw "ER_DUP_ENTRY", d)) /\
     (taken = false ->
        In (with_table now tableName r0) (sync_sheets result.2) /\
        length (sync_sheets result.2) = length (sync_sheets d) /\
        (ddl_error db = None ->
           result.1 = Ok tableName /\ exists l, columns result.2 !! tableName = Some l))).
Proof.
  intros Hu. cbv zeta.
  set (tableName := sanitizeTableName sheetId sheetName).
  set (new := {| sheet_id := sheetId; sheet_name := sheetName;
                 mysql_table_name := tableName; sync_enabled := true;
                 created_at := now; updated_at := now |}).
  destruct (ensureBaseTable_facts db tableName (columns d)) as (Hkeep & Hok & Hthrow).
  split; [|split].
  - (* the tables that exist *)
    intros t l Ht. unfold ensureSheetRegistration. fold tableName.
    destruct (upsert_sheet db now sheetId sheetName tableName (sync_sheets d)) as [[u|e] rows];
      [|exact Ht].
    destruct (ensureBaseTable db tableName (columns d)) as [[u'|e] cols] eqn:Eb;
      cbn [snd columns] in *; now apply Hkeep.
  - (* the usual case *)
    intros Hreg. unfold ensureSheetRegistration. fold tableName.
    rewrite (upsert_sheet_registered db now sheetId sheetName tableName (sync_sheets d)
               Hu Hreg).
    fold new.
    assert (Hnew_unique :
              existsb (fun r => same_sheet sheetId sheetName r || same_table tableName r)
                (sync_sheets d) = false ->
              sheets_unique (sync_sheets d ++ [new])%list /\
              registered_as sheetId sheetName tableName (sync_sheets d ++ [new])%list /\
              (names_derived (sync_sheets d) -> names_derived (sync_sheets d ++ [new])%list) /\
              (forall r, In r (sync_sheets d) ->
                 same_sheet sheetId sheetName r = false /\ same_table tableName r = false) /\
              existsb (fun r => same_sheet sheetId sheetName r || same_table tableName r)
                (sync_sheets d ++ [new])%list = true).
    { intros Ex.
      assert (Hnone : forall r, In r (sync_sheets d) ->
                same_sheet sheetId sheetName r = false /\ same_table tableName r = false).
      { intros r Hin. pose proof (existsb_false _ _ r Ex Hin) as Hr.
        now apply orb_false_iff in Hr. }
      split; [|split; [|split; [|split]]].
      - destruct Hu as [Hu1 Hu2]. split.
        + apply no_repeat_snoc; [exact Hu1|]. intros a Hin.
          destruct (Hnone a Hin) as [Hs _]. split.
          * destruct (same_sheet (sheet_id a) (sheet_name a) new) eqn:E; [|reflexivity].
            apply same_sheet_sym in E. cbn [new sheet_id sheet_name] in E. congruence.
          * exact Hs.
        + apply no_repeat_snoc; [exact Hu2|]. intros a Hin.
          destruct (Hnone a Hin) as [_ Ht]. split.
          * destruct (same_table (mysql_table_name a) new) eqn:E; [|reflexivity].
            apply same_table_sym in E. cbn [new mysql_table_name] in E. congruence.
          * exact Ht.
      - intros r Hin Hr. apply in_app_iff in Hin as [Hin|[<-|[]]]; [|reflexivity].
        destruct (Hnone r Hin) as [Hs Ht]. rewrite Hs, Ht in Hr. discriminate.
      - intros Hd r Hin. apply in_app_iff in Hin as [Hin|[<-|[]]]; [now apply Hd|reflexivity].
      - exact Hnone.
      - apply existsb_exists. exists new. split; [apply in_app_iff; right; now left|].
        unfold same_table. cbn [new mysql_table_name]. rewrite same_text_refl.
        apply orb_true_r. }
    destruct (execute_error db) as [e|] eqn:Eex.
    { cbn [fst snd sync_sheets columns].
      split; [exact Hu|]. split; [exact Hreg|]. split; [auto|]. split; [now left|].
      split; [reflexivity|]. split; [discriminate|]. intros e' [= ->]. now left. }
    destruct (existsb (fun r => same_sheet sheetId sheetName r || same_table tableName r)
                (sync_sheets d)) eqn:Ex.
    + (* a row is identified with the sheet *)
      destruct (ensureBaseTable db tableName (columns d)) as [[u|e] cols] eqn:Eb;
        cbn [fst snd sync_sheets columns] in *.
      * split; [exact Hu|]. split; [exact Hreg|]. split; [auto|]. split; [now left|].
        split; [reflexivity|]. split; [|discriminate].
        intros _ Hddl. destruct (Hok Hddl) as (_ & Hex & Hbase & _).
        split; [reflexivity|].
        split.
        { apply existsb_exists in Ex as (r & Hin & Hr). exists r.
          split; [exact Hin|now apply Hreg]. }
        split; [exact Hex|]. split; [exact Hbase|].
        intros now'. unfold ensureSheetRegistration. cbn [sync_sheets columns].
        fold tableName.
        rewrite (upsert_sheet_registered db now' sheetId sheetName tableName (sync_sheets d)
                   Hu Hreg), Eex, Ex.
        destruct (ensureBaseTable_facts db tableName cols) as (_ & Hok' & _).
        destruct (Hok' Hddl) as (_ & _ & _ & Hsame).
        rewrite (Hsame ltac:(destruct Hex; eauto)). reflexivity.
      * split; [exact Hu|]. split; [exact Hreg|]. split; [auto|]. split; [now left|].
        split; [reflexivity|]. split.
        -- intros _ Hddl. destruct (Hok Hddl) as (Hno & _). discriminate.
        -- intros e' [= ->]. right. now apply Hthrow.
    + (* no row is identified with the sheet: its row is appended *)
      destruct (Hnew_unique eq_refl) as (Hu' & Hreg' & Hd' & Hnone & Hnew_in).
      assert (Hother : forall r, In r (sync_sheets d) -> mysql_table_name r = tableName ->
                (sync_sheets d ++ [new])%list = sync_sheets d).
      { intros r Hin Hr. destruct (Hnone r Hin) as [_ Ht].
        unfold same_table in Ht. rewrite Hr, same_text_refl in Ht. discriminate. }
      destruct (ensureBaseTable db tableName (columns d)) as [[u|e] cols] eqn:Eb;
        cbn [fst snd sync_sheets columns] in *.
      * split; [exact Hu'|]. split; [exact Hreg'|]. split; [exact Hd'|].
        split; [right; now split|]. split; [exact Hother|]. split; [|discriminate].
        intros _ Hddl. destruct (Hok Hddl) as (_ & Hex & Hbase & _).
        split; [reflexivity|].
        split; [exists new; split; [apply in_app_iff; right; now left|reflexivity]|].
        split; [exact Hex|]. split; [exact Hbase|].
        intros now'. unfold ensureSheetRegistration. cbn [sync_sheets columns].
        fold tableName.
        rewrite (upsert_sheet_registered db now' sheetId sheetName tableName _ Hu' Hreg'),
          Eex, Hnew_in.
        destruct (ensureBaseTable_facts db tableName cols) as (_ & Hok' & _).
        destruct (Hok' Hddl) as (_ & _ & _ & Hsame).
        rewrite (Hsame ltac:(destruct Hex; eauto)). reflexivity.
      * split; [exact Hu'|]. split; [exact Hreg'|]. split; [exact Hd'|].
        split; [right; now split|]. split; [exact Hother|]. split.
        -- intros _ Hddl. destruct (Hok Hddl) as (Hno & _). discriminate.
        -- intros e' [= ->]. right. now apply Hthrow.
  - (* a registered sheet under another table name *)
    intros r0 Hin0 Hs0 Hname Hex.
    assert (Es : existsb (same_sheet sheetId sheetName) (sync_sheets d) = true)
      by (apply existsb_exists; eauto).
    unfold ensureSheetRegistration, upsert_sheet. fold tableName. rewrite Hex, Es.
    split.
    + intros ->. now destruct d.
    + intros ->.
      destruct (ensureBaseTable db tableName (columns d)) as [[u|e] cols] eqn:Eb;
        cbn [fst snd sync_sheets columns] in *.
      * split.
        { apply in_map_iff. exists r0. split; [|exact Hin0].
          rewrite Hs0. now apply set_table_other. }
        split; [apply length_map|].
        intros Hddl. destruct (Hok Hddl) as (_ & Hexists & _). now split.
      * split.
        { apply in_map_iff. exists r0. split; [|exact Hin0].
          rewrite Hs0. now apply set_table_other. }
        split; [apply length_map|].
        intros Hddl. destruct (Hok Hddl) as (Hno & _). discriminate.
Qed.

End WithCollation.

Lemma empty_database_unique : sheets_unique [] /\ registered_as "1BxiMVs0XRA5" "Sales 2024"
  "sheet_col_1bximvs0xra5_sales_2024" [].
Proof.
  split; [split|]; [intros i j a b Hi; discriminate Hi..|intros r []].
Qed.

Lemma ensureSheetRegistration_registers_witness :
  (ensureSheetRegistration {| execute_error := None; ddl_error := None |} 10
     "1BxiMVs0XRA5" "Sales 2024" {| sync_sheets := []; columns := ∅ |}).1
  = Ok "sheet_col_1bximvs0xra5_sales_2024".
Proof.
  destruct (ensureSheetRegistration_registers
              {| execute_error := None; ddl_error := None |} 10
              "1BxiMVs0XRA5" "Sales 2024" {| sync_sheets := []; columns := ∅ |}
              (proj1 empty_database_unique))
    as (_ & Hregistered & _).
  destruct (Hregistered (proj2 empty_database_unique)) as (_ & _ & _ & _ & _ & Hok & _).
  destruct (Hok eq_refl eq_refl) as (E & _). rewrite E. reflexivity.
Defined.

(** [ensureColumnExistsOnTable] adds a column to a table at most, at the
    end, with the definition of the asked type; every other table, the
    columns the table has and the table sync_sheets stay as they are.  A
    column of that name that exists is kept with the definition it has,
    whatever type is asked for.  When the call returns, the table has the
    column, and a second call, for any type, changes nothing; when it
    throws, nothing has changed, and it throws when the table does not
    exist: it does not create tables.  The definitions of the four types
    are different from each other. *)
Theorem ensureColumnExistsOnTable_adds_once
    (db : DbAnswers) (tableName mysqlColumnName : string) (dataType : ColumnDataType)
    (d : Database) :
  let result := ensureColumnExistsOnTable db tableName mysqlColumnName dataType d in
  sync_sheets result.2 = sync_sheets d /\
  (forall t, t <> tableName -> columns result.2 !! t = columns d !! t) /\
  (columns result.2 !! tableName = columns d !! tableName \/
   exists l, columns d !! tableName = Some l /\
     (forall def, ~ In (mysqlColumnName, def) l) /\
     columns result.2 !! tableName
     = Some (l ++ [(mysqlColumnName, mysqlColumnType dataType)])%list) /\
  (forall l def, columns d !! tableName = Some l -> In (mysqlColumnName, def) l ->
     execute_error db = None -> result = (Ok tt, d)) /\
  (result.1 = Ok tt ->
     (exists l def, columns result.2 !! tableName = Some l /\ In (mysqlColumnName, def) l) /\
     forall dataType',
       ensureColumnExistsOnTable db tableName mysqlColumnName dataType' result.2
       = (Ok tt, result.2)) /\
  (forall e, result.1 = Throw e -> result.2 = d) /\
  (columns d !! tableName = None -> exists e, result.1 = Throw e) /\
  (forall a b, mysqlColumnType a = mysqlColumnType b -> a = b).
Proof.
  cbv zeta. unfold ensureColumnExistsOnTable.
  split; [|split; [|split; [|split; [|split; [|split; [|split]]]]]];
    try exact mysqlColumnType_inj.
  - destruct (execute_error db); [reflexivity|].
    destruct (0 <? count_columns _ _ _); [reflexivity|].
    destruct (add_column _ _ _ _ _). reflexivity.
  - intros t Hne. destruct (execute_error db); [reflexivity|].
    destruct (0 <? count_columns _ _ _); [reflexivity|].
    unfold add_column. destruct (ddl_error db); [reflexivity|].
    destruct (columns d !! tableName); [|reflexivity].
    destruct (existsb _ _); [reflexivity|]. cbn [snd columns].
    now rewrite lookup_insert_ne.
  - destruct (execute_error db); [now left|].
    destruct (0 <? count_columns _ _ _) eqn:Ec; [now left|].
    unfold add_column. destruct (ddl_error db); [now left|].
    destruct (columns d !! tableName) as [l|] eqn:El; [|now left].
    destruct (existsb _ _); [now left|]. cbn [snd columns]. right.
    exists l. split; [reflexivity|]. split; [|apply lookup_insert_eq].
    intros def Hin. assert ((0 <? count_columns tableName mysqlColumnName (columns d)) = true).
    { apply count_columns_positive. eauto. }
    congruence.
  - intros l def Hl Hin ->.
    assert (Hc : (0 <? count_columns tableName mysqlColumnName (columns d)) = true)
      by (apply count_columns_positive; eauto).
    now rewrite Hc.
  - destruct (execute_error db) as [e|] eqn:Ee; [discriminate|].
    destruct (0 <? count_columns tableName mysqlColumnName (columns d)) eqn:Ec.
    + intros _. cbn [snd]. split; [now apply count_columns_positive|].
      intros dataType'. now rewrite Ec.
    + unfold add_column. destruct (ddl_error db); [discriminate|].
      destruct (columns d !! tableName) as [l|] eqn:El; [|discriminate].
      destruct (existsb _ _); [discriminate|]. cbn [fst snd columns sync_sheets].
      intros _.
      assert (Hnow : exists l' def,
                <[tableName := (l ++ [(mysqlColumnName, mysqlColumnType dataType)])%list]>
                  (columns d) !! tableName = Some l' /\ In (mysqlColumnName, def) l').
      { exists (l ++ [(mysqlColumnName, mysqlColumnType dataType)])%list,
          (mysqlColumnType dataType).
        split; [apply lookup_insert_eq|]. apply in_app_iff. right. now left. }
      split; [exact Hnow|].
      intros dataType'. apply count_columns_positive in Hnow.
      cbn [columns]. now rewrite Hnow.
  - intros e. destruct (execute_error db); [reflexivity|].
    destruct (0 <? count_columns _ _ _); [discriminate|].
    unfold add_column. destruct (ddl_error db); [now destruct d|].
    destruct (columns d !! tableName); [|now destruct d].
    destruct (existsb _ _); [now destruct d|discriminate].
  - intros Hno. destruct (execute_error db); [eauto|].
    assert (Hc : (0 <? count_columns tableName mysqlColumnName (columns d)) = false).
    { unfold count_columns. now rewrite Hno. }
    rewrite Hc. unfold add_column. destruct (ddl_error db); [eauto|].
    rewrite Hno. eauto.
Qed.

End SheetTableProperties.

(* ===================================================================== *)
(** * Starting and stopping the worker; the logger                       *)
(* ===================================================================== *)

Module LifecycleFacts.
Import Js Queues WorkerLifecycle.

Lemma run_call_ok call m : one_running m -> one_running (run_lifecycle_call call m).
Proof.
  unfold one_running. intros Hm. destruct call as [c|c]; cbn [run_lifecycle_call].
  - unfold startDbToSheetWorker. destruct (worker m) as [k|] eqn:Ew.
    + cbn. now rewrite Ew.
    + destruct (getClient_error c); cbn; [now rewrite Ew|]. now rewrite Hm.
  - unfold stopDbToSheetWorker. destruct (worker m) as [k|] eqn:Ew.
    + destruct (close_error c); cbn; [now rewrite Ew|].
      rewrite Hm. cbn. now rewrite Nat.eqb_refl.
    + cbn. now rewrite Ew.
Qed.

Lemma run_calls_ok calls m : one_running m -> one_running (run_lifecycle calls m).
Proof.
  revert m. induction calls as [|call calls IH]; intros m Hm; [exact Hm|].
  apply IH. now apply run_call_ok.
Qed.

End LifecycleFacts.

Module LifecycleProperties.
Import Js Queues WorkerLifecycle LifecycleFacts.

(** Whatever calls of [startDbToSheetWorker] and [stopDbToSheetWorker]
    have been made since the program started, and whether or not Redis
    and the workers answered them: at most one worker is running, it is
    the one the module holds, and so at most five jobs of the queue are
    processed at a time.  Starting when a worker is held creates nothing
    and logs a warning; stopping when none is held does nothing at all. *)
Theorem one_worker_at_most (calls : list LifecycleCall) :
  let m := run_lifecycle calls not_started in
  running m = match worker m with Some k => [k] | None => [] end /\
  (length (running m) <= 1)%nat /\
  0 <= capacity m <= 5 /\
  (forall c k, worker m = Some k ->
     startDbToSheetWorker c m
     = (Ok tt, log warn "DB to Sheet worker already running" m)) /\
  (forall c, worker m = None -> stopDbToSheetWorker c m = (Ok tt, m)).
Proof.
  cbv zeta. assert (Hm : one_running (run_lifecycle calls not_started))
    by (apply run_calls_ok; reflexivity).
  unfold one_running in Hm. unfold capacity.
  split; [exact Hm|]. rewrite Hm.
  split; [destruct (worker _); simpl; lia|].
  split; [destruct (worker _); simpl; lia|].
  split.
  - intros c k Hk. unfold startDbToSheetWorker. now rewrite Hk.
  - intros c Hk. unfold stopDbToSheetWorker. now rewrite Hk.
Qed.

End LifecycleProperties.

Module LoggerProperties.
Import Js Logger.

Lemma includes_In (l : list string) s : includes l s = true <-> In s l.
Proof.
  unfold includes. rewrite existsb_exists. split.
  - intros (x & Hin & Hx). apply String.eqb_eq in Hx. now subst.
  - intros Hin. exists s. split; [exact Hin|apply String.eqb_refl].
Qed.

(** The level of the logger is always one of error, warn, info, http and
    debug.  It is LOG_LEVEL in lower case when that is one of the five,
    whatever the case it is written in; with any other LOG_LEVEL, or with
    none, it is info when NODE_ENV is production and debug otherwise.
    The log is written as JSON exactly when NODE_ENV is production and
    LOG_FORMAT is not pretty. *)
Theorem logger_configuration (env : Env) :
  In (getLogLevel env) LOG_LEVELS /\
  (forall l, env !! "LOG_LEVEL" = Some l -> In (toLowerCase l) LOG_LEVELS ->
     getLogLevel env = toLowerCase l) /\
  ((forall l, env !! "LOG_LEVEL" = Some l -> ~ In (toLowerCase l) LOG_LEVELS) ->
     getLogLevel env = if bool_decide (env !! "NODE_ENV" = Some "production")
                       then "info" else "debug") /\
  (In json (getFormat env) <->
     env !! "NODE_ENV" = Some "production" /\ env !! "LOG_FORMAT" <> Some "pretty") /\
  (In devFormat (getFormat env) <-> ~ In json (getFormat env)).
Proof.
  assert (Hfb : In (if bool_decide (env !! "NODE_ENV" = Some "production")
                    then "info" else "debug") LOG_LEVELS).
  { destruct (bool_decide _); simpl; tauto. }
  unfold getLogLevel.
  split; [|split; [|split; [|split]]].
  - destruct (env !! "LOG_LEVEL") as [l|]; cbn [fmap option_fmap option_map]; [|exact Hfb].
    destruct (includes LOG_LEVELS (toLowerCase l)) eqn:Ei.
    + apply includes_In in Ei.
      destruct (String.length (toLowerCase l) =? 0)%nat; cbn [negb andb]; [exact Hfb|exact Ei].
    + rewrite andb_false_r. exact Hfb.
  - intros l -> Hin. cbn [fmap option_fmap option_map].
    assert (Hne : (String.length (toLowerCase l) =? 0)%nat = false).
    { destruct (toLowerCase l); [simpl in Hin; intuition discriminate|reflexivity]. }
    rewrite Hne. apply includes_In in Hin. now rewrite Hin.
  - intros Hno. destruct (env !! "LOG_LEVEL") as [l|]; cbn [fmap option_fmap option_map];
      [|reflexivity].
    destruct (includes LOG_LEVELS (toLowerCase l)) eqn:Ei.
    + apply includes_In in Ei. now destruct (Hno l eq_refl).
    + now rewrite andb_false_r.
  - unfold getFormat.
    destruct (bool_decide (env !! "LOG_FORMAT" = Some "pretty")) eqn:Ef;
      destruct (bool_decide (env !! "NODE_ENV" = Some "production")) eqn:En;
      cbn [orb negb];
      try apply bool_decide_eq_true in Ef; try apply bool_decide_eq_false in Ef;
      try apply bool_decide_eq_true in En; try apply bool_decide_eq_false in En;
      simpl; intuition (try discriminate; try congruence).
  - unfold getFormat.
    destruct (bool_decide (env !! "LOG_FORMAT" = Some "pretty") ||
              negb (bool_decide (env !! "NODE_ENV" = Some "production")));
      simpl; intuition (try discriminate; try congruence).
Qed.

End LoggerProperties.

(* ===================================================================== *)
(** * The cleanup event                                                  *)
(* ===================================================================== *)

Module CleanupProperties.
Import Cleanup.

Lemma filter_filter_weaker {A} (f g : A -> bool) (l : list A) :
  (forall x, g x = true -> f x = true) ->
  List.filter g (List.filter f l) = List.filter g l.
Proof.
  intros Hgf. induction l as [|x l IH]; simpl; [reflexivity|].
  destruct (f x) eqn:Ef; simpl.
  - now rewrite IH.
  - destruct (g x) eqn:Eg; [|exact IH]. apply Hgf in Eg. congruence.
Qed.

(** A run of the event keeps the rows of both logs in their order and
    deletes exactly these: the audit entries created more than 30 days
    is_before, and the changes that are marked processed and were processed
    more than 7 days is_before.  So a change that is not processed is never
    deleted, and neither is a row whose time is NULL.  A run after an
    earlier run leaves what it would have left alone. *)
Theorem cleanup_deletes_only_old_rows (now1 now2 : Z) (l : Logs) :
  let l' := cleanup_old_audit_logs now1 now2 l in
  (forall r, In r (audit_rows l') <->
     In r (audit_rows l) /\
     (audit_created_at r = None \/
      exists t, audit_created_at r = Some t /\ now1 - 30 * 86400000 <= t)) /\
  (forall r, In r (change_rows l') <->
     In r (change_rows l) /\
     (processed r <> Some 1 \/ processed_at r = None \/
      exists t, processed_at r = Some t /\ now2 - 7 * 86400000 <= t)) /\
  (forall r, In r (change_rows l) -> processed r <> Some 1 ->
     In r (change_rows l')) /\
  (forall earlier1 earlier2, earlier1 <= now1 -> earlier2 <= now2 ->
     cleanup_old_audit_logs now1 now2 (cleanup_old_audit_logs earlier1 earlier2 l) = l').
Proof.
  cbv zeta. unfold cleanup_old_audit_logs, DATE_SUB_days. cbn [audit_rows change_rows].
  assert (Haudit : forall now r,
            negb (is_before (audit_created_at r) (now - 30 * 86400000)) = true <->
            (audit_created_at r = None \/
             exists t, audit_created_at r = Some t /\ now - 30 * 86400000 <= t)).
  { intros now r. unfold is_before. destruct (audit_created_at r) as [t|].
    - rewrite negb_true_iff, Z.ltb_ge. split.
      + intros Ht. right. now exists t.
      + intros [?|(t' & [= <-] & Ht)]; [discriminate|exact Ht].
    - split; [now left|reflexivity]. }
  assert (Hchange : forall now r,
            negb (is_TRUE (processed r) && is_before (processed_at r) (now - 7 * 86400000)) = true
            <-> (processed r <> Some 1 \/ processed_at r = None \/
                 exists t, processed_at r = Some t /\ now - 7 * 86400000 <= t)).
  { intros now r. unfold is_TRUE, is_before. rewrite negb_true_iff, andb_false_iff.
    destruct (processed r) as [v|]; destruct (processed_at r) as [t|].
    - rewrite Z.eqb_neq, Z.ltb_ge. split.
      + intros [H|H]; [left; congruence|right; right; eauto].
      + intros [H|[H|(t' & [= <-] & H)]]; [left; congruence|discriminate|now right].
    - split; [intros _; right; now left|intros _; now right].
    - split; [intros _; left; discriminate|intros _; now left].
    - split; [intros _; left; discriminate|intros _; now left]. }
  split; [|split; [|split]].
  - intros r. rewrite filter_In. now rewrite Haudit.
  - intros r. rewrite filter_In. now rewrite Hchange.
  - intros r Hin Hp. apply filter_In. split; [exact Hin|]. apply Hchange. now left.
  - intros earlier1 earlier2 H1 H2. f_equal.
    + apply filter_filter_weaker. intros r. rewrite !Haudit.
      intros [Hn|(t & Ht & Hle)]; [now left|]. right. exists t. split; [exact Ht|lia].
    + apply filter_filter_weaker. intros r. rewrite !Hchange.
      intros [Hp|[Hn|(t & Ht & Hle)]]; [now left|now right; left|].
      right. right. exists t. split; [exact Ht|lia].
Qed.

End CleanupProperties.
